(** * Jointformer: a shallow embedding of the model, its attention layer,
      the sampling loop and the trainer's schedule.

    Floating-point tensors are modelled over the real numbers; the value
    [-inf] used by [masked_fill] is a separate constructor of [xreal].
    Python exceptions are modelled by the [Err] side of [result]. *)

From Stdlib Require Import Reals Lra Lia ZArith.
From stdpp Require Import gmap strings list.

(** ** Python exceptions raised by the embedded code *)

Inductive exn : Type :=
  | ValueError
  | ZeroDivisionError
  | AssertionError
  | IndexError
  | TypeError
  | RuntimeError.

Inductive result (A : Type) : Type :=
  | Ok (a : A)
  | Err (e : exn).
Arguments Ok {A} a.
Arguments Err {A} e.

#[global] Instance result_ret : MRet result := λ A a, Ok a.
#[global] Instance result_bind : MBind result := λ A B k r,
  match r with
  | Ok a => k a
  | Err e => Err e
  end.

Definition is_ok {A} (r : result A) : Prop := ∃ a, r = Ok a.

(** [mapM] with the position of each element, as in a loop over
    [enumerate(l)] or over the leading axis of a tensor. *)
Definition imapM {A B} (f : nat → A → result B) (l : list A) : result (list B) :=
  mapM (λ '(i, a), f i a) (zip (seq 0 (length l)) l).

(** ** hybrid_transformer/trainers/trainer.py *)

Module Training.

Local Open Scope R_scope.

(** The configuration fields of [Trainer] that the schedule and the
    evaluation read. *)
Record Trainer : Type := mkTrainer {
  learning_rate : R;
  decay_lr : bool;
  warmup_iters : Z;
  lr_decay_iters : Z;
  min_lr : R;
  eval_iters : Z
}.

(** *** The learning-rate schedule *)

(** Python's [a / b] on floats/ints raises on a zero divisor. *)
Definition py_div (a b : R) : result R :=
  if Req_dec_T b 0 then Err ZeroDivisionError else Ok (a / b).

(** [Trainer._get_lr(it)] *)
Definition _get_lr (self : Trainer) (it : Z) : result R :=
  if (it <? warmup_iters self)%Z then
    py_div (learning_rate self * IZR it) (IZR (warmup_iters self))
  else if (it >? lr_decay_iters self)%Z then
    Ok (min_lr self)
  else
    decay_ratio ← py_div (IZR (it - warmup_iters self))
                         (IZR (lr_decay_iters self - warmup_iters self));
    if Rle_dec 0 decay_ratio then
      if Rle_dec decay_ratio 1 then
        let coeff := 0.5 * (1.0 + cos (PI * decay_ratio)) in
        Ok (min_lr self + coeff * (learning_rate self - min_lr self))
      else Err AssertionError
    else Err AssertionError.

(** The body of [_get_lr] at a real position [x] of the iteration axis,
    with the same comparisons and arithmetic: the schedule as a curve, which
    [_get_lr] samples at the integers. *)
Definition get_lr_at (self : Trainer) (x : R) : result R :=
  if Rlt_dec x (IZR (warmup_iters self)) then
    py_div (learning_rate self * x) (IZR (warmup_iters self))
  else if Rgt_dec x (IZR (lr_decay_iters self)) then
    Ok (min_lr self)
  else
    decay_ratio ← py_div (x - IZR (warmup_iters self))
                         (IZR (lr_decay_iters self) - IZR (warmup_iters self));
    if Rle_dec 0 decay_ratio then
      if Rle_dec decay_ratio 1 then
        let coeff := 0.5 * (1.0 + cos (PI * decay_ratio)) in
        Ok (min_lr self + coeff * (learning_rate self - min_lr self))
      else Err AssertionError
    else Err AssertionError.

(** The rate that [set_lr(iter_num)] writes into every parameter group. *)
Definition set_lr (self : Trainer) (iter_num : Z) : result R :=
  if decay_lr self then _get_lr self iter_num else Ok (learning_rate self).

(** The schedule as a total curve (0 where the code raises). *)
Definition lr_curve (self : Trainer) (x : R) : R :=
  match get_lr_at self x with
  | Ok v => v
  | Err _ => 0
  end.

Definition well_configured (self : Trainer) : Prop :=
  (0 < warmup_iters self < lr_decay_iters self)%Z ∧
  min_lr self <= learning_rate self.

(** The cosine branch of the schedule, as a curve. *)
Definition cosine_branch (self : Trainer) (x : R) : R :=
  min_lr self +
  0.5 * (1.0 + cos (PI * ((x - IZR (warmup_iters self)) /
                          (IZR (lr_decay_iters self) - IZR (warmup_iters self)))))
  * (learning_rate self - min_lr self).

Definition sample_trainer : Trainer :=
  {| learning_rate := 1; decay_lr := true; warmup_iters := 2; lr_decay_iters := 4;
     min_lr := 0.1; eval_iters := 3 |}.

(** A configuration allowed by [well_configured] whose peak rate is negative. *)
Definition negative_rate_trainer : Trainer :=
  {| learning_rate := -1; decay_lr := true; warmup_iters := 2; lr_decay_iters := 4;
     min_lr := -2; eval_iters := 3 |}.

(** *** Periodic evaluation *)

(** The answers of the collaborators of [estimate_loss].
    [unsupervised_loss split k] is [outputs['unsupervised_loss'].item()] on
    the [k]-th batch of [split]; [valid_samples split k] is
    [tokenizer.is_valid_smiles(samples)] for the [k]-th generated batch. *)
Record Collaborators : Type := mkCollaborators {
  unsupervised_loss : string → nat → R;
  valid_samples : string → nat → list bool
}.

(** [torch.zeros(n)]: a negative size is refused. *)
Definition zeros (n : Z) : result (list R) :=
  if (n <? 0)%Z then Err RuntimeError else Ok (replicate (Z.to_nat n) 0).

(** [losses.mean()] *)
Definition mean (losses : list R) : R :=
  foldr Rplus 0 losses / INR (length losses).

(** [sum(valid)]: Python counts [True] as 1. *)
Definition count_true (valid : list bool) : Z :=
  Z.of_nat (length (filter (λ b, b = true) valid)).

(** [a / b] on Python integers. *)
Definition int_div (a b : Z) : result R :=
  if (b =? 0)%Z then Err ZeroDivisionError else Ok (IZR a / IZR b).

(** The body of the loop over the splits (lines 168-184). *)
Definition estimate_split (self : Trainer) (env : Collaborators) (split : string)
    (out : gmap string R) : result (gmap string R) :=
  losses ← zeros (eval_iters self);
  let losses := foldl (λ (losses : list R) k,
                         <[k := unsupervised_loss env split k]> losses)
                      losses (seq 0 (Z.to_nat (eval_iters self))) in
  let out := <[split := mean losses]> out in
  let valid := foldl (λ (valid : list bool) k, valid ++ valid_samples env split k)
                     [] (seq 0 (Z.to_nat (eval_iters self))) in
  score ← int_div (count_true valid) (Z.of_nat (length valid));
  Ok (<["valid" := score]> out).

(** [Trainer.estimate_loss()], from the model's training flag: the flag on
    exit, and the dict [out] or the exception. An exception leaves the model
    in evaluation mode, since [self.model.train()] is not reached. *)
Definition estimate_loss (self : Trainer) (env : Collaborators) (training : bool)
  : bool * result (gmap string R) :=
  let out : gmap string R := ∅ in
  let training := false in
  match out ← estimate_split self env "train" out;
        estimate_split self env "val" out with
  | Ok out => (true, Ok out)
  | Err e => (training, Err e)
  end.

(** A trainer configured with no evaluation rounds. *)
Definition idle_trainer : Trainer :=
  {| learning_rate := 1; decay_lr := true; warmup_iters := 2; lr_decay_iters := 4;
     min_lr := 0.1; eval_iters := 0 |}.

Definition sample_collaborators : Collaborators :=
  {| unsupervised_loss := λ _ _, 1;
     valid_samples := λ _ k, [true; Nat.even k] |}.

End Training.

(** ** Dense tensors as nested lists of reals *)

Module Tensor.

Local Open Scope R_scope.

Definition sum (v : list R) : R := foldr Rplus 0 v.

Definition dot (u v : list R) : R := sum (zip_with Rmult u v).

(** [torch.nn.Linear]: [weight] has [out_features] rows of [in_features]
    entries; the layer computes [x @ weight.T + bias] on the last axis. *)
Record Linear : Type := mkLinear {
  in_features : nat;
  out_features : nat;
  weight : list (list R);
  bias : option (list R)
}.

Definition Linear_wf (L : Linear) : Prop :=
  length (weight L) = out_features L ∧
  Forall (λ w, length w = in_features L) (weight L) ∧
  match bias L with
  | Some b => length b = out_features L
  | None => True
  end.

(** One row through the layer; the width check is done by the callers. *)
Definition linear_row (L : Linear) (x : list R) : list R :=
  let y := (λ w, dot x w) <$> weight L in
  match bias L with
  | Some b => zip_with Rplus y b
  | None => y
  end.

(** [L(x)] for [x] of shape (T, in_features): a width mismatch is torch's
    RuntimeError. *)
Definition linear2 (L : Linear) (x : list (list R)) : result (list (list R)) :=
  if forallb (λ row, length row =? in_features L)%nat x
  then Ok (linear_row L <$> x)
  else Err RuntimeError.

(** [L(x)] for [x] of shape (B, T, in_features). *)
Definition linear3 (L : Linear) (x : list (list (list R)))
  : result (list (list (list R))) :=
  mapM (linear2 L) x.

(** [a @ v] for [a] of shape (n, m) and [v] of shape (m, k). *)
Definition matmul (k : nat) (a v : list (list R)) : list (list R) :=
  (λ ai, foldr (zip_with Rplus) (replicate k 0)
           (zip_with (λ w (vj : list R), Rmult w <$> vj) ai v)) <$> a.

(** Values of a tensor after [masked_fill(_, float('-inf'))]. *)
Inductive xreal : Type :=
  | Fin (r : R)
  | NegInf.

Definition xexp (x : xreal) : R :=
  match x with
  | Fin r => exp r
  | NegInf => 0
  end.

(** [F.softmax(_, dim=-1)] on one row: exp(-inf) is 0. *)
Definition softmax (row : list xreal) : list R :=
  let es := xexp <$> row in
  (λ e, e / sum es) <$> es.

(** Broadcasting one axis to size [n]: an axis of size 1 is repeated, any
    other size mismatch is torch's RuntimeError. *)
Definition expand {A} (n : nat) (l : list A) : result (list A) :=
  if (length l =? n)%nat then Ok l
  else match l with
       | [a] => Ok (replicate n a)
       | _ => Err RuntimeError
       end.

Definition fill (a : xreal) (b : bool) : xreal := if b then NegInf else a.

(** [t.masked_fill(m, float('-inf'))] for [t] of shape (rows, cols); the
    mask [m] is broadcast to that shape. *)
Definition masked_fill (cols : nat) (t : list (list xreal)) (m : list (list bool))
  : result (list (list xreal)) :=
  m ← expand (length t) m;
  m ← mapM (expand cols) m;
  Ok (zip_with (zip_with fill) t m).

(** [torch.tril(torch.ones(n, n))]. *)
Definition tril_ones (n : nat) : list (list R) :=
  (λ i, (λ j, if (j <=? i)%nat then 1 else 0) <$> seq 0 n) <$> seq 0 n.

(** [m == 0], elementwise. *)
Definition eq_zero (m : list (list R)) : list (list bool) :=
  (λ row : list R, (λ a, if Req_dec_T a 0 then true else false) <$> row) <$> m.

(** [nn.Dropout(p)] on a matrix. In training mode the entries that the
    random draw [keep] does not keep are zeroed and the others rescaled; in
    evaluation mode the layer is the identity. *)
Definition dropout (p : R) (training : bool) (keep : nat → nat → bool)
    (t : list (list R)) : list (list R) :=
  if training
  then imap (λ i (row : list R),
               imap (λ j a, if keep i j then a / (1 - p) else 0) row) t
  else t.

End Tensor.

(** ** jointformer/layers/hybrid_attention.py *)

Module Attention.

Import Tensor.
Local Open Scope R_scope.

Record HybridSelfAttention : Type := mkAttention {
  qkv_proj : Linear;
  out_proj : Linear;
  num_heads : nat;
  embed_dim : nat;
  dropout_p : R;
  block_size : nat;
  flash : bool;
  training : bool
}.

(** The outcome of the random draws of the two dropout layers: which
    entries are kept, by batch element, head (for the attention weights) and
    position. *)
Record Draws : Type := mkDraws {
  attn_keep : nat → nat → nat → nat → bool;
  resid_keep : nat → nat → nat → bool
}.

(** What [__init__] establishes. *)
Definition constructed (self : HybridSelfAttention) : Prop :=
  (0 < num_heads self)%nat ∧
  (embed_dim self `mod` num_heads self = 0)%nat ∧
  in_features (qkv_proj self) = embed_dim self ∧
  out_features (qkv_proj self) = (3 * embed_dim self)%nat ∧
  in_features (out_proj self) = embed_dim self ∧
  out_features (out_proj self) = embed_dim self ∧
  Linear_wf (qkv_proj self) ∧ Linear_wf (out_proj self).

(** [C // self.num_heads] *)
Definition head_size (self : HybridSelfAttention) : nat :=
  (embed_dim self / num_heads self)%nat.

(** [t.view(T, nh, hs).transpose(0, 1)]: head [h] keeps columns
    [h*hs .. (h+1)*hs) of every position. *)
Definition split_heads (self : HybridSelfAttention) (t : list (list R))
  : list (list (list R)) :=
  (λ h, (λ row : list R, take (head_size self) (drop (h * head_size self) row)) <$> t)
    <$> seq 0 (num_heads self).

(** [y.transpose(0, 1).contiguous().view(T, C)] *)
Definition merge_heads (T : nat) (y : list (list (list R))) : list (list R) :=
  (λ t, concat ((λ yh : list (list R), default [] (yh !! t)) <$> y)) <$> seq 0 T.

(** [(q @ k.transpose(-2, -1)) * scale] for one head. *)
Definition scores (scale : R) (q k : list (list R)) : list (list xreal) :=
  (λ qi : list R, (λ kj : list R, Fin (dot qi kj * scale)) <$> k) <$> q.

(** [self.mask_causal[:, :, :T, :T] == 0] *)
Definition causal_fill (self : HybridSelfAttention) (T : nat) : list (list bool) :=
  eq_zero (take T <$> take T (tril_ones (block_size self))).

(** The fill pattern of a causal mask: entry (i, j) is filled iff j > i. *)
Definition causal_pattern (T : nat) : list (list bool) :=
  (λ i, (λ j, negb (j <=? i)%nat) <$> seq 0 T) <$> seq 0 T.

(** [F.scaled_dot_product_attention] for one head, by the kernel's
    documented semantics; it materialises no attention weights. *)
Definition scaled_dot_product_attention (self : HybridSelfAttention)
    (keep : nat → nat → bool) (q k v : list (list R)) (is_causal : bool)
    (attn_mask : option (list (list bool))) : result (list (list R)) :=
  let T := length q in
  let att := scores (/ sqrt (INR (head_size self))) q k in
  att ← (if is_causal then masked_fill T att (eq_zero (tril_ones T)) else Ok att);
  att ← match attn_mask with
        | Some m => masked_fill T att ((λ row : list bool, negb <$> row) <$> m)
        | None => Ok att
        end;
  Ok (matmul (head_size self)
        (dropout (dropout_p self) (training self) keep (softmax <$> att)) v).

(** [1.0 / math.sqrt(k.size(-1))]: Python's float division raises on a
    zero divisor. *)
Definition attention_scale (self : HybridSelfAttention) : result R :=
  if Req_dec_T (sqrt (INR (head_size self))) 0
  then Err ZeroDivisionError
  else Ok (1.0 / sqrt (INR (head_size self))).

(** Lines 73-78 for one head of one batch element, given the scaling
    factor of line 72: the head's output and its attention weights. An
    unrecognised [task] reaches neither [masked_fill]. *)
Definition explicit_attention (self : HybridSelfAttention) (task : string)
    (scale : R) (keep : nat → nat → bool) (mask : option (list (list bool)))
    (q k v : list (list R)) : result (list (list R) * list (list R)) :=
  let T := length q in
  let att := scores scale q k in
  att ← (if String.eqb task "lm" then
           masked_fill T att (causal_fill self T)
         else if String.eqb task "mlm" then
           match mask with
           | Some m => masked_fill T att ((λ row : list bool, negb <$> row) <$> m)
           | None => Ok att
           end
         else Ok att);
  let att := softmax <$> att in
  Ok (matmul (head_size self)
        (dropout (dropout_p self) (training self) keep att) v, att).

(** Entry [i] along the leading axis of an optional mask. The mask is taken
    already broadcast over the batch and head axes. *)
Definition mask_at {A} (mask : option (list (list A))) (i : nat)
  : option (list A) :=
  m ← mask; Some (default [] (m !! i)).

(** Lines 57-60 for one batch element: the (q, k, v) of every head, from
    the fused projection [qkv] of shape (T, 3C). *)
Definition heads_of (self : HybridSelfAttention) (qkv : list (list R))
  : list (nat * (list (list R) * (list (list R) * list (list R)))) :=
  zip (seq 0 (num_heads self))
    (zip (split_heads self (take (embed_dim self) <$> qkv))
       (zip (split_heads self
               ((λ row : list R, take (embed_dim self) (drop (embed_dim self) row))
                  <$> qkv))
            (split_heads self
               ((λ row : list R, take (embed_dim self) (drop (2 * embed_dim self) row))
                  <$> qkv)))).

(** The fused kernel over every head of batch element [b]. *)
Definition attend_fused (self : HybridSelfAttention) (rng : Draws)
    (is_causal : bool) (mask : option (list (list (list (list bool)))))
    (b : nat) (qkv : list (list R)) : result (list (list (list R))) :=
  mapM (λ '(h, (qh, (kh, vh))),
          scaled_dot_product_attention self (attn_keep rng b h) qh kh vh
            is_causal (mask_at (mask_at mask b) h))
       (heads_of self qkv).

(** The explicit path over every head of batch element [b]. *)
Definition attend_explicit (self : HybridSelfAttention) (rng : Draws)
    (task : string) (scale : R) (mask : option (list (list (list (list bool)))))
    (b : nat) (qkv : list (list R))
  : result (list (list (list R) * list (list R))) :=
  mapM (λ '(h, (qh, (kh, vh))),
          explicit_attention self task scale (attn_keep rng b h)
            (mask_at (mask_at mask b) h) qh kh vh)
       (heads_of self qkv).

(** Lines 80-81 for batch element [b] of sequence length [T]. *)
Definition project_out (self : HybridSelfAttention) (rng : Draws) (b T : nat)
    (y : list (list (list R))) : result (list (list R)) :=
  y ← linear2 (out_proj self) (merge_heads T y);
  Ok (dropout (dropout_p self) (training self) (resid_keep rng b) y).

(** Lines 63-78: the branch on [self.flash] and on [task], for the
    projected batch [qkv] of shape (B, T, 3C). Returns the per-head outputs
    [y] of shape (B, nh, T, hs) and [att]. *)
Definition attend (self : HybridSelfAttention) (rng : Draws)
    (task : string) (mask : option (list (list (list (list bool)))))
    (qkv : list (list (list R)))
  : result (list (list (list (list R))) * option (list (list (list (list R))))) :=
  if flash self then
    if String.eqb task "lm" then
      y ← imapM (attend_fused self rng true None) qkv;
      Ok (y, None)
    else if String.eqb task "mlm" then
      y ← imapM (attend_fused self rng false mask) qkv;
      Ok (y, None)
    else Err ValueError
  else
    scale ← attention_scale self;
    ya ← imapM (attend_explicit self rng task scale mask) qkv;
    Ok (fmap (M:=list) (fmap (M:=list) fst) ya,
        Some (fmap (M:=list) (fmap (M:=list) snd) ya)).

(** [HybridSelfAttention.forward(x, task, mask)] for [x] of shape (B, T, C)
    and an optional boolean mask of shape (B, nh, T, T). The second
    component is [att]: [None] on the fused path, the post-softmax weights
    of shape (B, nh, T, T) on the explicit path. *)
Definition forward (self : HybridSelfAttention) (rng : Draws)
    (x : list (list (list R))) (task : string)
    (mask : option (list (list (list (list bool)))))
  : result (list (list (list R)) * option (list (list (list (list R))))) :=
  qkv ← linear3 (qkv_proj self) x;
  ya ← attend self rng task mask qkv;
  y ← imapM (λ b (p : list (list R) * list (list (list R))),
               project_out self rng b (length p.1) p.2) (zip x ya.1);
  Ok (y, ya.2).

(** Weights of shape (T, T) that vanish strictly above the diagonal. *)
Definition causal_weights (T : nat) (a : list (list R)) : Prop :=
  length a = T ∧
  ∀ i row, a !! i = Some row →
    length row = T ∧ ∀ j w, row !! j = Some w → (i < j)%nat → w = 0.

(** The shape (nh, T, hs) of the per-head outputs of one batch element. *)
Definition head_outputs_shape (self : HybridSelfAttention) (T : nat)
    (y : list (list (list R))) : Prop :=
  length y = num_heads self ∧
  Forall (λ yh, length yh = T ∧ Forall (λ r, length r = head_size self) yh) y.

(** A small layer on the explicit path (C = 2, one head, block size 4, in
    evaluation mode) and a batch of one sequence of length 2. *)
Definition sample_attention : HybridSelfAttention :=
  {| qkv_proj := {| in_features := 2; out_features := 6;
                    weight := [[1; 0]; [0; 1]; [1; 1]; [0; 1]; [1; 0]; [1; 1]];
                    bias := None |};
     out_proj := {| in_features := 2; out_features := 2;
                    weight := [[1; 0]; [0; 1]];
                    bias := Some [0; 0] |};
     num_heads := 1;
     embed_dim := 2;
     dropout_p := 0;
     block_size := 4;
     flash := false;
     training := false |}.

(** The same layer with the fused kernel available. *)
Definition sample_attention_fused : HybridSelfAttention :=
  {| qkv_proj := qkv_proj sample_attention;
     out_proj := out_proj sample_attention;
     num_heads := 1;
     embed_dim := 2;
     dropout_p := 0;
     block_size := 4;
     flash := true;
     training := false |}.

Definition sample_draws : Draws :=
  {| attn_keep := λ _ _ _ _, true; resid_keep := λ _ _ _, true |}.

Definition sample_input : list (list (list R)) := [[[1; 0]; [0; 1]]].

End Attention.

(** ** jointformer/models/jointformer.py: routing, heads and losses *)

Module Model.

Import Tensor.
Local Open Scope R_scope.

(** Modelled from the spec: [Transformer.forward]
    (jointformer/models/transformer.py), which returns the final hidden
    states [embeddings] of shape (B, T, C) and optionally the per-layer
    [layer_embeddings]. *)
Record TransformerOutput : Type := mkTransformerOutput {
  body_embeddings : list (list (list R));
  body_layer_embeddings : option (list (list (list (list R))))
}.

(** The values held by the dict [outputs] of [forward]. *)
Inductive value : Type :=
  | VTensor3 (t : list (list (list R)))
  | VTensor2 (t : list (list R))
  | VLayers (l : list (list (list (list R)))).

Definition as_dict (o : TransformerOutput) : gmap string value :=
  let d := {[ "embeddings" := VTensor3 (body_embeddings o) ]} in
  match body_layer_embeddings o with
  | Some l => <["layer_embeddings" := VLayers l]> d
  | None => d
  end.

(** [d.get(k, None)], by the type of the value. *)
Definition get_tensor3 (d : gmap string value) (k : string)
  : option (list (list (list R))) :=
  match d !! k with
  | Some (VTensor3 t) => Some t
  | _ => None
  end.

Definition get_tensor2 (d : gmap string value) (k : string)
  : option (list (list R)) :=
  match d !! k with
  | Some (VTensor2 t) => Some t
  | _ => None
  end.

Definition get_layers (d : gmap string value) (k : string)
  : option (list (list (list (list R)))) :=
  match d !! k with
  | Some (VLayers l) => Some l
  | _ => None
  end.

(** Modelled from the spec: [ModelOutput] (jointformer/models/utils.py), a
    bundle of the attention mask, the three embedding views, the optional
    per-task logits, the optional per-layer embeddings and the optional loss. *)
Record ModelOutput : Type := mkModelOutput {
  attention_mask : option (list (list bool));
  embeddings : list (list (list R));
  cls_embeddings : list (list R);
  lm_embeddings : list (list (list R));
  logits_generation : option (list (list (list R)));
  logits_physchem : option (list (list R));
  logits_prediction : option (list (list R));
  layer_embeddings : option (list (list (list (list R))));
  loss : option R
}.

(** [outputs["loss"] = v] *)
Definition set_loss (o : ModelOutput) (v : R) : ModelOutput :=
  {| attention_mask := attention_mask o;
     embeddings := embeddings o;
     cls_embeddings := cls_embeddings o;
     lm_embeddings := lm_embeddings o;
     logits_generation := logits_generation o;
     logits_physchem := logits_physchem o;
     logits_prediction := logits_prediction o;
     layer_embeddings := layer_embeddings o;
     loss := Some v |}.

(** [outputs["logits_generation"] = t] *)
Definition set_logits_generation (o : ModelOutput) (t : list (list (list R)))
  : ModelOutput :=
  {| attention_mask := attention_mask o;
     embeddings := embeddings o;
     cls_embeddings := cls_embeddings o;
     lm_embeddings := lm_embeddings o;
     logits_generation := Some t;
     logits_physchem := logits_physchem o;
     logits_prediction := logits_prediction o;
     layer_embeddings := layer_embeddings o;
     loss := loss o |}.

(** The loss functions of [torch.nn.functional] and the constant
    [TOKEN_DICT['ignore']] of the tokenizer package, taken as given. *)
Record Externals : Type := mkExternals {
  cross_entropy : list (list R) → list Z → Z → R;
  cross_entropy_target : list (list R) → list (list R) → R;
  binary_cross_entropy_with_logits : list (list R) → list (list R) → R;
  mse_loss : list R → list R → R;
  TOKEN_DICT_ignore : Z
}.

(** The state of a [Jointformer]. The inherited [Transformer.forward] and
    the two prediction heads (jointformer/models/layers/prediction.py) are
    not among the sources and are fields of the model. *)
Record Jointformer : Type := mkJointformer {
  vocab_size : nat;
  max_seq_len : nat;
  embedding_dim : nat;
  prediction_task_type : string;
  num_prediction_tasks : Z;
  lm_head : Linear;
  mlm_head : Linear;
  physchem_head : list (list R) → list (list R);
  prediction_head : list (list R) → list (list R);
  transformer_forward :
    list (list Z) → option (list (list bool)) → bool → result TransformerOutput
}.

(** [Jointformer._get_cls_embeddings(embeddings, **kwargs)]:
    [embeddings[:, 0]]; the keyword arguments, among them the
    [attention_mask] that [forward] passes, are not read. *)
Definition _get_cls_embeddings (embeddings : list (list (list R)))
  : result (list (list R)) :=
  mapM (λ eb : list (list R), match eb with
                              | e0 :: _ => Ok e0
                              | [] => Err IndexError
                              end) embeddings.

(** [Jointformer._get_lm_embeddings(embeddings, next_token_only)]:
    [embeddings[:, [-1]] if next_token_only else embeddings] *)
Definition _get_lm_embeddings (embeddings : list (list (list R)))
    (next_token_only : bool) : result (list (list (list R))) :=
  if next_token_only
  then mapM (λ eb : list (list R), match last eb with
                                   | Some e => Ok [e]
                                   | None => Err IndexError
                                   end) embeddings
  else Ok embeddings.

(** The last position of one batch element, kept as a sequence of length
    one (empty for an empty sequence). *)
Definition last_only (eb : list (list R)) : list (list R) :=
  match last eb with
  | Some e => [e]
  | None => []
  end.

(** Lines 86-93: the task tag selects the masking mode. *)
Definition route (task : string) (attention_mask : option (list (list bool)))
  : result (bool * option (list (list bool))) :=
  if String.eqb task "generation" then Ok (true, None)
  else if bool_decide (task ∈ ["physchem"; "prediction"; "mlm"])
  then Ok (false, attention_mask)
  else Err ValueError.

(** [Jointformer.forward(input_ids, task, attention_mask, next_token_only)]
    on an instance of [Jointformer] itself: [self._get_cls_embeddings] and
    [self._get_lm_embeddings] (lines 96-97) are then the two static methods
    above. Instances of the subclasses, which override them, are treated in
    [Classes]. *)
Definition forward (self : Jointformer) (input_ids : list (list Z))
    (task : string) (attention_mask : option (list (list bool)))
    (next_token_only : bool) : result ModelOutput :=
  '(_is_causal, _attention_mask) ← route task attention_mask;
  o ← transformer_forward self input_ids _attention_mask _is_causal;
  let outputs := as_dict o in
  cls ← _get_cls_embeddings (body_embeddings o);
  lm ← _get_lm_embeddings (body_embeddings o) next_token_only;
  let layers := get_layers outputs "layer_embeddings" in
  outputs ← (if _is_causal : bool then
               lg ← linear3 (lm_head self) lm;
               Ok (<["logits_generation" := VTensor3 lg]> outputs)
             else
               Ok (<["logits_prediction" := VTensor2 (prediction_head self cls)]>
                     (<["logits_physchem" := VTensor2 (physchem_head self cls)]>
                        outputs)));
  Ok {| attention_mask := attention_mask;
        embeddings := body_embeddings o;
        cls_embeddings := cls;
        lm_embeddings := lm;
        logits_generation := get_tensor3 outputs "logits_generation";
        logits_physchem := get_tensor2 outputs "logits_physchem";
        logits_prediction := get_tensor2 outputs "logits_prediction";
        layer_embeddings := layers;
        loss := None |}.

(** [Jointformer.predict] *)
Definition predict (self : Jointformer) (input_ids : list (list Z))
    (attention_mask : option (list (list bool))) : result ModelOutput :=
  forward self input_ids "prediction" attention_mask false.

(** [t[k]] for an optional tensor: subscripting [None] is a TypeError. *)
Definition subscript {A} (t : option A) : result A :=
  match t with
  | Some a => Ok a
  | None => Err TypeError
  end.

Definition get_loss_lm (F : Externals) (self : Jointformer)
    (input_ids : list (list Z)) (attention_mask : option (list (list bool)))
    (input_labels : option (list (list Z))) : result ModelOutput :=
  forward self input_ids "generation" attention_mask false
  ≫= λ outputs : ModelOutput,
  match input_labels with
  | Some input_labels =>
      subscript (logits_generation outputs)
      ≫= λ lg : list (list (list R)),
      let logits := (λ tb : list (list R), take (length tb - 1) tb) <$> lg in
      let labels : list (list Z) := tail <$> input_labels in
      Ok (set_loss outputs
            (cross_entropy F (concat logits) (concat labels) (TOKEN_DICT_ignore F)))
  | None => Ok outputs
  end.

Definition get_loss_mlm (F : Externals) (self : Jointformer)
    (input_ids : list (list Z)) (attention_mask : option (list (list bool)))
    (input_labels : option (list (list Z))) : result ModelOutput :=
  forward self input_ids "mlm" attention_mask false
  ≫= λ outputs : ModelOutput,
  lg ← linear3 (mlm_head self) (embeddings outputs);
  let outputs := set_logits_generation outputs lg in
  match input_labels with
  | Some labels =>
      Ok (set_loss outputs
            (cross_entropy F (concat lg) (concat labels) (TOKEN_DICT_ignore F)))
  | None => Ok outputs
  end.

Definition get_loss_physchem (F : Externals) (self : Jointformer)
    (input_ids : list (list Z)) (attention_mask : option (list (list bool)))
    (properties : option (list (list R))) : result ModelOutput :=
  predict self input_ids attention_mask
  ≫= λ outputs : ModelOutput,
  match properties with
  | Some properties =>
      lp ← subscript (logits_physchem outputs);
      Ok (set_loss outputs (mse_loss F (concat lp) (concat properties)))
  | None => Ok outputs
  end.

Definition get_loss_prediction (F : Externals) (self : Jointformer)
    (input_ids : list (list Z)) (attention_mask : option (list (list bool)))
    (properties : option (list (list R))) : result ModelOutput :=
  predict self input_ids attention_mask
  ≫= λ outputs : ModelOutput,
  match properties with
  | Some properties =>
      if String.eqb (prediction_task_type self) "classification" then
        if (num_prediction_tasks self =? 1)%Z then
          lp ← subscript (logits_prediction outputs);
          Ok (set_loss outputs (cross_entropy_target F lp properties))
        else if (num_prediction_tasks self >? 1)%Z then
          lp ← subscript (logits_prediction outputs);
          Ok (set_loss outputs (binary_cross_entropy_with_logits F lp properties))
        else Err ValueError
      else if String.eqb (prediction_task_type self) "regression" then
        lp ← subscript (logits_prediction outputs);
        Ok (set_loss outputs (mse_loss F (concat lp) (concat properties)))
      else Err ValueError
  | None => Ok outputs
  end.

(** [Jointformer.get_loss(input_ids, attention_mask, task, input_labels,
    properties)] *)
Definition get_loss (F : Externals) (self : Jointformer)
    (input_ids : list (list Z)) (attention_mask : option (list (list bool)))
    (task : string) (input_labels : option (list (list Z)))
    (properties : option (list (list R))) : result ModelOutput :=
  if String.eqb task "lm" || String.eqb task "generation" then
    get_loss_lm F self input_ids attention_mask input_labels
  else if String.eqb task "mlm" then
    get_loss_mlm F self input_ids attention_mask input_labels
  else if String.eqb task "prediction" then
    get_loss_prediction F self input_ids attention_mask properties
  else if String.eqb task "physchem" then
    get_loss_physchem F self input_ids attention_mask properties
  else Err ValueError.

(** The tags each operation accepts. *)
Definition forward_tasks : list string := ["generation"; "mlm"; "prediction"; "physchem"].
Definition loss_tasks : list string := ["lm"; "generation"; "mlm"; "prediction"; "physchem"].

(** A tensor of shape (B, T, V). *)
Definition has_shape3 (B T V : nat) (t : list (list (list R))) : Prop :=
  length t = B ∧
  Forall (λ tb : list (list R), length tb = T ∧ Forall (λ r, length r = V) tb) t.

(** What [__init__] establishes for the language-model head:
    [nn.Linear(embedding_dim, vocab_size, bias=False)]. *)
Definition lm_head_constructed (self : Jointformer) : Prop :=
  Linear_wf (lm_head self) ∧
  in_features (lm_head self) = embedding_dim self ∧
  out_features (lm_head self) = vocab_size self ∧
  bias (lm_head self) = None.

(** A small model: vocabulary of 10 tokens, embeddings of width 2; the body
    embeds token [t] as [(t, 1)]. *)
Definition sample_model : Jointformer :=
  {| vocab_size := 10;
     max_seq_len := 8;
     embedding_dim := 2;
     prediction_task_type := "regression";
     num_prediction_tasks := 1;
     lm_head := {| in_features := 2; out_features := 10;
                   weight := [[1; 0]; [0; 1]; [1; 1]; [2; 0]; [0; 2];
                              [1; 2]; [2; 1]; [3; 0]; [0; 3]; [3; 1]];
                   bias := None |};
     mlm_head := {| in_features := 2; out_features := 10;
                    weight := [[1; 0]; [0; 1]; [1; 1]; [2; 0]; [0; 2];
                               [1; 2]; [2; 1]; [3; 0]; [0; 3]; [3; 1]];
                    bias := None |};
     physchem_head := λ cls, (λ e : list R, [sum e]) <$> cls;
     prediction_head := λ cls, (λ e : list R, [sum e]) <$> cls;
     transformer_forward := λ ids _ _,
       Ok {| body_embeddings :=
               (λ row : list Z, (λ t : Z, [IZR t; 1]) <$> row) <$> ids;
             body_layer_embeddings := None |} |}.

(** A batch of two sequences of four tokens. *)
Definition sample_ids : list (list Z) := [[1; 2; 3; 4]; [5; 6; 7; 8]]%Z.

Definition sample_externals : Externals :=
  {| cross_entropy := λ _ _ _, 0;
     cross_entropy_target := λ _ _, 0;
     binary_cross_entropy_with_logits := λ _ _, 0;
     mse_loss := λ a b, sum (zip_with (λ x y, (x - y) * (x - y)) a b);
     TOKEN_DICT_ignore := (-100)%Z |}.

End Model.

(** ** jointformer/models/jointformer.py: autoregressive generation *)

Module Generation.

Import Tensor Model.
Local Open Scope R_scope.

(** The attributes of the tokenizer that [generate] reads.
    [generation_prefix] is [None] when the attribute is absent. *)
Record Tokenizer : Type := mkTokenizer {
  generation_prefix : option (list Z);
  sep_token_id : Z;
  pad_token_id : Z;
  max_molecule_length : Z
}.

(** Python's truth value of [eos_token_id]: [None] and [0] are false. *)
Definition truthy (eos_token_id : option Z) : bool :=
  match eos_token_id with
  | Some z => negb (z =? 0)%Z
  | None => false
  end.

(** [torch.topk(row, k)] values: the [k] largest entries, in descending
    order. *)
Fixpoint insert_desc (x : R) (l : list R) : list R :=
  match l with
  | [] => [x]
  | y :: l' => if Rle_dec y x then x :: l else y :: insert_desc x l'
  end.

Definition sort_desc (l : list R) : list R := foldr insert_desc [] l.

Definition topk (k : nat) (l : list R) : list R := take k (sort_desc l).

(** Lines 232-240 on one row of logits: temperature scaling, the optional
    top-k cut and the softmax. *)
Definition next_token_probs (temperature : R) (top_k : option Z)
    (logits : list R) : result (list R) :=
  let logits := (λ a, a / temperature) <$> logits in
  logits ← match top_k with
           | Some top_k =>
               if (top_k <? 0)%Z then Err RuntimeError
               else
                 let v := topk (Z.to_nat top_k `min` length logits) logits in
                 kth ← match last v with
                       | Some x => Ok x
                       | None => Err IndexError
                       end;
                 Ok ((λ a, if Rlt_dec a kth then NegInf else Fin a) <$> logits)
           | None => Ok (Fin <$> logits)
           end;
  Ok (softmax logits).

(** The outcome of [torch.multinomial(probs, num_samples=1)], by loop
    iteration and batch row: the index drawn from the row's distribution. *)
Definition Sampler : Type := nat → nat → list R → nat.

(** An index can be drawn iff it carries positive probability. *)
Definition possible_draw (probs : list R) (j : nat) : Prop :=
  ∃ p, probs !! j = Some p ∧ 0 < p.

(** A sampler that only returns indices that can be drawn. *)
Definition admissible (multinomial : Sampler) : Prop :=
  ∀ s r probs, (∃ j, possible_draw probs j) →
               possible_draw probs (multinomial s r probs).

#[global] Instance Rlt_decision (a b : R) : Decision (a < b) := Rlt_dec a b.

(** A sampler that draws the first index of positive probability. *)
Definition first_positive : Sampler :=
  λ _ _ probs,
    match list_find (λ p, 0 < p) probs with
    | Some (i, _) => i
    | None => 0%nat
    end.

(** [row[-m:]] *)
Definition last_tokens (m : nat) (row : list Z) : list Z :=
  if (m =? 0)%nat then row else drop (length row - m) row.

(** [idx if idx.size(1) <= max_seq_len else idx[:, -max_seq_len:]], on
    one row. *)
Definition crop (max_seq_len : nat) (row : list Z) : list Z :=
  if (length row <=? max_seq_len)%nat then row else last_tokens max_seq_len row.

(** [idx[:, [-1]] == eos_token_id or idx[:, [-1]] == pad_token_id], on one
    row. *)
Definition is_end (eos_token_id : option Z) (pad_token_id : Z) (row : list Z)
  : result bool :=
  match last row with
  | Some t => Ok (bool_decide (eos_token_id = Some t) || (t =? pad_token_id)%Z)
  | None => Err IndexError
  end.

(** One iteration of the loop of [generate_single_token] (lines 222-246),
    on the running sequences [idx] and the flags [eos_flag]. *)
Definition sampling_step (self : Jointformer) (multinomial : Sampler)
    (temperature : R) (top_k : option Z) (eos_token_id : option Z)
    (pad_token_id : Z) (s : nat) (st : list (list Z) * list bool)
  : result (list (list Z) * list bool) :=
  let idx := st.1 in
  eos_flag ← (if truthy eos_token_id then
                is_end ← mapM (is_end eos_token_id pad_token_id) idx;
                Ok (zip_with orb st.2 is_end)
              else Ok st.2);
  let idx_cond := crop (max_seq_len self) <$> idx in
  forward self idx_cond "generation" None true
  ≫= λ outputs : ModelOutput,
  logits ← subscript (logits_generation outputs);
  logits ← mapM (λ lb : list (list R), match last lb with
                                       | Some row => Ok row
                                       | None => Err IndexError
                                       end) logits;
  probs ← mapM (next_token_probs temperature top_k) logits;
  let idx_next := imap (λ r p, Z.of_nat (multinomial s r p)) probs in
  if (length idx_next =? length idx)%nat then
    let idx_next :=
      zip_with (λ (f : bool) (t : Z), if f then pad_token_id else t)
               eos_flag idx_next in
    Ok (zip_with (λ (row : list Z) (t : Z), row ++ [t]) idx idx_next, eos_flag)
  else Err RuntimeError.

(** [for _ in range(n)], the iterations numbered from [s]. *)
Fixpoint sampling_loop (self : Jointformer) (multinomial : Sampler)
    (temperature : R) (top_k : option Z) (eos_token_id : option Z)
    (pad_token_id : Z) (n s : nat) (st : list (list Z) * list bool)
  : result (list (list Z) * list bool) :=
  match n with
  | O => Ok st
  | S n' =>
      st' ← sampling_step self multinomial temperature top_k eos_token_id
              pad_token_id s st;
      sampling_loop self multinomial temperature top_k eos_token_id
        pad_token_id n' (S s) st'
  end.

(** [Jointformer.generate_single_token(idx, max_new_tokens, temperature,
    top_k, eos_token_id, pad_token_id)] *)
Definition generate_single_token (self : Jointformer) (multinomial : Sampler)
    (idx : list (list Z)) (max_new_tokens : Z) (temperature : R)
    (top_k : option Z) (eos_token_id : option Z) (pad_token_id : Z)
  : result (list (list Z)) :=
  st ← sampling_loop self multinomial temperature top_k eos_token_id
         pad_token_id (Z.to_nat max_new_tokens) 0
         (idx, replicate (length idx) false);
  Ok st.1.

(** [if eos_token_id not in sequence: idx[sequence_idx, -1] = eos_token_id] *)
Definition ensure_end (eos_token_id : Z) (sequence : list Z) : result (list Z) :=
  if bool_decide (eos_token_id ∈ sequence) then Ok sequence
  else match sequence with
       | [] => Err IndexError
       | _ => Ok (<[(length sequence - 1)%nat := eos_token_id]> sequence)
       end.

(** [Jointformer.generate(tokenizer, batch_size, temperature, top_k,
    device)]. When no token is sampled the rows of [idx] are views of one
    prefix; writing the end token through the first row then reaches them
    all, which gives the rows that writing each row separately gives. *)
Definition generate (self : Jointformer) (multinomial : Sampler)
    (tokenizer : Tokenizer) (batch_size : nat) (temperature : R)
    (top_k : option Z) : result (list (list Z)) :=
  prefix ← match generation_prefix tokenizer with
           | Some p => Ok p
           | None => Err AssertionError
           end;
  let eos_token_id := sep_token_id tokenizer in
  let pad_token_id := pad_token_id tokenizer in
  let prefix := replicate batch_size prefix in
  idx ← generate_single_token self multinomial prefix
          (max_molecule_length tokenizer - 2) temperature top_k
          (Some eos_token_id) pad_token_id;
  mapM (ensure_end eos_token_id) idx.

(** A batch of [B] sequences of [L] tokens. *)
Definition regular (B L : nat) (idx : list (list Z)) : Prop :=
  length idx = B ∧ Forall (λ row, length row = L) idx.

(** What is assumed of the absent [Transformer.forward] on the causal
    route: a batch of sequences of a length within [max_seq_len] is mapped to
    hidden states of shape (B, T, embedding_dim). *)
Definition body_well_shaped (self : Jointformer) : Prop :=
  ∀ ids B T, regular B T ids → (0 < T ≤ max_seq_len self)%nat →
    ∃ o, transformer_forward self ids None true = Ok o ∧
         has_shape3 B T (embedding_dim self) (body_embeddings o).

(** A usable [top_k]: absent, or at least 1 over a non-empty vocabulary. *)
Definition top_k_ok (self : Jointformer) (top_k : option Z) : Prop :=
  match top_k with
  | Some k => (1 ≤ k)%Z ∧ (0 < vocab_size self)%nat
  | None => True
  end.

(** In [new], whatever follows an end-or-pad token is the pad token. *)
Definition tail_padded (eos_token_id : option Z) (pad_token_id : Z)
    (new : list Z) : Prop :=
  ∀ p p' t t', (p < p')%nat → new !! p = Some t → new !! p' = Some t' →
               (eos_token_id = Some t ∨ t = pad_token_id) → t' = pad_token_id.

Definition all_pad (pad_token_id : Z) (new : list Z) : Prop :=
  Forall (λ t, t = pad_token_id) new.

(** A sampler that draws token 0 in the first iteration and token 5 in
    every later one. *)
Definition sample_sampler : Sampler := λ s _ _, if (s =? 0)%nat then 0%nat else 5%nat.

Definition sample_tokenizer : Tokenizer :=
  {| generation_prefix := Some [1]%Z;
     sep_token_id := 2;
     pad_token_id := 9;
     max_molecule_length := 3 |}.

End Generation.

(** ** jointformer/models/jointformer.py: weight tying *)

Module Tying.

Local Open Scope R_scope.

(** Parameters are objects on a heap: a module binds parameter names to
    locations, and a location holds a weight matrix. *)
Definition loc : Type := nat.

(** [nn.Parameter(w)]: a new object. *)
Definition alloc (w : list (list R)) (σ : gmap loc (list (list R)))
  : loc * gmap loc (list (list R)) :=
  let l := fresh (dom σ) in (l, <[l := w]> σ).

(** The part of [Jointformer.__init__] that creates and ties the token
    embedding and the two vocabulary heads (lines 41-63), from their initial
    weights. The other parameters are created in the same way and are never
    rebound. *)
Definition __init__ (tie_weights : bool) (w_embedding w_lm w_mlm : list (list R))
    (σ : gmap loc (list (list R)))
  : gmap string loc * gmap loc (list (list R)) :=
  let '(l_embedding, σ) := alloc w_embedding σ in
  let '(l_lm, σ) := alloc w_lm σ in
  let '(l_mlm, σ) := alloc w_mlm σ in
  let self : gmap string loc :=
    <["mlm_head.weight" := l_mlm]>
      (<["lm_head.weight" := l_lm]> {[ "token_embedding.weight" := l_embedding ]}) in
  let self :=
    if tie_weights then
      let self := match self !! "lm_head.weight" with
                  | Some l => <["token_embedding.weight" := l]> self
                  | None => self
                  end in
      match self !! "lm_head.weight" with
      | Some l => <["mlm_head.weight" := l]> self
      | None => self
      end
    else self in
  (self, σ).





End Tying.

(** ** What [estimate_loss] has looked at when it returns *)

Module Scores.

Import Training.
Local Open Scope R_scope.

(** The losses of the [eval_iters] batches of a split, in the order of the
    loop of lines 169-175. *)
Definition batch_losses (self : Trainer) (env : Collaborators) (split : string)
  : list R :=
  unsupervised_loss env split <$> seq 0 (Z.to_nat (eval_iters self)).

(** The validity judgements of all samples generated for a split, in the
    order of the loop of lines 179-183. *)
Definition judged (self : Trainer) (env : Collaborators) (split : string)
  : list bool :=
  concat (valid_samples env split <$> seq 0 (Z.to_nat (eval_iters self))).

(** The fraction of the judgements that are [True]. *)
Definition valid_fraction (valid : list bool) : R :=
  IZR (count_true valid) / IZR (Z.of_nat (length valid)).

End Scores.

(** ** hybrid_transformer/trainers/trainer.py: the set-up of a trainer *)

From stdpp Require Import pretty.

Module Setup.

Local Open Scope Z_scope.

(** The exceptions of the set-up code: those of [exn], a failed look-up in
    a dict and a missing attribute. *)
Inductive setup_exn : Type :=
  | Raised (e : exn)
  | KeyError (key : string)
  | AttributeError (attribute : string).

Inductive outcome (A : Type) : Type :=
  | Returned (a : A)
  | Failed (e : setup_exn).
Arguments Returned {A} a.
Arguments Failed {A} e.

#[global] Instance outcome_ret : MRet outcome := λ A a, Returned a.
#[global] Instance outcome_bind : MBind outcome := λ A B k r,
  match r with
  | Returned a => k a
  | Failed e => Failed e
  end.

(** The object behind [self.model]: the network handed to the trainer, or a
    wrapper around one. [DistributedDataParallel(m, device_ids)] keeps [m]
    as its [module] and has none of [m]'s attributes; the module returned by
    [torch.compile(m)] forwards attribute reads to [m]. *)
Inductive nn_module : Type :=
  | Net (max_seq_len : Z)
  | DDP (module : nn_module) (device_ids : list Z)
  | Compiled (orig_mod : nn_module).

(** [m.max_seq_len] *)
Fixpoint getattr_max_seq_len (m : nn_module) : outcome Z :=
  match m with
  | Net n => Returned n
  | DDP _ _ => Failed (AttributeError "max_seq_len")
  | Compiled m => getattr_max_seq_len m
  end.

(** The attributes of a [Trainer] that the set-up reads or writes. Those
    that the set-up methods create are [None] until then. [manual_seed] is
    the seed handed to [torch.manual_seed]. *)
Record Trainer : Type := mkTrainer {
  ddp_enabled : bool;
  gradient_accumulation_steps : Z;
  batch_size : Z;
  device : string;
  dtype : string;
  compile : bool;
  model : nn_module;
  ddp : option bool;
  ddp_rank : option Z;
  ddp_local_rank : option Z;
  ddp_world_size : option Z;
  master_process : option bool;
  seed_offset : option Z;
  manual_seed : option Z;
  device_type : option string;
  unoptimized_model : option nn_module;
  ckpt : option (gmap string Z)
}.

(** [self.name] for an attribute that a set-up method creates. *)
Definition getattr {A} (name : string) (a : option A) : outcome A :=
  match a with
  | Some a => Returned a
  | None => Failed (AttributeError name)
  end.

(** [os.environ[key]], for a variable that holds an integer. *)
Definition environ_get (environ : gmap string Z) (key : string) : outcome Z :=
  match environ !! key with
  | Some v => Returned v
  | None => Failed (KeyError key)
  end.

(** [int(os.environ.get('RANK', -1)) != -1] *)
Definition ranked (environ : gmap string Z) : bool :=
  negb (default (-1) (environ !! "RANK") =? -1).

(** [Trainer._ddp()], in an environment whose variables hold integers. The
    process group, the device selection and the wrapper are taken to
    succeed. *)
Definition _ddp (environ : gmap string Z) (self : Trainer) : outcome Trainer :=
  let ddp_ := ranked environ in
  self ←
    (if ddp_ && ddp_enabled self then
       rank ← environ_get environ "RANK";
       local_rank ← environ_get environ "LOCAL_RANK";
       world_size ← environ_get environ "WORLD_SIZE";
       if world_size =? 0 then Failed (Raised ZeroDivisionError)
       else if negb (gradient_accumulation_steps self `mod` world_size =? 0)
       then Failed (Raised AssertionError)
       else
         Returned
           {| ddp_enabled := ddp_enabled self;
              gradient_accumulation_steps :=
                gradient_accumulation_steps self `div` world_size;
              batch_size := batch_size self;
              device := "cuda:" +:+ pretty local_rank;
              dtype := dtype self;
              compile := compile self;
              model := DDP (model self) [local_rank];
              ddp := Some ddp_;
              ddp_rank := Some rank;
              ddp_local_rank := Some local_rank;
              ddp_world_size := Some world_size;
              master_process := Some (rank =? 0);
              seed_offset := Some rank;
              manual_seed := manual_seed self;
              device_type := device_type self;
              unoptimized_model := unoptimized_model self;
              ckpt := ckpt self |}
     else
       Returned
         {| ddp_enabled := ddp_enabled self;
            gradient_accumulation_steps := gradient_accumulation_steps self;
            batch_size := batch_size self;
            device := device self;
            dtype := dtype self;
            compile := compile self;
            model := model self;
            ddp := Some ddp_;
            ddp_rank := ddp_rank self;
            ddp_local_rank := ddp_local_rank self;
            ddp_world_size := Some 1;
            master_process := Some true;
            seed_offset := Some 0;
            manual_seed := manual_seed self;
            device_type := device_type self;
            unoptimized_model := unoptimized_model self;
            ckpt := ckpt self |});
  world_size ← getattr "ddp_world_size" (ddp_world_size self);
  max_seq_len ← getattr_max_seq_len (model self);
  let tokens_per_iter :=
    gradient_accumulation_steps self * world_size * batch_size self * max_seq_len in
  Returned self.

(** ['cuda' in device] *)
Definition contains (sub s : string) : bool :=
  match String.index 0 sub s with
  | Some _ => true
  | None => false
  end.

(** [Trainer._post_init()]; the creation of the output directory is taken
    to succeed. *)
Definition _post_init (self : Trainer) : outcome Trainer :=
  master ← getattr "master_process" (master_process self);
  offset ← getattr "seed_offset" (seed_offset self);
  let device_type_ := if contains "cuda" (device self) then "cuda" else "cpu" in
  if bool_decide (dtype self ∈ ["float32"; "bfloat16"; "float16"]) then
    Returned
      {| ddp_enabled := ddp_enabled self;
         gradient_accumulation_steps := gradient_accumulation_steps self;
         batch_size := batch_size self;
         device := device self;
         dtype := dtype self;
         compile := compile self;
         model := model self;
         ddp := ddp self;
         ddp_rank := ddp_rank self;
         ddp_local_rank := ddp_local_rank self;
         ddp_world_size := ddp_world_size self;
         master_process := master_process self;
         seed_offset := seed_offset self;
         manual_seed := Some (1337 + offset);
         device_type := Some device_type_;
         unoptimized_model := unoptimized_model self;
         ckpt := ckpt self |}
  else Failed (KeyError (dtype self)).

(** [Trainer._post_init_model()]. [self.model.to(self.device)] moves the
    module in place; the result of [torch.compile] is bound to the local
    name [model] and to nothing else. *)
Definition _post_init_model (self : Trainer) : outcome Trainer :=
  let unoptimized := if compile self then Some (model self)
                     else unoptimized_model self in
  let compiled := if compile self then Some (Compiled (model self)) else None in
  ddp_ ← getattr "ddp" (ddp self);
  wrapped ← (if ddp_ && ddp_enabled self then
               local_rank ← getattr "ddp_local_rank" (ddp_local_rank self);
               Returned (DDP (model self) [local_rank])
             else Returned (model self));
  Returned
    {| ddp_enabled := ddp_enabled self;
       gradient_accumulation_steps := gradient_accumulation_steps self;
       batch_size := batch_size self;
       device := device self;
       dtype := dtype self;
       compile := compile self;
       model := wrapped;
       ddp := ddp self;
       ddp_rank := ddp_rank self;
       ddp_local_rank := ddp_local_rank self;
       ddp_world_size := ddp_world_size self;
       master_process := master_process self;
       seed_offset := seed_offset self;
       manual_seed := manual_seed self;
       device_type := device_type self;
       unoptimized_model := unoptimized;
       ckpt := ckpt self |}.

(** [Trainer._init_ckpt()]: iteration 0 and a best validation loss of 1e9. *)
Definition _init_ckpt (self : Trainer) : Trainer :=
  {| ddp_enabled := ddp_enabled self;
     gradient_accumulation_steps := gradient_accumulation_steps self;
     batch_size := batch_size self;
     device := device self;
     dtype := dtype self;
     compile := compile self;
     model := model self;
     ddp := ddp self;
     ddp_rank := ddp_rank self;
     ddp_local_rank := ddp_local_rank self;
     ddp_world_size := ddp_world_size self;
     master_process := master_process self;
     seed_offset := seed_offset self;
     manual_seed := manual_seed self;
     device_type := device_type self;
     unoptimized_model := unoptimized_model self;
     ckpt := Some {[ "iter_num" := 0; "best_val_loss" := 1000000000 ]} |}.

(** Lines 65-68 of [Trainer.__init__], from the attributes that lines 20-63
    have copied from the configuration. *)
Definition set_up (environ : gmap string Z) (self : Trainer) : outcome Trainer :=
  self ← _ddp environ self;
  self ← _post_init self;
  self ← _post_init_model self;
  Returned (_init_ckpt self).

(** The attributes after lines 20-63. *)
Definition configured (ddp_enabled : bool) (gradient_accumulation_steps batch_size : Z)
    (device dtype : string) (compile : bool) (model : nn_module) : Trainer :=
  {| ddp_enabled := ddp_enabled;
     gradient_accumulation_steps := gradient_accumulation_steps;
     batch_size := batch_size;
     device := device;
     dtype := dtype;
     compile := compile;
     model := model;
     ddp := None;
     ddp_rank := None;
     ddp_local_rank := None;
     ddp_world_size := None;
     master_process := None;
     seed_offset := None;
     manual_seed := None;
     device_type := None;
     unoptimized_model := None;
     ckpt := None |}.

(** The environment of the second of two processes started by a launcher,
    and a configuration that asks for distributed training. *)
Definition sample_environ : gmap string Z :=
  {[ "RANK" := 1; "LOCAL_RANK" := 1; "WORLD_SIZE" := 2 ]}.

Definition sample_configured : Trainer :=
  configured true 4 8 "cuda" "float16" true (Net 128).

Definition is_returned {A} (r : outcome A) : Prop := ∃ a, r = Returned a.

End Setup.

(** ** jointformer/utils/chemistry.py *)

Module Chemistry.

(** The functions of RDKit that the module calls, and [remove_duplicates]
    of jointformer/utils/data.py, which is not among the sources. *)
Record Toolkit : Type := mkToolkit {
  Mol : Type;
  MolFromSmiles : string → option Mol;
  GetNumAtoms : Mol → Z;
  MolToSmiles : Mol → bool → string;
  SanitizeMol : Mol → result Mol;
  remove_duplicates : list string → list string
}.

Section Chem.

Context (Chem : Toolkit).

(** [is_valid(smiles)] *)
Definition is_valid (smiles : string) : bool :=
  let mol := MolFromSmiles Chem smiles in
  negb (String.eqb smiles "") &&
  match mol with
  | Some mol => (GetNumAtoms Chem mol >? 0)%Z
  | None => false
  end.

(** [canonicalize(smiles, include_stereocenters)] *)
Definition canonicalize (smiles : string) (include_stereocenters : bool)
  : option string :=
  let mol := MolFromSmiles Chem smiles in
  match mol with
  | Some mol => Some (MolToSmiles Chem mol include_stereocenters)
  | None => None
  end.

(** [canonicalize_list(smiles_list, include_stereocenters)] *)
Definition canonicalize_list (smiles_list : list string)
    (include_stereocenters : bool) : list string :=
  let canonicalized_smiles : list (option string) :=
    (λ smiles, canonicalize smiles include_stereocenters) <$> smiles_list in
  let canonicalized_smiles := omap (λ s : option string, s) canonicalized_smiles in
  remove_duplicates Chem canonicalized_smiles.

(** [smiles_to_rdkit_mol(smiles)]: a ValueError of the sanitization is
    caught, any other exception propagates. *)
Definition smiles_to_rdkit_mol (smiles : string) : result (option (Mol Chem)) :=
  let mol := MolFromSmiles Chem smiles in
  match mol with
  | Some mol =>
      match SanitizeMol Chem mol with
      | Ok mol => Ok (Some mol)
      | Err ValueError => Ok None
      | Err e => Err e
      end
  | None => Ok None
  end.

End Chem.

(** A toy toolkit: a molecule is its number of atoms, a SMILES string is a
    run of the letter C, and the empty string parses to the empty molecule. *)
Fixpoint carbons (s : string) : option nat :=
  match s with
  | EmptyString => Some 0%nat
  | String c s => if String.eqb (String c EmptyString) "C" then S <$> carbons s else None
  end.

Fixpoint chain (n : nat) : string :=
  match n with
  | O => ""
  | S n => "C" +:+ chain n
  end.

Definition sample_toolkit : Toolkit :=
  {| Mol := nat;
     MolFromSmiles := carbons;
     GetNumAtoms := Z.of_nat;
     MolToSmiles := λ n _, chain n;
     SanitizeMol := λ n, Ok n;
     remove_duplicates := remove_dups |}.

End Chemistry.

(** ** jointformer/models/jointformer.py: the two subclasses *)

Module JointformerWithPrefix.

Import Tensor.

(** [JointformerWithPrefix._get_lm_embeddings]: [embeddings[:, 1:]] goes to
    the method of the base class. *)
Definition _get_lm_embeddings (embeddings : list (list (list R)))
    (next_token_only : bool) : result (list (list (list R))) :=
  Model._get_lm_embeddings (drop 1 <$> embeddings) next_token_only.

End JointformerWithPrefix.

Module JointformerWithMaxEmbeddings.

Import Tensor.
Local Open Scope R_scope.

(** The larger of two values of a tensor that may hold [-inf]. *)
Definition xmax (a b : xreal) : xreal :=
  match a, b with
  | NegInf, _ => b
  | _, NegInf => a
  | Fin x, Fin y => Fin (Rmax x y)
  end.

(** [t.max(dim=0).values] for [t] of shape (T, C): the maximum over the
    positions, column by column; an empty axis cannot be reduced. *)
Definition max_over_positions (t : list (list xreal)) : result (list xreal) :=
  match t with
  | [] => Err IndexError
  | row :: rows => Ok (foldl (zip_with xmax) row rows)
  end.

(** [eb.masked_fill(mb.logical_not(), float("-inf"))] for one batch
    element [eb] of shape (T, C) and its mask [mb] of shape (T), repeated
    along the last axis. *)
Definition hide (eb : list (list R)) (mb : list bool) : list (list xreal) :=
  zip_with (λ (row : list R) (keep : bool),
              (λ a, fill (Fin a) (negb keep)) <$> row) eb mb.

(** [JointformerWithMaxEmbeddings._get_cls_embeddings(embeddings,
    attention_mask)] for [embeddings] of shape (B, T, C) and an optional
    boolean mask of shape (B, T), which is repeated along the last axis and
    broadcast by [masked_fill]. *)
Definition _get_cls_embeddings (embeddings : list (list (list R)))
    (attention_mask : option (list (list bool))) : result (list (list xreal)) :=
  embeddings ←
    match attention_mask with
    | Some attention_mask =>
        attention_mask ← expand (length embeddings) attention_mask;
        mapM (λ '(eb, mb),
                mb ← expand (length eb) mb;
                Ok (hide eb mb))
             (zip embeddings attention_mask)
    | None => Ok (fmap (M:=list) (fmap (M:=list) Fin) <$> embeddings)
    end;
  mapM max_over_positions embeddings.

(** Column [c] of the position [t] of one batch element. *)
Definition entry (eb : list (list R)) (t c : nat) : option R :=
  eb !! t ≫= (.!! c).

(** Two sequences of three positions of width two, and a mask that hides
    the last position of the first. *)
Definition sample_embeddings : list (list (list R)) :=
  [[[1; 5]; [3; 2]; [9; 9]]; [[0; 1]; [4; 0]; [2; 2]]].

Definition sample_mask : list (list bool) :=
  [[true; true; false]; [true; true; true]].

End JointformerWithMaxEmbeddings.

(** ** Positions of a batch *)

Module Outputs.

Import Tensor Model.

(** The entry at position [t] of sequence [b] of a batch. *)
Definition at_position {A} (batch : list (list A)) (b t : nat) : option A :=
  batch !! b ≫= (.!! t).

End Outputs.

(** ** Notions used to describe the sampling distribution *)

Module Support.

Import Generation.
Local Open Scope R_scope.

(** A list in descending order. *)
Fixpoint descending (l : list R) : Prop :=
  match l with
  | [] => True
  | x :: l' => Forall (λ y, y <= x) l' ∧ descending l'
  end.

(** The number of entries of [l] that are strictly larger than [x]. *)
Definition larger (x : R) (l : list R) : nat :=
  length (filter (λ y, x < y) l).

(** A token that is the pad token or an index into a vocabulary of [V]
    tokens. *)
Definition in_vocabulary (V : nat) (pad_token_id : Z) (t : Z) : Prop :=
  t = pad_token_id ∨ (0 ≤ t < Z.of_nat V)%Z.

End Support.

(** ** Views of the attention layer's intermediate tensors *)

Module Heads.

Import Tensor Attention.
Local Open Scope R_scope.

(** The queries, keys and values of head [h] of one batch element, cut from
    the fused projection [qkv] of shape (T, 3C): the entries that [heads_of]
    pairs with [h]. *)
Definition q_of (self : HybridSelfAttention) (qkv : list (list R)) (h : nat)
  : list (list R) :=
  (λ row : list R, take (head_size self) (drop (h * head_size self) row))
    <$> (take (embed_dim self) <$> qkv).

Definition k_of (self : HybridSelfAttention) (qkv : list (list R)) (h : nat)
  : list (list R) :=
  (λ row : list R, take (head_size self) (drop (h * head_size self) row))
    <$> ((λ row : list R, take (embed_dim self) (drop (embed_dim self) row)) <$> qkv).

Definition v_of (self : HybridSelfAttention) (qkv : list (list R)) (h : nat)
  : list (list R) :=
  (λ row : list R, take (head_size self) (drop (h * head_size self) row))
    <$> ((λ row : list R, take (embed_dim self) (drop (2 * embed_dim self) row))
           <$> qkv).

(** One row of [a @ v]: the sum of the rows of [v] weighted by [ai]. *)
Definition weighted_sum (k : nat) (ai : list R) (v : list (list R)) : list R :=
  foldr (zip_with Rplus) (replicate k 0)
    (zip_with (λ w (vj : list R), Rmult w <$> vj) ai v).

(** Row [i] of a matrix after [dropout]. *)
Definition dropout_row (p : R) (training : bool) (keep : nat → nat → bool)
    (i : nat) (row : list R) : list R :=
  if training then imap (λ j a, if keep i j then a / (1 - p) else 0) row else row.

(** Row [i] of the output of a head under task 'lm', computed from the
    query at position [i] and from the keys and values of the positions up to
    [i] alone. *)
Definition causal_row (self : HybridSelfAttention) (scale : R)
    (keep : nat → nat → bool) (i : nat) (qi : list R) (ks vs : list (list R))
  : list R :=
  weighted_sum (head_size self)
    (dropout_row (dropout_p self) (training self) keep i
       (softmax ((λ kj : list R, Fin (dot qi kj * scale)) <$> ks)))
    vs.

(** A tensor of shape (B, H, T, T). *)
Definition has_shape4 {A} (B H T : nat) (m : list (list (list (list A)))) : Prop :=
  length m = B ∧
  Forall (λ mb, length mb = H ∧
                Forall (λ mh : list (list A),
                          length mh = T ∧ Forall (λ r, length r = T) mh) mb) m.

(** A mask for the sample batch that hides the second position from the
    first, and the sample batch with a third position appended. *)
Definition sample_mask4 : list (list (list (list bool))) :=
  [[[[true; false]; [true; true]]]].

Definition sample_longer_input : list (list (list R)) :=
  [[[1; 0]; [0; 1]; [1; 1]]].

(** The sample layer with a causal buffer for a single position. *)
Definition sample_attention_short : HybridSelfAttention :=
  {| qkv_proj := qkv_proj sample_attention;
     out_proj := out_proj sample_attention;
     num_heads := 1;
     embed_dim := 2;
     dropout_p := 0;
     block_size := 1;
     flash := false;
     training := false |}.

End Heads.

(** ** jointformer/models/jointformer.py: the methods looked up on [self] *)

Module Classes.

Import Tensor Model.
Local Open Scope R_scope.

(** [forward] calls [self._get_cls_embeddings(outputs['embeddings'],
    attention_mask=attention_mask)] and [self._get_lm_embeddings(
    outputs['embeddings'], next_token_only)] (lines 96-97), so the class of
    the instance decides which bodies run. A class is given by these two
    methods, by the type [S] of the summary that the first returns, and by
    how a prediction head of the instance acts on such a summary. *)
Record Class (S : Type) : Type := mkClass {
  get_cls_embeddings :
    list (list (list R)) → option (list (list bool)) → result S;
  get_lm_embeddings :
    list (list (list R)) → bool → result (list (list (list R)));
  call_head : (list (list R) → list (list R)) → S → list (list R)
}.

Arguments get_cls_embeddings {S} _ _ _.
Arguments get_lm_embeddings {S} _ _ _.
Arguments call_head {S} _ _ _.

(** [Jointformer]: the static methods of lines 69-75; the first ignores its
    keyword arguments. *)
Definition class_Jointformer : Class (list (list R)) :=
  {| get_cls_embeddings := λ embeddings _, Model._get_cls_embeddings embeddings;
     get_lm_embeddings := Model._get_lm_embeddings;
     call_head := λ head cls, head cls |}.

(** [JointformerWithPrefix(Jointformer)] overrides [_get_lm_embeddings]. *)
Definition class_JointformerWithPrefix : Class (list (list R)) :=
  {| get_cls_embeddings := λ embeddings _, Model._get_cls_embeddings embeddings;
     get_lm_embeddings := JointformerWithPrefix._get_lm_embeddings;
     call_head := λ head cls, head cls |}.

(** [JointformerWithMaxEmbeddings(Jointformer)] overrides
    [_get_cls_embeddings]; its summary may hold [-inf]. The prediction
    heads are not among the sources: [on_summary] is how one of them acts on
    such a summary, taken as given. *)
Definition class_JointformerWithMaxEmbeddings
    (on_summary : (list (list R) → list (list R)) → list (list xreal)
                  → list (list R))
  : Class (list (list xreal)) :=
  {| get_cls_embeddings := JointformerWithMaxEmbeddings._get_cls_embeddings;
     get_lm_embeddings := Model._get_lm_embeddings;
     call_head := on_summary |}.

(** [ModelOutput], for a summary of type [S]. *)
Record Output (S : Type) : Type := mkOutput {
  attention_mask : option (list (list bool));
  embeddings : list (list (list R));
  cls_embeddings : S;
  lm_embeddings : list (list (list R));
  logits_generation : option (list (list (list R)));
  logits_physchem : option (list (list R));
  logits_prediction : option (list (list R));
  layer_embeddings : option (list (list (list (list R))));
  loss : option R
}.

Arguments mkOutput {S} _ _ _ _ _ _ _ _ _.
Arguments attention_mask {S} _.
Arguments embeddings {S} _.
Arguments cls_embeddings {S} _.
Arguments lm_embeddings {S} _.
Arguments logits_generation {S} _.
Arguments logits_physchem {S} _.
Arguments logits_prediction {S} _.
Arguments layer_embeddings {S} _.
Arguments loss {S} _.

(** [outputs["loss"] = v] *)
Definition set_loss {S} (o : Output S) (v : R) : Output S :=
  {| attention_mask := attention_mask o;
     embeddings := embeddings o;
     cls_embeddings := cls_embeddings o;
     lm_embeddings := lm_embeddings o;
     logits_generation := logits_generation o;
     logits_physchem := logits_physchem o;
     logits_prediction := logits_prediction o;
     layer_embeddings := layer_embeddings o;
     loss := Some v |}.

(** [o] with another value in its [attention_mask] field. *)
Definition with_attention_mask {S} (o : Output S)
    (mask : option (list (list bool))) : Output S :=
  {| attention_mask := mask;
     embeddings := embeddings o;
     cls_embeddings := cls_embeddings o;
     lm_embeddings := lm_embeddings o;
     logits_generation := logits_generation o;
     logits_physchem := logits_physchem o;
     logits_prediction := logits_prediction o;
     layer_embeddings := layer_embeddings o;
     loss := loss o |}.

(** The output of an instance of [Jointformer] itself. *)
Definition of_ModelOutput (o : ModelOutput) : Output (list (list R)) :=
  {| attention_mask := Model.attention_mask o;
     embeddings := Model.embeddings o;
     cls_embeddings := Model.cls_embeddings o;
     lm_embeddings := Model.lm_embeddings o;
     logits_generation := Model.logits_generation o;
     logits_physchem := Model.logits_physchem o;
     logits_prediction := Model.logits_prediction o;
     layer_embeddings := Model.layer_embeddings o;
     loss := Model.loss o |}.

(** [Jointformer.forward(input_ids, task, attention_mask, next_token_only)]
    on an instance of class [cls] (lines 77-117). The caller's
    [attention_mask] goes to [_get_cls_embeddings] on both routes, the
    routed [_attention_mask] to the transformer body. *)
Definition forward {S} (cls : Class S) (self : Jointformer)
    (input_ids : list (list Z)) (task : string)
    (attention_mask : option (list (list bool))) (next_token_only : bool)
  : result (Output S) :=
  '(_is_causal, _attention_mask) ← route task attention_mask;
  outputs ← transformer_forward self input_ids _attention_mask _is_causal;
  cls_embeddings ← get_cls_embeddings cls (body_embeddings outputs) attention_mask;
  lm_embeddings ← get_lm_embeddings cls (body_embeddings outputs) next_token_only;
  if _is_causal : bool then
    lg ← linear3 (lm_head self) lm_embeddings;
    Ok {| attention_mask := attention_mask;
          embeddings := body_embeddings outputs;
          cls_embeddings := cls_embeddings;
          lm_embeddings := lm_embeddings;
          logits_generation := Some lg;
          logits_physchem := None;
          logits_prediction := None;
          layer_embeddings := body_layer_embeddings outputs;
          loss := None |}
  else
    Ok {| attention_mask := attention_mask;
          embeddings := body_embeddings outputs;
          cls_embeddings := cls_embeddings;
          lm_embeddings := lm_embeddings;
          logits_generation := None;
          logits_physchem :=
            Some (call_head cls (physchem_head self) cls_embeddings);
          logits_prediction :=
            Some (call_head cls (prediction_head self) cls_embeddings);
          layer_embeddings := body_layer_embeddings outputs;
          loss := None |}.

(** [Jointformer.get_loss_lm] on an instance of class [cls] (lines
    141-152): [self(...)] is [forward] above. *)
Definition get_loss_lm {S} (cls : Class S) (F : Externals) (self : Jointformer)
    (input_ids : list (list Z)) (attention_mask : option (list (list bool)))
    (input_labels : option (list (list Z))) : result (Output S) :=
  forward cls self input_ids "generation" attention_mask false
  ≫= λ outputs : Output S,
  match input_labels with
  | Some input_labels =>
      subscript (logits_generation outputs)
      ≫= λ lg : list (list (list R)),
      let logits := (λ tb : list (list R), take (length tb - 1) tb) <$> lg in
      let labels : list (list Z) := tail <$> input_labels in
      Ok (set_loss outputs
            (cross_entropy F (concat logits) (concat labels) (TOKEN_DICT_ignore F)))
  | None => Ok outputs
  end.

(** Masks for the batch [sample_ids]: one that keeps every position, one
    that hides the last position of the first sequence, and one with a row
    too many. *)
Definition sample_mask_all : list (list bool) :=
  [[true; true; true; true]; [true; true; true; true]].

Definition sample_mask_padded : list (list bool) :=
  [[true; true; true; false]; [true; true; true; true]].

Definition sample_mask_misshaped : list (list bool) :=
  [[true; true; true; true]; [true; true; true; true]; [true; true; true; true]].

End Classes.
(** ** The error monad and lists *)

Module ResultFacts.

Lemma bind_Ok {A B} (r : result A) (k : A → result B) (b : B) :
  r ≫= k = Ok b ↔ ∃ a, r = Ok a ∧ k a = Ok b.
Proof.
  destruct r as [a | e]; simpl; split.
  - intros H. by exists a.
  - by intros (a' & [= <-] & H).
  - intros H. discriminate H.
  - by intros (a' & H & _).
Qed.

Lemma bind_of_Ok {A B} (a : A) (k : A → result B) : Ok a ≫= k = k a.
Proof. reflexivity. Qed.

Lemma mapM_nil {A B} (f : A → result B) : mapM f [] = Ok [].
Proof. reflexivity. Qed.

Lemma mapM_cons {A B} (f : A → result B) x l :
  mapM f (x :: l) = y ← f x; k ← mapM f l; Ok (y :: k).
Proof. reflexivity. Qed.

Lemma mapM_Ok {A B} (f : A → result B) (l : list A) (k : list B) :
  mapM f l = Ok k ↔ Forall2 (λ x y, f x = Ok y) l k.
Proof.
  revert k. induction l as [| x l IH]; intros k.
  - rewrite mapM_nil. split.
    + intros [= <-]. constructor.
    + intros H. by inversion H.
  - rewrite mapM_cons. split.
    + intros (y & Hy & (k' & Hk' & [= <-])%bind_Ok)%bind_Ok.
      constructor; [done | by apply IH].
    + intros H. inversion H as [| ? y ? k' Hy Hk']; subst.
      rewrite Hy. simpl. apply IH in Hk'. by rewrite Hk'.
Qed.

Lemma mapM_ext_in {A B} (f g : A → result B) (l : list A) :
  (∀ x, x ∈ l → f x = g x) → mapM f l = mapM g l.
Proof.
  induction l as [| x l IH]; intros Hfg; [done |].
  rewrite !mapM_cons, Hfg by left.
  rewrite IH; [done |]. intros y Hy. apply Hfg. by right.
Qed.

Lemma mapM_total {A B} (f : A → result B) (l : list A) :
  Forall (λ x, is_ok (f x)) l → is_ok (mapM f l).
Proof.
  induction 1 as [| x l [y Hy] _ [k Hk]].
  - by exists [].
  - exists (y :: k). by rewrite mapM_cons, Hy, Hk.
Qed.

Lemma mapM_Ok_length {A B} (f : A → result B) l k :
  mapM f l = Ok k → length k = length l.
Proof. intros H%mapM_Ok. symmetry. by eapply Forall2_length. Qed.

Lemma mapM_Ok_id {A} (f : A → result A) (l : list A) :
  Forall (λ x, f x = Ok x) l → mapM f l = Ok l.
Proof.
  intros H. apply mapM_Ok. induction H; constructor; done.
Qed.

Lemma mapM_Ok_fmap {A B} (f : A → result B) (g : A → B) (l : list A) :
  (∀ x, x ∈ l → f x = Ok (g x)) → mapM f l = Ok (g <$> l).
Proof.
  induction l as [| x l IH]; intros Hfg; [done |].
  rewrite mapM_cons, Hfg by left. simpl.
  rewrite IH; [done |]. intros y Hy. apply Hfg. by right.
Qed.

Lemma lookup_zip_seq {A} (l : list A) (s i : nat) (a : A) :
  l !! i = Some a → zip (seq s (length l)) l !! i = Some ((s + i)%nat, a).
Proof.
  intros Hi. rewrite lookup_zip_with, lookup_seq_lt, Hi; [done |].
  by eapply lookup_lt_Some.
Qed.

Lemma length_zip_seq {A} (l : list A) (s : nat) :
  length (zip (seq s (length l)) l) = length l.
Proof. rewrite length_zip, length_seq. lia. Qed.

Lemma elem_of_zip_seq {A} (l : list A) (i : nat) (a : A) :
  (i, a) ∈ zip (seq 0 (length l)) l → l !! i = Some a.
Proof.
  intros (n & Hn)%list_elem_of_lookup_1.
  rewrite lookup_zip_with in Hn.
  destruct (seq 0 (length l) !! n) as [i' |] eqn:Hseq; [| done].
  destruct (l !! n) as [a' |] eqn:Hl; [| done].
  simpl in Hn. injection Hn as <- <-.
  apply lookup_seq in Hseq as [-> _]. done.
Qed.

(** [imapM f l] returns [k] iff [k] lists the results of [f] position by
    position. *)
Lemma imapM_Ok {A B} (f : nat → A → result B) (l : list A) (k : list B) :
  imapM f l = Ok k ↔
  length k = length l ∧ ∀ i a, l !! i = Some a → ∃ r, k !! i = Some r ∧ f i a = Ok r.
Proof.
  unfold imapM. rewrite mapM_Ok. split.
  - intros HF. pose proof (Forall2_length _ _ _ HF) as Hlen.
    rewrite length_zip_seq in Hlen. split; [done |].
    intros i a Hi.
    destruct (Forall2_lookup_l _ _ _ i _ HF (lookup_zip_seq l 0 i a Hi))
      as (r & Hr & Hf).
    by exists r.
  - intros [Hlen Hk]. apply Forall2_same_length_lookup_2.
    + by rewrite length_zip_seq.
    + intros i [j a] r Hz Hr.
      assert (l !! i = Some a ∧ j = i) as [Hl ->].
      { rewrite lookup_zip_with in Hz.
        destruct (seq 0 (length l) !! i) as [i' |] eqn:Hseq; [| done].
        destruct (l !! i) as [a' |]; [| done].
        simpl in Hz. injection Hz as <- <-.
        apply lookup_seq in Hseq as [-> _]. done. }
      destruct (Hk i a Hl) as (r' & Hr' & Hf). congruence.
Qed.

Lemma imapM_ext {A B} (f g : nat → A → result B) (l : list A) :
  (∀ i a, l !! i = Some a → f i a = g i a) → imapM f l = imapM g l.
Proof.
  intros Hfg. unfold imapM. apply mapM_ext_in.
  intros [i a] Hin%elem_of_zip_seq. by apply Hfg.
Qed.

Lemma imapM_total {A B} (f : nat → A → result B) (l : list A) :
  (∀ i a, l !! i = Some a → is_ok (f i a)) → is_ok (imapM f l).
Proof.
  intros Hf. unfold imapM. apply mapM_total, Forall_forall.
  intros [i a] Hin%elem_of_zip_seq. by apply Hf.
Qed.

Lemma length_concat_uniform {A} (n : nat) (ls : list (list A)) :
  Forall (λ l, length l = n) ls → length (concat ls) = length ls * n.
Proof.
  induction 1 as [| l ls Hl _ IH]; [done |].
  simpl. rewrite length_app, IH, Hl. lia.
Qed.

End ResultFacts.

(** ** Properties of the learning-rate schedule *)

Module ScheduleFacts.

Import Training.
Local Open Scope R_scope.

(** *** The three branches of the schedule *)

Lemma py_div_ok a b : b ≠ 0 → py_div a b = Ok (a / b).
Proof. intros Hb. unfold py_div. destruct (Req_dec_T b 0); [contradiction | reflexivity]. Qed.

Lemma get_lr_at_warmup self x :
  warmup_iters self ≠ 0%Z → x < IZR (warmup_iters self) →
  get_lr_at self x = Ok (learning_rate self * x / IZR (warmup_iters self)).
Proof.
  intros Hw Hx. unfold get_lr_at.
  destruct (Rlt_dec _ _) as [_ | Hn]; [| contradiction].
  apply py_div_ok. intros H0. apply eq_IZR_R0 in H0. contradiction.
Qed.

Lemma get_lr_at_floor self x :
  IZR (warmup_iters self) <= x → IZR (lr_decay_iters self) < x →
  get_lr_at self x = Ok (min_lr self).
Proof.
  intros Hw Hd. unfold get_lr_at.
  destruct (Rlt_dec _ _) as [Hlt | _]; [lra |].
  destruct (Rgt_dec _ _) as [_ | Hn]; [reflexivity | lra].
Qed.

Lemma decay_ratio_bounds w d x :
  w < d → w <= x <= d → 0 <= (x - w) / (d - w) <= 1.
Proof.
  intros Hwd [Hwx Hxd]. split.
  - apply Rmult_le_pos; [lra |]. left. apply Rinv_0_lt_compat. lra.
  - apply (Rmult_le_reg_r (d - w)); [lra |].
    unfold Rdiv. rewrite Rmult_assoc, Rinv_l by lra. lra.
Qed.

Lemma get_lr_at_decay self x :
  (warmup_iters self < lr_decay_iters self)%Z →
  IZR (warmup_iters self) <= x <= IZR (lr_decay_iters self) →
  get_lr_at self x = Ok (cosine_branch self x).
Proof.
  intros Hwd Hx. apply IZR_lt in Hwd.
  pose proof (decay_ratio_bounds _ _ _ Hwd Hx) as [H0 H1].
  unfold get_lr_at.
  destruct (Rlt_dec _ _) as [Hlt | _]; [lra |].
  destruct (Rgt_dec _ _) as [Hgt | _]; [lra |].
  rewrite py_div_ok by lra. simpl.
  destruct (Rle_dec 0 _) as [_ | Hn]; [| contradiction].
  destruct (Rle_dec _ 1) as [_ | Hn]; [| contradiction].
  reflexivity.
Qed.

(** Under the configuration's preconditions the schedule never raises. *)
Lemma get_lr_at_total self x :
  well_configured self → get_lr_at self x = Ok (lr_curve self x).
Proof.
  intros [[Hw Hwd] _]. unfold lr_curve.
  destruct (Rlt_dec x (IZR (warmup_iters self))) as [Hlt | Hge].
  - rewrite get_lr_at_warmup by (lia || lra). reflexivity.
  - destruct (Rgt_dec x (IZR (lr_decay_iters self))) as [Hgt | Hle].
    + rewrite get_lr_at_floor by lra. reflexivity.
    + rewrite get_lr_at_decay by (lia || lra). reflexivity.
Qed.

Lemma cosine_branch_start self :
  (warmup_iters self < lr_decay_iters self)%Z →
  cosine_branch self (IZR (warmup_iters self)) = learning_rate self.
Proof.
  intros Hwd. apply IZR_lt in Hwd. unfold cosine_branch.
  replace (PI * _) with 0.
  - rewrite cos_0. lra.
  - unfold Rdiv. rewrite Rminus_diag. lra.
Qed.

Lemma cosine_branch_end self :
  (warmup_iters self < lr_decay_iters self)%Z →
  cosine_branch self (IZR (lr_decay_iters self)) = min_lr self.
Proof.
  intros Hwd. apply IZR_lt in Hwd. unfold cosine_branch.
  replace (PI * _) with PI.
  - rewrite cos_PI. lra.
  - unfold Rdiv. rewrite Rinv_r by lra. lra.
Qed.

Lemma cosine_branch_antitone self x y :
  (warmup_iters self < lr_decay_iters self)%Z →
  min_lr self <= learning_rate self →
  IZR (warmup_iters self) <= x → x <= y → y <= IZR (lr_decay_iters self) →
  cosine_branch self y <= cosine_branch self x.
Proof.
  intros Hwd Hmin Hx Hxy Hy. apply IZR_lt in Hwd.
  set (w := IZR (warmup_iters self)) in *.
  set (d := IZR (lr_decay_iters self)) in *.
  assert (Hrx : 0 <= (x - w) / (d - w) <= 1) by (apply decay_ratio_bounds; lra).
  assert (Hry : 0 <= (y - w) / (d - w) <= 1) by (apply decay_ratio_bounds; lra).
  assert (Hr : (x - w) / (d - w) <= (y - w) / (d - w)).
  { apply Rmult_le_compat_r; [| lra]. left. apply Rinv_0_lt_compat. lra. }
  pose proof PI_RGT_0 as Hpi.
  assert (Hcos : cos (PI * ((y - w) / (d - w))) <= cos (PI * ((x - w) / (d - w)))).
  { apply cos_decr_1; nra. }
  unfold cosine_branch. fold w d. nra.
Qed.

Lemma lr_curve_warmup self x :
  (0 < warmup_iters self)%Z → x < IZR (warmup_iters self) →
  lr_curve self x = learning_rate self * x / IZR (warmup_iters self).
Proof. intros Hw Hx. unfold lr_curve. rewrite get_lr_at_warmup by (lia || lra). reflexivity. Qed.

Lemma lr_curve_decay self x :
  (warmup_iters self < lr_decay_iters self)%Z →
  IZR (warmup_iters self) <= x <= IZR (lr_decay_iters self) →
  lr_curve self x = cosine_branch self x.
Proof. intros Hwd Hx. unfold lr_curve. rewrite get_lr_at_decay by (lia || lra). reflexivity. Qed.

Lemma lr_curve_floor self x :
  (warmup_iters self < lr_decay_iters self)%Z →
  IZR (lr_decay_iters self) <= x → lr_curve self x = min_lr self.
Proof.
  intros Hwd Hx. pose proof (IZR_lt _ _ Hwd) as Hwd'.
  destruct (Req_dec_T x (IZR (lr_decay_iters self))) as [-> | Hne].
  - rewrite lr_curve_decay by (lia || lra). by apply cosine_branch_end.
  - unfold lr_curve. rewrite get_lr_at_floor by lra. reflexivity.
Qed.

Lemma warmup_ramp_monotone (lr w a b : R) :
  0 < w → 0 <= lr → a <= b → lr * a / w <= lr * b / w.
Proof.
  intros Hw Hlr Hab. unfold Rdiv. apply Rmult_le_compat_r.
  - left. by apply Rinv_0_lt_compat.
  - nra.
Qed.

Lemma warmup_ramp_top (lr w : R) : 0 < w → lr * w / w = lr.
Proof. intros Hw. unfold Rdiv. rewrite Rmult_assoc, Rinv_r by lra. lra. Qed.

Lemma lr_curve_boundary self :
  (warmup_iters self < lr_decay_iters self)%Z →
  lr_curve self (IZR (warmup_iters self)) = learning_rate self.
Proof.
  intros Hwd. pose proof (IZR_lt _ _ Hwd).
  rewrite lr_curve_decay by (lia || lra). by apply cosine_branch_start.
Qed.

Lemma lr_curve_monotone_warmup self x y :
  (0 < warmup_iters self < lr_decay_iters self)%Z →
  0 <= learning_rate self →
  x <= y → y <= IZR (warmup_iters self) →
  lr_curve self x <= lr_curve self y.
Proof.
  intros [Hw Hwd] Hlr Hxy Hy.
  pose proof (IZR_lt _ _ Hw) as Hw'.
  destruct (Rlt_dec y (IZR (warmup_iters self))) as [Hyw | Hyw].
  - rewrite !lr_curve_warmup by (lia || lra). by apply warmup_ramp_monotone.
  - assert (y = IZR (warmup_iters self)) as -> by lra.
    rewrite (lr_curve_boundary self) by lia.
    destruct (Rlt_dec x (IZR (warmup_iters self))) as [Hxw | Hxw].
    + rewrite lr_curve_warmup by (lia || lra).
      rewrite <- (warmup_ramp_top (learning_rate self) (IZR (warmup_iters self))) at 2
        by lra.
      apply warmup_ramp_monotone; lra.
    + assert (x = IZR (warmup_iters self)) as -> by lra.
      rewrite lr_curve_boundary by lia. lra.
Qed.

(** Gluing two continuous pieces that agree at the junction. *)
Lemma continuity_pt_glue (f g h : R → R) (a : R) :
  continuity_pt f a → continuity_pt g a → f a = g a →
  (∃ δ, 0 < δ ∧ ∀ x, Rabs (x - a) < δ → h x = if Rlt_dec x a then f x else g x) →
  continuity_pt h a.
Proof.
  intros Hf Hg Hfg (δ & Hδ & Hh) eps Heps.
  destruct (Hf eps Heps) as (d1 & Hd1 & H1).
  destruct (Hg eps Heps) as (d2 & Hd2 & H2).
  exists (Rmin δ (Rmin d1 d2)). split.
  { apply Rmin_pos; [lra | apply Rmin_pos; lra]. }
  intros x [HD Hdist]. simpl in *. unfold R_dist in *.
  assert (Hx1 : Rabs (x - a) < δ).
  { eapply Rlt_le_trans; [exact Hdist | apply Rmin_l]. }
  assert (Hx2 : Rabs (x - a) < d1).
  { eapply Rlt_le_trans; [exact Hdist |].
    eapply Rle_trans; [apply Rmin_r | apply Rmin_l]. }
  assert (Hx3 : Rabs (x - a) < d2).
  { eapply Rlt_le_trans; [exact Hdist |].
    eapply Rle_trans; [apply Rmin_r | apply Rmin_r]. }
  assert (Ha : h a = g a).
  { rewrite Hh by (rewrite Rminus_diag, Rabs_R0; lra).
    destruct (Rlt_dec a a); [lra | reflexivity]. }
  rewrite (Hh x Hx1), Ha.
  destruct (Rlt_dec x a).
  - rewrite <- Hfg. apply H1. split; [exact HD | exact Hx2].
  - apply H2. split; [exact HD | exact Hx3].
Qed.

Lemma cosine_branch_continuous self a : continuity_pt (cosine_branch self) a.
Proof.
  apply derivable_continuous_pt. unfold cosine_branch. reg.
Qed.

Lemma warmup_ramp_continuous self a :
  continuity_pt (λ x, learning_rate self * x / IZR (warmup_iters self)) a.
Proof.
  apply derivable_continuous_pt. reg.
Qed.

Lemma lr_curve_continuous_at_warmup self :
  (0 < warmup_iters self < lr_decay_iters self)%Z →
  continuity_pt (lr_curve self) (IZR (warmup_iters self)).
Proof.
  intros [Hw Hwd].
  pose proof (IZR_lt _ _ Hw) as Hw'. pose proof (IZR_lt _ _ Hwd) as Hwd'.
  apply (continuity_pt_glue
           (λ x, learning_rate self * x / IZR (warmup_iters self))
           (cosine_branch self)).
  - apply warmup_ramp_continuous.
  - apply cosine_branch_continuous.
  - rewrite cosine_branch_start by lia.
    unfold Rdiv. rewrite Rmult_assoc, Rinv_r by lra. lra.
  - exists (IZR (lr_decay_iters self) - IZR (warmup_iters self)). split; [lra |].
    intros x Hx. apply Rabs_def2 in Hx as [Hx1 Hx2].
    destruct (Rlt_dec _ _).
    + apply lr_curve_warmup; [lia | lra].
    + apply lr_curve_decay; [lia | lra].
Qed.

(** *** The schedule on integer iteration indices *)

(** [_get_lr] samples the curve at the integers. *)
Lemma get_lr_on_curve self it : _get_lr self it = get_lr_at self (IZR it).
Proof.
  unfold _get_lr, get_lr_at. rewrite !minus_IZR.
  destruct (Z.ltb_spec it (warmup_iters self)) as [Hlt | Hge];
    destruct (Rlt_dec _ _) as [Hlt' | Hge']; try done.
  - exfalso. apply Hge'. by apply IZR_lt.
  - exfalso. apply lt_IZR in Hlt'. lia.
  - destruct (Z.gtb_spec it (lr_decay_iters self)) as [Hgt | Hle];
      destruct (Rgt_dec _ _) as [Hgt' | Hle']; try done.
    + exfalso. apply Hle'. apply IZR_lt. lia.
    + exfalso. apply lt_IZR in Hgt'. lia.
Qed.

Lemma get_lr_value self it :
  well_configured self → _get_lr self it = Ok (lr_curve self (IZR it)).
Proof. intros Hcfg. rewrite get_lr_on_curve. by apply get_lr_at_total. Qed.

(** C3 as stated fails: the preconditions 0 < warmup_iters < lr_decay_iters
    and min_lr <= learning_rate admit a negative learning_rate, and then the
    warm-up ramp goes down: _get_lr(0) = 0 but _get_lr(1) = -0.5. *)
Lemma get_lr_warmup_not_monotone_when_rate_negative :
  well_configured negative_rate_trainer ∧
  (0 ≤ 0 ≤ 1)%Z ∧ (1 ≤ warmup_iters negative_rate_trainer)%Z ∧
  _get_lr negative_rate_trainer 0 = Ok 0 ∧
  _get_lr negative_rate_trainer 1 = Ok (-0.5) ∧
  ¬ (0 <= -0.5).
Proof.
  split; [| split; [| split; [| split; [| split]]]].
  - split; simpl; [lia | lra].
  - lia.
  - simpl. lia.
  - rewrite get_lr_on_curve, get_lr_at_warmup by (simpl; (lia || lra)).
    simpl. f_equal. lra.
  - rewrite get_lr_on_curve, get_lr_at_warmup by (simpl; (lia || lra)).
    simpl. f_equal. lra.
  - lra.
Qed.

(** C3 (amended): for a configuration with 0 < warmup_iters < lr_decay_iters,
    min_lr <= learning_rate and, additionally, 0 <= learning_rate, the
    scheduler [_get_lr] never raises and is a function of [it] and the
    configuration alone; its value at it = warmup_iters is learning_rate, where
    the warm-up ramp and the cosine branch meet continuously; it is
    non-decreasing on [0, warmup_iters], non-increasing on
    [warmup_iters, lr_decay_iters], and exactly min_lr for it >= lr_decay_iters. *)
Theorem get_lr_schedule_shape (self : Trainer) :
  well_configured self → 0 <= learning_rate self →
  (∀ it, _get_lr self it = Ok (lr_curve self (IZR it))) ∧
  _get_lr self (warmup_iters self) = Ok (learning_rate self) ∧
  continuity_pt (lr_curve self) (IZR (warmup_iters self)) ∧
  (∀ i j vi vj, (0 ≤ i ≤ j)%Z → (j ≤ warmup_iters self)%Z →
     _get_lr self i = Ok vi → _get_lr self j = Ok vj → vi <= vj) ∧
  (∀ i j vi vj, (warmup_iters self ≤ i ≤ j)%Z → (j ≤ lr_decay_iters self)%Z →
     _get_lr self i = Ok vi → _get_lr self j = Ok vj → vj <= vi) ∧
  (∀ it, (lr_decay_iters self ≤ it)%Z → _get_lr self it = Ok (min_lr self)).
Proof.
  intros Hcfg Hlr. pose proof Hcfg as [[Hw Hwd] Hmin].
  split; [| split; [| split; [| split; [| split]]]].
  - intros it. by apply get_lr_value.
  - rewrite get_lr_value by done. f_equal. apply lr_curve_boundary. lia.
  - apply lr_curve_continuous_at_warmup. lia.
  - intros i j vi vj Hij Hj Hi Hj'.
    rewrite get_lr_value in Hi, Hj' by done.
    injection Hi as <-. injection Hj' as <-.
    apply lr_curve_monotone_warmup; [lia | done | apply IZR_le; lia ..].
  - intros i j vi vj Hij Hj Hi Hj'.
    rewrite get_lr_value in Hi, Hj' by done.
    injection Hi as <-. injection Hj' as <-.
    assert (IZR (warmup_iters self) <= IZR i) by (apply IZR_le; lia).
    assert (IZR i <= IZR j) by (apply IZR_le; lia).
    assert (IZR j <= IZR (lr_decay_iters self)) by (apply IZR_le; lia).
    rewrite !lr_curve_decay by (lia || lra).
    by apply cosine_branch_antitone.
  - intros it Hit. rewrite get_lr_value by done. f_equal.
    apply lr_curve_floor; [lia | apply IZR_le; lia].
Qed.

(** The schedule of a trainer with learning_rate = 1, warmup_iters = 2,
    lr_decay_iters = 4 and min_lr = 0.1: the peak at iteration 2 and the floor
    at iteration 7. *)
Lemma get_lr_schedule_shape_witness :
  well_configured sample_trainer ∧ 0 <= learning_rate sample_trainer ∧
  _get_lr sample_trainer 2 = Ok 1 ∧
  _get_lr sample_trainer 7 = Ok 0.1.
Proof.
  assert (Hcfg : well_configured sample_trainer).
  { split; simpl; [lia | lra]. }
  assert (Hlr : 0 <= learning_rate sample_trainer) by (simpl; lra).
  destruct (get_lr_schedule_shape sample_trainer Hcfg Hlr)
    as (_ & Hpeak & _ & _ & _ & Hfloor).
  split; [exact Hcfg | split; [exact Hlr | split]].
  - exact Hpeak.
  - apply Hfloor. simpl. lia.
Defined.

End ScheduleFacts.

(** ** Shapes through a linear layer *)

Module TensorFacts.

Import Tensor ResultFacts.
Local Open Scope R_scope.

Lemma length_linear_row L (x : list R) :
  Linear_wf L → length (linear_row L x) = out_features L.
Proof.
  intros (Hw & _ & Hb). unfold linear_row.
  destruct (bias L) as [bv |].
  - rewrite length_zip_with, length_fmap. lia.
  - by rewrite length_fmap.
Qed.

Lemma linear2_ok L (x : list (list R)) :
  Forall (λ row, length row = in_features L) x →
  linear2 L x = Ok (linear_row L <$> x).
Proof.
  intros Hx. unfold linear2.
  replace (forallb _ x) with true; [done |].
  symmetry. apply forallb_forall. intros row Hrow%list_elem_of_In.
  rewrite Forall_forall in Hx. apply Nat.eqb_eq. by apply Hx.
Qed.

Lemma linear3_ok L (x : list (list (list R))) :
  Forall (Forall (λ row, length row = in_features L)) x →
  linear3 L x = Ok (fmap (M:=list) (linear_row L) <$> x).
Proof.
  intros Hx. unfold linear3. apply mapM_Ok_fmap.
  intros xb Hxb. apply linear2_ok. rewrite Forall_forall in Hx. by apply Hx.
Qed.

Lemma linear3_lengths L (x qkv : list (list (list R))) :
  linear3 L x = Ok qkv →
  length qkv = length x ∧
  ∀ b qb, qkv !! b = Some qb → ∃ xb, x !! b = Some xb ∧ length qb = length xb.
Proof.
  unfold linear3. intros H. pose proof (mapM_Ok_length _ _ _ H) as Hlen.
  apply mapM_Ok in H. split; [done |].
  intros b qb Hqb.
  destruct (Forall2_lookup_r _ _ _ _ _ H Hqb) as (xb & Hxb & Hlin).
  exists xb. split; [done |].
  unfold linear2 in Hlin. destruct (forallb _ xb); [| done].
  injection Hlin as <-. by rewrite length_fmap.
Qed.

End TensorFacts.

(** ** Properties of the attention layer *)

Module AttentionFacts.

Import Tensor Attention ResultFacts TensorFacts.
Local Open Scope R_scope.

(** *** Softmax and masking *)

Lemma softmax_lookup (row : list xreal) (j : nat) (x : xreal) :
  row !! j = Some x →
  softmax row !! j = Some (xexp x / sum (xexp <$> row)).
Proof.
  intros Hj. unfold softmax. by rewrite !list_lookup_fmap, Hj.
Qed.

Lemma softmax_masked (row : list xreal) (j : nat) :
  row !! j = Some NegInf → softmax row !! j = Some 0.
Proof.
  intros Hj. rewrite (softmax_lookup _ _ _ Hj). simpl.
  f_equal. apply Rdiv_0_l.
Qed.

Lemma length_softmax (row : list xreal) : length (softmax row) = length row.
Proof. unfold softmax. by rewrite !length_fmap. Qed.

Lemma expand_exact {A} (n : nat) (l : list A) : length l = n → expand n l = Ok l.
Proof. intros <-. unfold expand. by rewrite Nat.eqb_refl. Qed.

Lemma masked_fill_exact (cols : nat) (t : list (list xreal)) (m : list (list bool)) :
  length m = length t → Forall (λ r, length r = cols) m →
  masked_fill cols t m = Ok (zip_with (zip_with fill) t m).
Proof.
  intros Hlen Hcols. unfold masked_fill.
  rewrite expand_exact by done. simpl.
  rewrite (mapM_Ok_id (expand cols) m); [done |].
  eapply Forall_impl; [exact Hcols |]. intros r Hr. by apply expand_exact.
Qed.

Lemma causal_fill_pattern self (T : nat) :
  (T ≤ block_size self)%nat → causal_fill self T = causal_pattern T.
Proof.
  intros HT. unfold causal_fill, causal_pattern, eq_zero, tril_ones.
  rewrite <- fmap_take, take_seq, Nat.min_l by done.
  rewrite <- !list_fmap_compose. apply list_fmap_ext. intros _ i _. simpl.
  rewrite <- fmap_take, take_seq, Nat.min_l by done.
  rewrite <- list_fmap_compose. apply list_fmap_ext. intros _ j _. simpl.
  destruct (j <=? i)%nat; simpl; destruct (Req_dec_T _ _); (done || lra).
Qed.

Lemma causal_pattern_lookup (T i j : nat) :
  (i < T)%nat → (j < T)%nat →
  causal_pattern T !! i ≫= (.!! j) = Some (negb (j <=? i)%nat).
Proof.
  intros Hi Hj. unfold causal_pattern.
  rewrite list_lookup_fmap, lookup_seq_lt by done. simpl.
  by rewrite list_lookup_fmap, lookup_seq_lt.
Qed.

Lemma causal_pattern_shape (T : nat) :
  length (causal_pattern T) = T ∧ Forall (λ r, length r = T) (causal_pattern T).
Proof.
  unfold causal_pattern. split.
  - by rewrite length_fmap, length_seq.
  - apply Forall_fmap, Forall_forall. intros i _. simpl.
    by rewrite length_fmap, length_seq.
Qed.

Lemma scores_shape scale (q k : list (list R)) :
  length (scores scale q k) = length q ∧
  Forall (λ r, length r = length k) (scores scale q k).
Proof.
  unfold scores. split.
  - by rewrite length_fmap.
  - apply Forall_fmap, Forall_forall. intros qi _. simpl. by rewrite length_fmap.
Qed.

Lemma masked_rows_lookup (t : list (list xreal)) (m : list (list bool)) i row :
  (softmax <$> zip_with (zip_with fill) t m) !! i = Some row →
  ∃ ti mi, t !! i = Some ti ∧ m !! i = Some mi ∧
           row = softmax (zip_with fill ti mi).
Proof.
  rewrite list_lookup_fmap, lookup_zip_with.
  destruct (t !! i) as [ti |]; [| done].
  destruct (m !! i) as [mi |]; [| done].
  simpl. intros [= <-]. by exists ti, mi.
Qed.

Lemma softmax_causal_weights scale (q k : list (list R)) :
  length k = length q →
  causal_weights (length q)
    (softmax <$> zip_with (zip_with fill) (scores scale q k)
                   (causal_pattern (length q))).
Proof.
  intros Hk. set (T := length q).
  destruct (scores_shape scale q k) as [Hs1 Hs2].
  destruct (causal_pattern_shape T) as [Hp1 Hp2].
  split.
  - rewrite length_fmap, length_zip_with. fold T in Hs1. lia.
  - intros i row (ti & mi & Hti & Hmi & ->)%masked_rows_lookup.
    assert (Hlti : length ti = T).
    { rewrite Forall_forall in Hs2. rewrite (Hs2 ti); [done |].
      eapply list_elem_of_lookup_2; eauto. }
    assert (Hlmi : length mi = T).
    { rewrite Forall_forall in Hp2. apply Hp2.
      eapply list_elem_of_lookup_2; eauto. }
    split.
    + rewrite length_softmax, length_zip_with. lia.
    + intros j w Hw Hij.
      assert (Hj : (j < T)%nat).
      { apply lookup_lt_Some in Hw.
        rewrite length_softmax, length_zip_with in Hw. lia. }
      assert (Hi : (i < T)%nat).
      { apply lookup_lt_Some in Hmi. lia. }
      pose proof (causal_pattern_lookup T i j Hi Hj) as Hpat.
      rewrite Hmi in Hpat. simpl in Hpat.
      destruct (lookup_lt_is_Some_2 ti j) as [a Ha]; [lia |].
      assert (Hfill : zip_with fill ti mi !! j = Some NegInf).
      { rewrite lookup_zip_with, Ha, Hpat. simpl.
        replace (j <=? i)%nat with false; [done |].
        symmetry. apply Nat.leb_gt. lia. }
      rewrite (softmax_masked _ _ Hfill) in Hw. by injection Hw as <-.
Qed.

Lemma sqrt_head_size_nonzero self :
  (0 < head_size self)%nat → sqrt (INR (head_size self)) ≠ 0.
Proof.
  intros H. apply Rgt_not_eq, sqrt_lt_R0. by apply lt_0_INR.
Qed.

Lemma length_masked_fill cols (t t' : list (list xreal)) (m : list (list bool)) :
  masked_fill cols t m = Ok t' → length t' = length t.
Proof.
  unfold masked_fill.
  intros (m1 & Hm1 & (m2 & Hm2 & [= <-])%bind_Ok)%bind_Ok.
  apply mapM_Ok_length in Hm2. rewrite length_zip_with, Hm2.
  unfold expand in Hm1. destruct (length m =? length t)%nat eqn:Hlen.
  - injection Hm1 as <-. apply Nat.eqb_eq in Hlen. lia.
  - destruct m as [| a [| ? ?]]; try discriminate Hm1.
    injection Hm1 as <-. rewrite length_replicate. lia.
Qed.

Lemma attention_scale_ok self :
  (0 < head_size self)%nat →
  attention_scale self = Ok (1.0 / sqrt (INR (head_size self))).
Proof.
  intros Hhs. unfold attention_scale.
  destruct (Req_dec_T _ _) as [H0 | _]; [| done].
  by apply sqrt_head_size_nonzero in H0.
Qed.

(** *** One head on the explicit path *)

Lemma explicit_attention_lm self scale keep mask (q k v : list (list R)) :
  (length q ≤ block_size self)%nat →
  explicit_attention self "lm" scale keep mask q k v =
  let att := softmax <$> zip_with (zip_with fill) (scores scale q k)
                           (causal_pattern (length q)) in
  Ok (matmul (head_size self)
        (dropout (dropout_p self) (training self) keep att) v, att).
Proof.
  intros HT. unfold explicit_attention.
  change (String.eqb "lm" "lm") with true. cbv iota.
  rewrite causal_fill_pattern by done.
  destruct (causal_pattern_shape (length q)) as [Hp1 Hp2].
  rewrite masked_fill_exact; [done | | done].
  rewrite Hp1. by destruct (scores_shape scale q k) as [-> _].
Qed.

(** A task tag other than 'lm' and 'mlm' is not rejected here: the scores go
    to the softmax unmasked, as for 'mlm' without a mask. *)
Lemma explicit_attention_other self task scale keep mask (q k v : list (list R)) :
  task ≠ "lm" → task ≠ "mlm" →
  explicit_attention self task scale keep mask q k v =
  let att := softmax <$> scores scale q k in
  Ok (matmul (head_size self)
        (dropout (dropout_p self) (training self) keep att) v, att).
Proof.
  intros Hlm Hmlm. unfold explicit_attention.
  apply String.eqb_neq in Hlm, Hmlm. by rewrite Hlm, Hmlm.
Qed.

(** Whatever the task, a head's output is built from its weights, which
    have one row per query position. *)
Lemma explicit_attention_inv self task scale keep mask (q k v y att : list (list R)) :
  explicit_attention self task scale keep mask q k v = Ok (y, att) →
  y = matmul (head_size self) (dropout (dropout_p self) (training self) keep att) v ∧
  length att = length q.
Proof.
  unfold explicit_attention.
  intros (att' & Hatt' & [= <- <-])%bind_Ok.
  split; [done |]. rewrite length_fmap.
  assert (Hs : length (scores scale q k) = length q) by apply scores_shape.
  destruct (String.eqb task "lm").
  { apply length_masked_fill in Hatt'. lia. }
  destruct (String.eqb task "mlm"); [| injection Hatt' as <-; lia].
  destruct mask as [m |]; [| injection Hatt' as <-; lia].
  apply length_masked_fill in Hatt'. lia.
Qed.

(** Without a mask, every tag except 'lm' behaves as 'mlm' does. *)
Lemma explicit_attention_unmasked self task scale keep (q k v : list (list R)) :
  task ≠ "lm" →
  explicit_attention self task scale keep None q k v =
  explicit_attention self "mlm" scale keep None q k v.
Proof.
  intros Hlm%String.eqb_neq. unfold explicit_attention. rewrite Hlm.
  change (String.eqb "mlm" "lm") with false.
  change (String.eqb "mlm" "mlm") with true. cbv iota.
  by destruct (String.eqb task "mlm").
Qed.

Lemma explicit_attention_lm_mask self scale keep m m' (q k v : list (list R)) :
  explicit_attention self "lm" scale keep m q k v =
  explicit_attention self "lm" scale keep m' q k v.
Proof. reflexivity. Qed.

(** *** Shapes *)

Lemma matmul_shape (k : nat) (a v : list (list R)) :
  Forall (λ r, length r = k) v →
  length (matmul k a v) = length a ∧ Forall (λ r, length r = k) (matmul k a v).
Proof.
  intros Hv. unfold matmul. split; [by rewrite length_fmap |].
  apply Forall_fmap, Forall_forall. intros ai _. simpl.
  assert (Hterms : Forall (λ r : list R, length r = k)
            (zip_with (λ w (vj : list R), Rmult w <$> vj) ai v)).
  { revert ai. induction Hv as [| vj v Hvj _ IH]; intros [| w ai]; simpl;
      try constructor; [by rewrite length_fmap | apply IH]. }
  induction Hterms as [| r rs Hr _ IH]; simpl.
  - by rewrite length_replicate.
  - rewrite length_zip_with. lia.
Qed.

Lemma dropout_shape p tr keep (t : list (list R)) (k : nat) :
  Forall (λ r, length r = k) t →
  length (dropout p tr keep t) = length t ∧
  Forall (λ r, length r = k) (dropout p tr keep t).
Proof.
  intros Ht. unfold dropout. destruct tr; [| done].
  split; [by rewrite length_imap |].
  apply Forall_lookup. intros i r. rewrite list_lookup_imap.
  destruct (t !! i) as [ri |] eqn:Hi; simpl; [| done].
  intros [= <-]. rewrite length_imap.
  rewrite Forall_lookup in Ht. by eapply Ht.
Qed.

Lemma length_dropout p tr keep (t : list (list R)) :
  length (dropout p tr keep t) = length t.
Proof. unfold dropout. destruct tr; [by rewrite length_imap | done]. Qed.

Lemma split_heads_shape self (t : list (list R)) (th : list (list R)) :
  (embed_dim self `mod` num_heads self = 0)%nat →
  Forall (λ r, length r = embed_dim self) t →
  th ∈ split_heads self t →
  length th = length t ∧ Forall (λ r, length r = head_size self) th.
Proof.
  intros Hmod Ht (h & -> & Hh)%list_elem_of_fmap.
  apply elem_of_seq in Hh. split; [by rewrite length_fmap |].
  apply Forall_fmap. eapply Forall_impl; [exact Ht |].
  intros r Hr. simpl. rewrite length_take, length_drop, Hr.
  assert (HE : embed_dim self = (num_heads self * head_size self)%nat).
  { unfold head_size. apply Nat.Div0.div_exact. done. }
  nia.
Qed.

Lemma length_split_heads self (t : list (list R)) :
  length (split_heads self t) = num_heads self.
Proof. unfold split_heads. by rewrite length_fmap, length_seq. Qed.

Lemma merge_heads_shape (T n hs : nat) (ys : list (list (list R))) :
  length ys = n →
  Forall (λ yh, length yh = T ∧ Forall (λ r, length r = hs) yh) ys →
  length (merge_heads T ys) = T ∧
  Forall (λ r, length r = (n * hs)%nat) (merge_heads T ys).
Proof.
  intros Hn Hys. unfold merge_heads. split; [by rewrite length_fmap, length_seq |].
  apply Forall_fmap, Forall_forall. intros t Ht%elem_of_seq. simpl.
  rewrite (length_concat_uniform hs), length_fmap, Hn; [done |].
  apply Forall_fmap. eapply Forall_impl; [exact Hys |].
  intros yh [HyT Hyr]. simpl.
  destruct (lookup_lt_is_Some_2 yh t) as [r Hr]; [lia |].
  rewrite Hr. simpl. rewrite Forall_lookup in Hyr. by eapply Hyr.
Qed.

(** *** The heads of one batch element *)

Section OneElement.

Context (self : HybridSelfAttention) (rng : Draws).

Lemma length_heads_of qkv : length (heads_of self qkv) = num_heads self.
Proof.
  unfold heads_of. rewrite !length_zip, !length_split_heads, length_seq. lia.
Qed.

Lemma heads_of_lengths qkv h qh kh vh :
  (h, (qh, (kh, vh))) ∈ heads_of self qkv →
  length qh = length qkv ∧ length kh = length qkv ∧ length vh = length qkv.
Proof.
  intros Hin. unfold heads_of in Hin.
  apply elem_of_zip_r in Hin.
  pose proof (elem_of_zip_l _ _ _ _ Hin) as (? & -> & _)%list_elem_of_fmap.
  apply elem_of_zip_r in Hin.
  pose proof (elem_of_zip_l _ _ _ _ Hin) as (? & -> & _)%list_elem_of_fmap.
  apply elem_of_zip_r in Hin. apply list_elem_of_fmap in Hin as (? & -> & _).
  by rewrite !length_fmap.
Qed.

Lemma heads_of_value_width qkv h qh kh vh :
  (embed_dim self `mod` num_heads self = 0)%nat →
  Forall (λ r, length r = (3 * embed_dim self)%nat) qkv →
  (h, (qh, (kh, vh))) ∈ heads_of self qkv →
  Forall (λ r, length r = head_size self) vh.
Proof.
  intros Hmod Hqkv Hin. unfold heads_of in Hin.
  do 3 apply elem_of_zip_r in Hin.
  apply split_heads_shape in Hin as [_ Hr]; [done | done |].
  apply Forall_fmap. eapply Forall_impl; [exact Hqkv |].
  intros r Hr. simpl in *. rewrite length_take, length_drop. lia.
Qed.

(** If every head's attention returns, so does the explicit path on the
    whole element, with outputs of shape (nh, T, hs). *)
Lemma attend_explicit_total task scale mask b (qkv : list (list R)) :
  (embed_dim self `mod` num_heads self = 0)%nat →
  Forall (λ r, length r = (3 * embed_dim self)%nat) qkv →
  (∀ h (qh kh vh : list (list R)),
     length qh = length qkv → length kh = length qkv →
     is_ok (explicit_attention self task scale (attn_keep rng b h)
              (mask_at (mask_at mask b) h) qh kh vh)) →
  ∃ ya, attend_explicit self rng task scale mask b qkv = Ok ya ∧
        head_outputs_shape self (length qkv) (fst <$> ya) ∧
        length (snd <$> ya) = num_heads self.
Proof.
  intros Hmod Hqkv Hheads. unfold attend_explicit.
  set (f := λ '(h, (qh, (kh, vh))),
         explicit_attention self task scale (attn_keep rng b h)
           (mask_at (mask_at mask b) h) qh kh vh).
  destruct (mapM_total f (heads_of self qkv)) as [ya Hya].
  { apply Forall_forall. intros [h [qh [kh vh]]] Hin.
    destruct (heads_of_lengths _ _ _ _ _ Hin) as (Hq & Hk & _).
    apply Hheads; lia. }
  exists ya. split; [done |].
  pose proof (mapM_Ok_length _ _ _ Hya) as Hlya. rewrite length_heads_of in Hlya.
  apply mapM_Ok in Hya.
  split; [| by rewrite length_fmap].
  split; [by rewrite length_fmap |].
  apply Forall_fmap. eapply Forall2_Forall_r; [exact Hya |].
  apply Forall_forall. intros [h [qh [kh vh]]] Hin [yh ah] Hf. simpl in *.
  apply explicit_attention_inv in Hf as [-> Hla].
  destruct (heads_of_lengths _ _ _ _ _ Hin) as (Hq & _ & _).
  pose proof (heads_of_value_width _ _ _ _ _ Hmod Hqkv Hin) as Hvw.
  destruct (matmul_shape (head_size self)
              (dropout (dropout_p self) (training self) (attn_keep rng b h) ah)
              vh Hvw) as [Hm1 Hm2].
  split; [| done]. rewrite Hm1, length_dropout. lia.
Qed.

(** Under task 'lm' every head's weights are causal. *)
Lemma attend_explicit_lm_causal scale mask b (qkv : list (list R)) ya :
  (length qkv ≤ block_size self)%nat →
  attend_explicit self rng "lm" scale mask b qkv = Ok ya →
  Forall (causal_weights (length qkv)) (snd <$> ya).
Proof.
  intros HT Hya. unfold attend_explicit in Hya. apply mapM_Ok in Hya.
  apply Forall_fmap. eapply Forall2_Forall_r; [exact Hya |].
  apply Forall_forall. intros [h [qh [kh vh]]] Hin [yh ah] Hf. simpl in *.
  destruct (heads_of_lengths _ _ _ _ _ Hin) as (Hq & Hk & _).
  rewrite explicit_attention_lm in Hf by lia.
  injection Hf as _ <-.
  rewrite <- Hq. apply softmax_causal_weights. lia.
Qed.

Lemma attend_explicit_lm_mask scale m m' b (qkv : list (list R)) :
  attend_explicit self rng "lm" scale m b qkv =
  attend_explicit self rng "lm" scale m' b qkv.
Proof.
  unfold attend_explicit. apply mapM_ext_in. by intros [h [qh [kh vh]]] _.
Qed.

(** Lines 80-81 return, and give back the shape (T, C). *)
Lemma project_out_total b (T : nat) (y : list (list (list R))) :
  constructed self → head_outputs_shape self T y →
  ∃ out, project_out self rng b T y = Ok out ∧
         length out = T ∧ Forall (λ r, length r = embed_dim self) out.
Proof.
  intros (Hnh & Hmod & Hqi & Hqo & Hoi & Hoo & Hqwf & Howf) [Hly Hys].
  unfold project_out.
  destruct (merge_heads_shape T (num_heads self) (head_size self) y)
    as [Hmg1 Hmg2]; [done | done |].
  assert (HE : embed_dim self = (num_heads self * head_size self)%nat).
  { unfold head_size. by apply Nat.Div0.div_exact. }
  rewrite linear2_ok by (by rewrite Hoi, HE). rewrite bind_of_Ok.
  eexists. split; [reflexivity |].
  assert (Hout : Forall (λ r : list R, length r = embed_dim self)
            (linear_row (out_proj self) <$> merge_heads T y)).
  { apply Forall_fmap, Forall_forall. intros r _. simpl.
    by rewrite length_linear_row, Hoo. }
  destruct (dropout_shape (dropout_p self) (training self) (resid_keep rng b)
              _ (embed_dim self) Hout) as [Hd1 Hd2].
  split; [by rewrite Hd1, length_fmap, Hmg1 | done].
Qed.

End OneElement.

(** *** The whole batch *)

Section Batch.

Context (self : HybridSelfAttention) (rng : Draws).

Lemma attend_lm_mask m m' (qkv : list (list (list R))) :
  attend self rng "lm" m qkv = attend self rng "lm" m' qkv.
Proof.
  unfold attend. change (String.eqb "lm" "lm") with true. cbv iota.
  destruct (flash self); [done |].
  destruct (attention_scale self) as [scale | e]; [| done].
  rewrite !bind_of_Ok.
  rewrite (imapM_ext (attend_explicit self rng "lm" scale m)
             (attend_explicit self rng "lm" scale m')); [done |].
  intros b qb _. apply attend_explicit_lm_mask.
Qed.

(** Task 'lm' ignores the mask argument, on the fused and on the explicit
    path. *)
Lemma forward_lm_mask (x : list (list (list R))) m m' :
  forward self rng x "lm" m = forward self rng x "lm" m'.
Proof.
  unfold forward. destruct (linear3 (qkv_proj self) x) as [qkv | e]; [| done].
  rewrite !bind_of_Ok. by rewrite (attend_lm_mask m m').
Qed.

(** On the explicit path, the weights returned under task 'lm' are causal
    in every batch element and every head. *)
Lemma forward_lm_explicit_causal (x : list (list (list R))) (T : nat) mask y oatt :
  flash self = false → (T ≤ block_size self)%nat →
  Forall (λ xb, length xb = T) x →
  forward self rng x "lm" mask = Ok (y, oatt) →
  ∃ att, oatt = Some att ∧ length att = length x ∧
         Forall (Forall (causal_weights T)) att.
Proof.
  intros Hflash HT Hx. unfold forward.
  intros (qkv & Hqkv & ([ys oa] & Hatt & (y' & _ & [= _ <-])%bind_Ok)%bind_Ok)%bind_Ok.
  apply linear3_lengths in Hqkv as [Hlq Hqb].
  unfold attend in Hatt. rewrite Hflash in Hatt.
  apply bind_Ok in Hatt as (scale & _ & (ya & Hya & [= _ <-])%bind_Ok).
  apply imapM_Ok in Hya as [Hlya Hya].
  eexists. split; [reflexivity |]. simpl.
  split; [rewrite length_fmap; lia |].
  apply Forall_fmap, Forall_lookup. intros b r Hr. simpl.
  destruct (lookup_lt_is_Some_2 qkv b) as [qb Hq].
  { apply lookup_lt_Some in Hr. lia. }
  destruct (Hya b qb Hq) as (r' & Hr' & Hatt).
  assert (r' = r) as -> by congruence.
  destruct (Hqb b qb Hq) as (xb & Hxb & Hlen).
  assert (HlT : length qb = T).
  { rewrite Hlen. rewrite Forall_lookup in Hx. by eapply Hx. }
  rewrite <- HlT.
  apply (attend_explicit_lm_causal self rng scale mask b qb r); [lia | exact Hatt].
Qed.

(** If every head's attention returns, the explicit path returns, with an
    output of the input's shape and weights for every batch element. *)
Lemma forward_explicit_total (x : list (list (list R))) task mask :
  constructed self → flash self = false → (0 < head_size self)%nat →
  Forall (Forall (λ row, length row = embed_dim self)) x →
  (∀ scale b h xb (qh kh vh : list (list R)),
     x !! b = Some xb → length qh = length xb → length kh = length xb →
     is_ok (explicit_attention self task scale (attn_keep rng b h)
              (mask_at (mask_at mask b) h) qh kh vh)) →
  ∃ y att, forward self rng x task mask = Ok (y, Some att) ∧
    length att = length x ∧
    Forall (λ ab, length ab = num_heads self) att ∧
    Forall2 (λ xb yb, length yb = length xb ∧
                      Forall (λ r, length r = embed_dim self) yb) x y.
Proof.
  intros Hc Hflash Hhs Hx Hheads.
  pose proof Hc as (Hnh & Hmod & Hqi & Hqo & Hoi & Hoo & Hqwf & Howf).
  unfold forward.
  rewrite linear3_ok by (by rewrite Hqi). rewrite bind_of_Ok.
  unfold attend. rewrite Hflash, attention_scale_ok by done. rewrite bind_of_Ok.
  set (scale := 1.0 / sqrt (INR (head_size self))).
  set (qkv := fmap (M:=list) (linear_row (qkv_proj self)) <$> x).
  assert (Hqb : ∀ b qb, qkv !! b = Some qb →
            ∃ xb, x !! b = Some xb ∧ qb = linear_row (qkv_proj self) <$> xb).
  { intros b qb. unfold qkv. rewrite list_lookup_fmap.
    destruct (x !! b) as [xb |]; [| done]. intros [= <-]. by exists xb. }
  assert (Hone : ∀ b qb, qkv !! b = Some qb →
            ∃ ya, attend_explicit self rng task scale mask b qb = Ok ya ∧
                  head_outputs_shape self (length qb) (fst <$> ya) ∧
                  length (snd <$> ya) = num_heads self).
  { intros b qb Hq. destruct (Hqb b qb Hq) as (xb & Hxb & ->).
    apply attend_explicit_total; [done | |].
    - apply Forall_fmap, Forall_forall. intros r _. simpl.
      by rewrite length_linear_row, Hqo.
    - intros h qh kh vh Hlq Hlk. rewrite length_fmap in Hlq, Hlk.
      by eapply Hheads. }
  destruct (imapM_total (attend_explicit self rng task scale mask) qkv) as [ya Hya].
  { intros b qb Hq. destruct (Hone b qb Hq) as (r & Hr & _). by exists r. }
  rewrite Hya, bind_of_Ok. apply imapM_Ok in Hya as [Hlya Hya]. simpl.
  assert (Hlq : length qkv = length x) by (unfold qkv; by rewrite length_fmap).
  set (ys := fmap (M:=list) (fmap (M:=list) fst) ya).
  assert (Hys : ∀ b xb yb, x !! b = Some xb → ys !! b = Some yb →
            head_outputs_shape self (length xb) yb).
  { intros b xb yb Hxb. unfold ys. rewrite list_lookup_fmap.
    destruct (ya !! b) as [r |] eqn:Hr; [| done]. intros [= <-].
    assert (Hq : qkv !! b = Some (linear_row (qkv_proj self) <$> xb)).
    { unfold qkv. by rewrite list_lookup_fmap, Hxb. }
    destruct (Hya _ _ Hq) as (r' & Hr' & Hatt).
    destruct (Hone _ _ Hq) as (r'' & Hatt' & Hshape & _).
    assert (r' = r) as -> by congruence.
    assert (r'' = r) as -> by congruence.
    by rewrite length_fmap in Hshape. }
  set (out := λ (b : nat) (p : list (list R) * list (list (list R))),
         project_out self rng b (length p.1) p.2).
  assert (Hzip : ∀ b p, zip x ys !! b = Some p →
            x !! b = Some p.1 ∧ ys !! b = Some p.2).
  { intros b [xb yb]. rewrite lookup_zip_with.
    destruct (x !! b); [| done]. destruct (ys !! b); [| done].
    simpl. by intros [= <- <-]. }
  destruct (imapM_total out (zip x ys)) as [y Hy].
  { intros b p [Hp1 Hp2]%Hzip.
    destruct (project_out_total self rng b (length p.1) p.2 Hc (Hys _ _ _ Hp1 Hp2))
      as (o & Ho & _).
    by exists o. }
  rewrite Hy, bind_of_Ok. exists y. eexists. split; [reflexivity |].
  apply imapM_Ok in Hy as [Hly Hy].
  assert (Hlys : length ys = length x).
  { unfold ys. rewrite length_fmap. lia. }
  split; [rewrite length_fmap; lia |].
  split.
  { apply Forall_fmap, Forall_lookup. intros b r Hr. simpl.
    destruct (lookup_lt_is_Some_2 qkv b) as [qb Hq].
    { apply lookup_lt_Some in Hr. lia. }
    destruct (Hya _ _ Hq) as (r' & Hr' & Hatt).
    destruct (Hone _ _ Hq) as (r'' & Hatt' & _ & Hnum).
    assert (r' = r) as -> by congruence.
    assert (r'' = r) as -> by congruence. done. }
  apply Forall2_same_length_lookup_2.
  { rewrite Hly, length_zip. lia. }
  intros b xb yb Hxb Hyb.
  destruct (lookup_lt_is_Some_2 ys b) as [yh Hyh].
  { apply lookup_lt_Some in Hxb. lia. }
  assert (Hz : zip x ys !! b = Some (xb, yh)).
  { by rewrite lookup_zip_with, Hxb, Hyh. }
  destruct (Hy _ _ Hz) as (o & Ho & Hout).
  assert (o = yb) as -> by congruence.
  destruct (project_out_total self rng b (length xb) yh Hc (Hys _ _ _ Hxb Hyh))
    as (o' & Ho' & Hl & Hw).
  unfold out in Hout. simpl in Hout.
  assert (o' = yb) as -> by congruence. done.
Qed.

(** The fused path rejects a task tag other than 'lm' and 'mlm'. *)
Lemma forward_fused_rejects (x : list (list (list R))) task mask :
  flash self = true → task ≠ "lm" → task ≠ "mlm" →
  ∃ e, forward self rng x task mask = Err e.
Proof.
  intros Hflash Hlm%String.eqb_neq Hmlm%String.eqb_neq. unfold forward.
  destruct (linear3 (qkv_proj self) x) as [qkv | e]; [| by exists e].
  rewrite bind_of_Ok. unfold attend. rewrite Hflash, Hlm, Hmlm.
  by exists ValueError.
Qed.

(** The explicit path does not: the call returns, with weights. *)
Lemma forward_explicit_accepts (x : list (list (list R))) task mask :
  constructed self → flash self = false → (0 < head_size self)%nat →
  Forall (Forall (λ row, length row = embed_dim self)) x →
  task ≠ "lm" → task ≠ "mlm" →
  ∃ y att, forward self rng x task mask = Ok (y, Some att).
Proof.
  intros Hc Hflash Hhs Hx Hlm Hmlm.
  destruct (forward_explicit_total x task mask Hc Hflash Hhs Hx)
    as (y & att & Hf & _).
  - intros scale b h xb qh kh vh _ _ _.
    rewrite explicit_attention_other by done. by eexists.
  - by exists y, att.
Qed.

(** On the explicit path an unrecognised tag is served as 'mlm' without a
    mask would be. *)
Lemma forward_explicit_unmasked (x : list (list (list R))) task :
  flash self = false → task ≠ "lm" →
  forward self rng x task None = forward self rng x "mlm" None.
Proof.
  intros Hflash Hlm. unfold forward.
  destruct (linear3 (qkv_proj self) x) as [qkv | e]; [| done].
  rewrite !bind_of_Ok.
  assert (Hatt : attend self rng task None qkv = attend self rng "mlm" None qkv).
  { unfold attend. rewrite Hflash.
    destruct (attention_scale self) as [scale | e]; [| done].
    rewrite !bind_of_Ok.
    rewrite (imapM_ext (attend_explicit self rng task scale None)
               (attend_explicit self rng "mlm" scale None)); [done |].
    intros b qb _. unfold attend_explicit. apply mapM_ext_in.
    intros [h [qh [kh vh]]] _. by apply explicit_attention_unmasked. }
  by rewrite Hatt.
Qed.

(** Under task 'lm' the explicit path returns whenever the sequences fit
    the causal buffer. *)
Lemma forward_lm_explicit_total (x : list (list (list R))) (T : nat) mask :
  constructed self → flash self = false → (0 < head_size self)%nat →
  Forall (Forall (λ row, length row = embed_dim self)) x →
  (T ≤ block_size self)%nat → Forall (λ xb, length xb = T) x →
  ∃ y att, forward self rng x "lm" mask = Ok (y, Some att) ∧
    length att = length x ∧
    Forall (λ ab, length ab = num_heads self) att.
Proof.
  intros Hc Hflash Hhs Hx HT HxT.
  destruct (forward_explicit_total x "lm" mask Hc Hflash Hhs Hx)
    as (y & att & Hf & Hl & Hn & _).
  - intros scale b h xb qh kh vh Hxb Hq _.
    rewrite explicit_attention_lm; [by eexists |].
    rewrite Hq. rewrite Forall_lookup in HxT. by rewrite (HxT _ _ Hxb).
  - by exists y, att.
Qed.

End Batch.

Lemma sample_attention_constructed : constructed sample_attention.
Proof.
  unfold constructed, Linear_wf. simpl.
  repeat split; try lia; repeat constructor.
Qed.

Lemma sample_input_widths :
  Forall (Forall (λ row, length row = embed_dim sample_attention)) sample_input.
Proof. repeat constructor. Qed.

(** C2: on the explicit (non-fused) path with task 'lm', for every batch of
    sequences of length T <= block_size: the mask argument has no effect on
    the result; whenever the call returns, it returns post-softmax weights
    [att] of shape (B, nh, T, T) whose entry (i, j) is exactly zero for every
    j > i; and for a constructed layer with a positive head size and inputs
    of width embed_dim the call does return. *)
Theorem forward_lm_explicit_weights_causal
    (self : HybridSelfAttention) (rng : Draws) (x : list (list (list R)))
    (T : nat) (mask : option (list (list (list (list bool))))) :
  flash self = false → (T ≤ block_size self)%nat →
  Forall (λ xb, length xb = T) x →
  (∀ mask', forward self rng x "lm" mask' = forward self rng x "lm" mask) ∧
  (∀ y oatt, forward self rng x "lm" mask = Ok (y, oatt) →
     ∃ att, oatt = Some att ∧ length att = length x ∧
       ∀ b ab h ah i row j w,
         att !! b = Some ab → ab !! h = Some ah →
         ah !! i = Some row → row !! j = Some w →
         length ah = T ∧ length row = T ∧ ((i < j)%nat → w = 0)) ∧
  (constructed self → (0 < head_size self)%nat →
   Forall (Forall (λ row, length row = embed_dim self)) x →
   ∃ y att, forward self rng x "lm" mask = Ok (y, Some att) ∧
            length att = length x ∧
            Forall (λ ab, length ab = num_heads self) att).
Proof.
  intros Hflash HT Hx. split; [| split].
  - intros mask'. apply forward_lm_mask.
  - intros y oatt Hf.
    destruct (forward_lm_explicit_causal self rng x T mask y oatt Hflash HT Hx Hf)
      as (att & -> & Hlen & Hcausal).
    exists att. split; [done |]. split; [done |].
    intros b ab h ah i row j w Hab Hah Hrow Hw.
    rewrite Forall_lookup in Hcausal. specialize (Hcausal _ _ Hab).
    rewrite Forall_lookup in Hcausal. destruct (Hcausal _ _ Hah) as [Hla Hrows].
    destruct (Hrows _ _ Hrow) as [Hlr Hzero].
    split; [done |]. split; [done |]. intros Hij. by eapply Hzero.
  - intros Hc Hhs Hw. by eapply forward_lm_explicit_total.
Qed.

(** The sample layer on the sample batch: the call returns, and its weights
    vanish above the diagonal. *)
Lemma forward_lm_explicit_weights_causal_witness :
  flash sample_attention = false ∧ (2 ≤ block_size sample_attention)%nat ∧
  Forall (λ xb, length xb = 2%nat) sample_input ∧
  ∃ y att,
    forward sample_attention sample_draws sample_input "lm" None = Ok (y, Some att) ∧
    ∀ b ab h ah i row j w,
      att !! b = Some ab → ab !! h = Some ah →
      ah !! i = Some row → row !! j = Some w → (i < j)%nat → w = 0.
Proof.
  assert (Hflash : flash sample_attention = false) by reflexivity.
  assert (HT : (2 ≤ block_size sample_attention)%nat) by (simpl; lia).
  assert (Hx : Forall (λ xb : list (list R), length xb = 2%nat) sample_input)
    by (repeat constructor).
  destruct (forward_lm_explicit_weights_causal sample_attention sample_draws
              sample_input 2 None Hflash HT Hx) as (_ & Hcausal & Htotal).
  destruct Htotal as (y & att & Hf & _).
  { exact sample_attention_constructed. }
  { vm_compute. lia. }
  { exact sample_input_widths. }
  split; [exact Hflash | split; [exact HT | split; [exact Hx |]]].
  exists y, att. split; [exact Hf |].
  destruct (Hcausal y (Some att) Hf) as (att' & Heq & _ & Hzero).
  injection Heq as <-.
  intros b ab h ah i row j w Hab Hah Hrow Hw Hij.
  by apply (Hzero b ab h ah i row j w Hab Hah Hrow Hw).
Defined.

End AttentionFacts.
(** ** Properties of the task routing and of [ModelOutput] *)

Module ModelFacts.

Import Tensor Model ResultFacts TensorFacts.
Local Open Scope R_scope.

(** *** The dict of [forward] *)

Lemma as_dict_lookup_other (o : TransformerOutput) (k : string) :
  k ≠ "embeddings" → k ≠ "layer_embeddings" → as_dict o !! k = None.
Proof.
  intros H1 H2. unfold as_dict. destruct (body_layer_embeddings o).
  - rewrite lookup_insert_ne by done. by apply lookup_singleton_ne.
  - by apply lookup_singleton_ne.
Qed.

Lemma route_generation mask : route "generation" mask = Ok (true, None).
Proof. reflexivity. Qed.

Lemma route_Ok task mask c m :
  route task mask = Ok (c, m) →
  (task = "generation" ∧ c = true ∧ m = None) ∨
  (task ∈ ["physchem"; "prediction"; "mlm"] ∧ c = false ∧ m = mask).
Proof.
  unfold route. destruct (String.eqb_spec task "generation") as [-> | Hne].
  - intros [= <- <-]. by left.
  - case_bool_decide as Hin; [| done]. intros [= <- <-]. by right.
Qed.

Lemma route_rejects task mask :
  task ∉ forward_tasks → route task mask = Err ValueError.
Proof.
  intros Hnot. unfold route.
  destruct (String.eqb_spec task "generation") as [-> | Hne].
  { exfalso. apply Hnot. by repeat constructor. }
  case_bool_decide as Hin; [| done].
  exfalso. apply Hnot. unfold forward_tasks.
  rewrite !elem_of_cons in Hin. rewrite !elem_of_cons. tauto.
Qed.

(** [forward] rejects every tag outside its valid set, before anything
    else is computed. *)
Lemma forward_rejects_unknown_task self ids task mask nto :
  task ∉ forward_tasks → forward self ids task mask nto = Err ValueError.
Proof. intros H. unfold forward. by rewrite route_rejects. Qed.

(** So does [get_loss]. *)
Lemma get_loss_rejects_unknown_task F self ids mask task labels props :
  task ∉ loss_tasks → get_loss F self ids mask task labels props = Err ValueError.
Proof.
  intros Hnot. unfold get_loss.
  assert (Hne : ∀ t, t ∈ loss_tasks → String.eqb task t = false).
  { intros t Ht. apply String.eqb_neq. intros ->. contradiction. }
  rewrite !Hne by (by repeat constructor). done.
Qed.

(** What a returning [forward] has put in the output, by masking mode. *)
Lemma forward_Ok self ids task mask nto out :
  forward self ids task mask nto = Ok out →
  loss out = None ∧ attention_mask out = mask ∧
  ((task = "generation" ∧
    ∃ lg, linear3 (lm_head self) (lm_embeddings out) = Ok lg ∧
          logits_generation out = Some lg ∧
          logits_physchem out = None ∧ logits_prediction out = None) ∨
   (task ∈ ["physchem"; "prediction"; "mlm"] ∧
    logits_generation out = None ∧
    logits_physchem out = Some (physchem_head self (cls_embeddings out)) ∧
    logits_prediction out = Some (prediction_head self (cls_embeddings out)))).
Proof.
  unfold forward.
  intros ([c m] & Hroute & (o & Ho & (cls & Hcls & (lm & Hlm & Hrest)%bind_Ok)%bind_Ok)%bind_Ok)%bind_Ok.
  apply route_Ok in Hroute as [(-> & -> & ->) | (Hin & -> & ->)].
  - apply bind_Ok in Hrest as (d & (lg & Hlg & [= <-])%bind_Ok & [= <-]).
    simpl. split; [done |]. split; [done |]. left. split; [done |].
    exists lg. split; [done |]. unfold get_tensor3, get_tensor2.
    rewrite lookup_insert_eq, !lookup_insert_ne by done.
    by rewrite !as_dict_lookup_other.
  - apply bind_Ok in Hrest as (d & [= <-] & [= <-]).
    simpl. split; [done |]. split; [done |]. right. split; [done |].
    unfold get_tensor3, get_tensor2. split; [| split].
    + rewrite !lookup_insert_ne by done. by rewrite as_dict_lookup_other.
    + rewrite lookup_insert_ne by done. by rewrite lookup_insert_eq.
    + by rewrite lookup_insert_eq.
Qed.

(** *** Totality and shapes on the causal route *)

Lemma get_cls_embeddings_total (e : list (list (list R))) :
  Forall (λ eb, eb ≠ []) e → is_ok (_get_cls_embeddings e).
Proof.
  intros He. apply mapM_total. eapply Forall_impl; [exact He |].
  intros [| e0 eb] Hne; [done | by eexists].
Qed.

Lemma get_lm_embeddings_last (e : list (list (list R))) :
  Forall (λ eb, eb ≠ []) e →
  _get_lm_embeddings e true = Ok (last_only <$> e).
Proof.
  intros He. unfold _get_lm_embeddings. apply mapM_Ok_fmap.
  intros eb Heb. rewrite Forall_forall in He. specialize (He _ Heb).
  unfold last_only. destruct (last eb) as [x |] eqn:Hlast; [done |].
  by apply last_None in Hlast.
Qed.

Lemma has_shape3_nonempty (B T V : nat) (t : list (list (list R))) :
  (0 < T)%nat → has_shape3 B T V t → Forall (λ tb, tb ≠ []) t.
Proof.
  intros HT [_ Ht]. eapply Forall_impl; [exact Ht |].
  intros tb [Hl _] ->. simpl in Hl. lia.
Qed.

Lemma has_shape3_last_only (B T V : nat) (t : list (list (list R))) :
  (0 < T)%nat → has_shape3 B T V t → has_shape3 B 1 V (last_only <$> t).
Proof.
  intros HT [Hl Ht]. split; [by rewrite length_fmap |].
  apply Forall_fmap. eapply Forall_impl; [exact Ht |].
  intros tb [Hlen Hrows]. simpl. unfold last_only.
  destruct (last tb) as [x |] eqn:Hlast.
  - split; [done |]. constructor; [| constructor].
    rewrite Forall_forall in Hrows. apply Hrows.
    apply last_Some in Hlast as [l' ->]. apply elem_of_app. right. by left.
  - apply last_None in Hlast. subst tb. simpl in Hlen. lia.
Qed.

Lemma has_shape3_linear3 (B T : nat) (L : Linear) (t : list (list (list R))) :
  Linear_wf L → has_shape3 B T (in_features L) t →
  ∃ lg, linear3 L t = Ok lg ∧ has_shape3 B T (out_features L) lg.
Proof.
  intros Hwf [Hl Ht]. eexists. split.
  - apply linear3_ok. eapply Forall_impl; [exact Ht |]. by intros tb [_ Hr].
  - split; [by rewrite length_fmap |].
    apply Forall_fmap. eapply Forall_impl; [exact Ht |].
    intros tb [Hlen _]. simpl. split; [by rewrite length_fmap |].
    apply Forall_fmap, Forall_forall. intros r _. simpl.
    by apply length_linear_row.
Qed.

(** On the causal route the forward pass returns generation logits of shape
    (B, T, vocab_size), or (B, 1, vocab_size) when only the next token is
    requested. *)
Lemma forward_generation_shape self ids mask (nto : bool) o (B T : nat) :
  lm_head_constructed self →
  transformer_forward self ids None true = Ok o →
  has_shape3 B T (embedding_dim self) (body_embeddings o) → (0 < T)%nat →
  ∃ out lg, forward self ids "generation" mask nto = Ok out ∧
            logits_generation out = Some lg ∧
            has_shape3 B (if nto then 1 else T)%nat (vocab_size self) lg.
Proof.
  intros (Hwf & Hin & Hout & _) Ho Hshape HT.
  pose proof (has_shape3_nonempty _ _ _ _ HT Hshape) as Hne.
  destruct (get_cls_embeddings_total _ Hne) as [cls Hcls].
  assert (Hlm : ∃ lm, _get_lm_embeddings (body_embeddings o) nto = Ok lm ∧
            has_shape3 B (if nto then 1 else T)%nat (in_features (lm_head self)) lm).
  { rewrite Hin. destruct nto.
    - eexists. split; [by apply get_lm_embeddings_last |].
      by apply (has_shape3_last_only B T).
    - by eexists. }
  destruct Hlm as (lm & Hlm & Hlmshape).
  destruct (has_shape3_linear3 _ _ _ _ Hwf Hlmshape) as (lg & Hlg & Hlgshape).
  rewrite Hout in Hlgshape.
  unfold forward. rewrite route_generation, bind_of_Ok. cbv beta iota.
  rewrite Ho, bind_of_Ok, Hcls, bind_of_Ok, Hlm, bind_of_Ok, Hlg, !bind_of_Ok.
  eexists _, lg. split; [reflexivity |]. simpl. split; [| done].
  unfold get_tensor3. by rewrite lookup_insert_eq.
Qed.

Lemma forward_bidirectional_total self ids task mask o (B T V : nat) :
  task ∈ ["physchem"; "prediction"; "mlm"] →
  transformer_forward self ids mask false = Ok o →
  has_shape3 B T V (body_embeddings o) → (0 < T)%nat →
  is_ok (forward self ids task mask false).
Proof.
  intros Htask Ho Hshape HT.
  pose proof (has_shape3_nonempty _ _ _ _ HT Hshape) as Hne.
  destruct (get_cls_embeddings_total _ Hne) as [cls Hcls].
  unfold forward, route.
  replace (String.eqb task "generation") with false.
  2:{ symmetry. apply String.eqb_neq. intros ->.
      rewrite !elem_of_cons in Htask.
      destruct Htask as [? | [? | [? | ?%elem_of_nil]]]; done. }
  rewrite bool_decide_true by done. rewrite bind_of_Ok. cbv beta iota.
  rewrite Ho, bind_of_Ok, Hcls, bind_of_Ok. by eexists.
Qed.

(** *** The loss entry point *)

Lemma set_loss_logits o v :
  logits_generation (set_loss o v) = logits_generation o ∧
  logits_physchem (set_loss o v) = logits_physchem o ∧
  logits_prediction (set_loss o v) = logits_prediction o.
Proof. done. Qed.

Lemma get_loss_lm_Ok F self ids mask labels out :
  get_loss_lm F self ids mask labels = Ok out →
  ∃ out0, forward self ids "generation" mask false = Ok out0 ∧
          logits_generation out = logits_generation out0 ∧
          logits_physchem out = logits_physchem out0 ∧
          logits_prediction out = logits_prediction out0.
Proof.
  unfold get_loss_lm. intros (out0 & Hf & Hrest)%bind_Ok.
  exists out0. split; [done |]. destruct labels as [labels |].
  - apply bind_Ok in Hrest as (lg & _ & [= <-]). done.
  - by injection Hrest as <-.
Qed.

Lemma get_loss_physchem_Ok F self ids mask props out :
  get_loss_physchem F self ids mask props = Ok out →
  ∃ out0, forward self ids "prediction" mask false = Ok out0 ∧
          logits_generation out = logits_generation out0 ∧
          logits_physchem out = logits_physchem out0 ∧
          logits_prediction out = logits_prediction out0.
Proof.
  unfold get_loss_physchem, predict. intros (out0 & Hf & Hrest)%bind_Ok.
  exists out0. split; [done |]. destruct props as [props |].
  - apply bind_Ok in Hrest as (lp & _ & [= <-]). done.
  - by injection Hrest as <-.
Qed.

Lemma get_loss_mlm_Ok F self ids mask labels out :
  get_loss_mlm F self ids mask labels = Ok out →
  ∃ out0 lg, forward self ids "mlm" mask false = Ok out0 ∧
             linear3 (mlm_head self) (embeddings out0) = Ok lg ∧
             logits_generation out = Some lg ∧
             logits_physchem out = logits_physchem out0 ∧
             logits_prediction out = logits_prediction out0.
Proof.
  unfold get_loss_mlm. intros (out0 & Hf & (lg & Hlg & Hrest)%bind_Ok)%bind_Ok.
  exists out0, lg. split; [done |]. split; [done |].
  destruct labels as [labels |]; by injection Hrest as <-.
Qed.

Lemma get_loss_prediction_Ok F self ids mask props out :
  get_loss_prediction F self ids mask props = Ok out →
  ∃ out0, forward self ids "prediction" mask false = Ok out0 ∧
          logits_generation out = logits_generation out0 ∧
          logits_physchem out = logits_physchem out0 ∧
          logits_prediction out = logits_prediction out0.
Proof.
  unfold get_loss_prediction, predict. intros (out0 & Hf & Hrest)%bind_Ok.
  exists out0. split; [done |]. destruct props as [props |].
  - destruct (String.eqb (prediction_task_type self) "classification").
    + destruct (num_prediction_tasks self =? 1)%Z.
      { apply bind_Ok in Hrest as (lp & _ & [= <-]). done. }
      destruct (num_prediction_tasks self >? 1)%Z; [| done].
      apply bind_Ok in Hrest as (lp & _ & [= <-]). done.
    + destruct (String.eqb (prediction_task_type self) "regression"); [| done].
      apply bind_Ok in Hrest as (lp & _ & [= <-]). done.
  - by injection Hrest as <-.
Qed.

Lemma populated_iff {A} (x : A) (P : Prop) : P → (is_Some (Some x) ↔ P).
Proof. intros HP. by split. Qed.

Lemma unset_iff {A} (P : Prop) : ¬ P → (is_Some (@None A) ↔ P).
Proof. intros HP. split; [by intros [? ?] | done]. Qed.

(** Membership of a given tag in a given list of tags. *)
Ltac decide_tag :=
  lazymatch goal with
  | |- ¬ _ =>
      let H := fresh in
      let H' := fresh in
      intros H; pose proof (bool_decide_pack _ H) as H';
      vm_compute in H'; exact H'
  | |- _ → False =>
      let H := fresh in
      let H' := fresh in
      intros H; pose proof (bool_decide_pack _ H) as H';
      vm_compute in H'; exact H'
  | |- _ => refine (bool_decide_unpack _ _); vm_compute; exact I
  end.

(** C4 as stated fails: the populated fields follow the masking mode of
    the task, not the task. On the 2 x 4 batch, [get_loss] with task
    'physchem' returns with logits_prediction populated next to
    logits_physchem, and [get_loss] with task 'mlm' returns with all three
    of logits_generation, logits_physchem and logits_prediction populated. *)
Lemma physchem_loss_also_populates_prediction_logits :
  (∃ out, get_loss sample_externals sample_model sample_ids None "physchem"
            None (Some [[0]; [0]]) = Ok out ∧
          is_Some (logits_physchem out) ∧ is_Some (logits_prediction out)) ∧
  (∃ out, get_loss sample_externals sample_model sample_ids None "mlm"
            (Some sample_ids) None = Ok out ∧
          is_Some (logits_generation out) ∧
          is_Some (logits_physchem out) ∧ is_Some (logits_prediction out)).
Proof.
  split.
  - eexists. split; [vm_compute; reflexivity |]. split; by eexists.
  - eexists. split; [vm_compute; reflexivity |].
    split; [| split]; by eexists.
Qed.

(** C4 (amended): which logits a returning call has populated is decided
    by the masking mode that the task selects. [get_loss] returns with
    logits_generation populated exactly for the tasks 'lm', 'generation' and
    'mlm', and with logits_physchem and logits_prediction populated, both of
    them, exactly for the tasks 'mlm', 'prediction' and 'physchem': so 'lm'
    and 'generation' leave the two prediction logits unset, 'physchem' and
    'prediction' leave logits_generation unset and populate both prediction
    logits, and 'mlm' populates all three. [forward], for any task, returns
    with loss unset, with logits_generation populated exactly for
    'generation', and with logits_physchem and logits_prediction populated
    exactly for 'physchem', 'prediction' and 'mlm'. *)
Theorem task_fields_populated
    (F : Externals) (self : Jointformer) (ids : list (list Z))
    (mask : option (list (list bool))) (labels : option (list (list Z)))
    (props : option (list (list R))) :
  (∀ task out, get_loss F self ids mask task labels props = Ok out →
     (is_Some (logits_generation out) ↔ task ∈ ["lm"; "generation"; "mlm"]) ∧
     (is_Some (logits_physchem out) ↔ task ∈ ["mlm"; "prediction"; "physchem"]) ∧
     (is_Some (logits_prediction out) ↔ task ∈ ["mlm"; "prediction"; "physchem"])) ∧
  (∀ task nto out, forward self ids task mask nto = Ok out →
     loss out = None ∧
     (is_Some (logits_generation out) ↔ task = "generation") ∧
     (is_Some (logits_physchem out) ↔ task ∈ ["physchem"; "prediction"; "mlm"]) ∧
     (is_Some (logits_prediction out) ↔ task ∈ ["physchem"; "prediction"; "mlm"])).
Proof.
  assert (Hcausal : ∀ nto out0,
            forward self ids "generation" mask nto = Ok out0 →
            is_Some (logits_generation out0) ∧
            logits_physchem out0 = None ∧ logits_prediction out0 = None).
  { intros nto out0 Hf.
    apply forward_Ok in Hf as (_ & _ & [(_ & lg & _ & -> & -> & ->) | [Hin _]]).
    - by split; [eexists |].
    - exfalso. revert Hin. decide_tag. }
  assert (Hbidirectional : ∀ task nto out0,
            task ∈ ["physchem"; "prediction"; "mlm"] →
            forward self ids task mask nto = Ok out0 →
            logits_generation out0 = None ∧
            is_Some (logits_physchem out0) ∧ is_Some (logits_prediction out0)).
  { intros task nto out0 Htask Hf.
    apply forward_Ok in Hf as (_ & _ & [[-> _] | (_ & -> & -> & ->)]).
    - exfalso. revert Htask. decide_tag.
    - by split; [| split; eexists]. }
  split.
  - intros task out. unfold get_loss.
    destruct (String.eqb_spec task "lm") as [-> | Hlm].
    { intros (out0 & Hf & -> & -> & ->)%get_loss_lm_Ok.
      destruct (Hcausal _ _ Hf) as ([lg ->] & -> & ->).
      split; [apply populated_iff | split; apply unset_iff]; decide_tag. }
    destruct (String.eqb_spec task "generation") as [-> | Hgen].
    { intros (out0 & Hf & -> & -> & ->)%get_loss_lm_Ok.
      destruct (Hcausal _ _ Hf) as ([lg ->] & -> & ->).
      split; [apply populated_iff | split; apply unset_iff]; decide_tag. }
    destruct (String.eqb_spec task "mlm") as [-> | Hmlm].
    { intros (out0 & lg & Hf & _ & -> & -> & ->)%get_loss_mlm_Ok.
      destruct (Hbidirectional "mlm" _ _ ltac:(decide_tag) Hf)
        as (_ & [lp ->] & [lpr ->]).
      split; [| split]; apply populated_iff; decide_tag. }
    destruct (String.eqb_spec task "prediction") as [-> | Hpred].
    { intros (out0 & Hf & -> & -> & ->)%get_loss_prediction_Ok.
      destruct (Hbidirectional "prediction" _ _ ltac:(decide_tag) Hf)
        as (-> & [lp ->] & [lpr ->]).
      split; [apply unset_iff | split; apply populated_iff]; decide_tag. }
    destruct (String.eqb_spec task "physchem") as [-> | Hphys]; [| done].
    intros (out0 & Hf & -> & -> & ->)%get_loss_physchem_Ok.
    destruct (Hbidirectional "prediction" _ _ ltac:(decide_tag) Hf)
      as (-> & [lp ->] & [lpr ->]).
    split; [apply unset_iff | split; apply populated_iff]; decide_tag.
  - intros task nto out Hf.
    pose proof Hf as (Hloss & _ & Hroute)%forward_Ok. split; [done |].
    destruct Hroute as [(-> & _) | (Hin & _)].
    + destruct (Hcausal _ _ Hf) as ([lg ->] & -> & ->).
      split; [by apply populated_iff |]. split; apply unset_iff; decide_tag.
    + destruct (Hbidirectional _ _ _ Hin Hf) as (-> & [lp ->] & [lpr ->]).
      split; [| by split; apply populated_iff].
      apply unset_iff. intros ->. revert Hin. decide_tag.
Qed.

Lemma sample_model_constructed : lm_head_constructed sample_model.
Proof.
  unfold lm_head_constructed, Linear_wf. simpl.
  repeat split; repeat constructor.
Qed.

Lemma sample_body_shape mask causal :
  ∃ o, transformer_forward sample_model sample_ids mask causal = Ok o ∧
       has_shape3 2 4 (embedding_dim sample_model) (body_embeddings o).
Proof. eexists. split; [reflexivity |]. simpl. repeat constructor. Qed.

(** The losses of the sample model on the sample batch under the tasks
    'physchem' and 'lm'. *)
Lemma task_fields_populated_witness :
  (∃ out,
     get_loss sample_externals sample_model sample_ids None "physchem"
       None (Some [[0]; [0]]) = Ok out ∧
     logits_generation out = None ∧
     is_Some (logits_physchem out) ∧ is_Some (logits_prediction out)) ∧
  (∃ out,
     get_loss sample_externals sample_model sample_ids None "lm"
       (Some sample_ids) None = Ok out ∧
     is_Some (logits_generation out) ∧
     logits_physchem out = None ∧ logits_prediction out = None).
Proof.
  split.
  - assert (Hloss : is_ok (get_loss sample_externals sample_model sample_ids
                             None "physchem" None (Some [[0]; [0]]))).
    { eexists. vm_compute. reflexivity. }
    destruct Hloss as [out Hout]. exists out. split; [exact Hout |].
    destruct (proj1 (task_fields_populated sample_externals sample_model
                       sample_ids None None (Some [[0]; [0]]))
                "physchem" out Hout) as (Hgen & Hphys & Hpred).
    split; [| split].
    + destruct (logits_generation out) as [lg |]; [| done].
      exfalso. assert (Hin : "physchem" ∈ ["lm"; "generation"; "mlm"])
        by (apply Hgen; by eexists).
      revert Hin. decide_tag.
    + apply Hphys. decide_tag.
    + apply Hpred. decide_tag.
  - assert (Hloss : is_ok (get_loss sample_externals sample_model sample_ids
                             None "lm" (Some sample_ids) None)).
    { eexists. vm_compute. reflexivity. }
    destruct Hloss as [out Hout]. exists out. split; [exact Hout |].
    destruct (proj1 (task_fields_populated sample_externals sample_model
                       sample_ids None (Some sample_ids) None)
                "lm" out Hout) as (Hgen & Hphys & Hpred).
    split; [| split].
    + apply Hgen. decide_tag.
    + destruct (logits_physchem out) as [lp |]; [| done].
      exfalso. assert (Hin : "lm" ∈ ["mlm"; "prediction"; "physchem"])
        by (apply Hphys; by eexists).
      revert Hin. decide_tag.
    + destruct (logits_prediction out) as [lp |]; [| done].
      exfalso. assert (Hin : "lm" ∈ ["mlm"; "prediction"; "physchem"])
        by (apply Hpred; by eexists).
      revert Hin. decide_tag.
Defined.

(** C10 as stated fails: [Jointformer.forward] does not accept the tag
    'lm'; on the 2 x 4 batch it raises ValueError, whether or not only the
    next token is requested. *)
Lemma forward_rejects_lm_tag :
  forward sample_model sample_ids "lm" None false = Err ValueError ∧
  forward sample_model sample_ids "lm" None true = Err ValueError.
Proof. split; reflexivity. Qed.

(** C10 (amended): a forward pass with the causal tag 'generation' on a
    batch of B sequences of length T >= 1 (B = 2, T = 4, vocab_size = 10 in
    the scenario), whose body returns embeddings of shape (B, T,
    embedding_dim), returns generation logits of shape (B, T, vocab_size)
    when next_token_only is False and of shape (B, 1, vocab_size) when it is
    True. *)
Theorem forward_generation_logits_shape
    (self : Jointformer) (ids : list (list Z)) (mask : option (list (list bool)))
    (o : TransformerOutput) (B T : nat) :
  lm_head_constructed self →
  transformer_forward self ids None true = Ok o →
  has_shape3 B T (embedding_dim self) (body_embeddings o) → (0 < T)%nat →
  (∃ out lg, forward self ids "generation" mask false = Ok out ∧
             logits_generation out = Some lg ∧
             has_shape3 B T (vocab_size self) lg) ∧
  (∃ out lg, forward self ids "generation" mask true = Ok out ∧
             logits_generation out = Some lg ∧
             has_shape3 B 1 (vocab_size self) lg).
Proof.
  intros Hc Ho Hshape HT. split.
  - by apply (forward_generation_shape self ids mask false o B T).
  - by apply (forward_generation_shape self ids mask true o B T).
Qed.

(** The scenario: batch size 2, sequence length 4, vocabulary size 10. *)
Lemma forward_generation_logits_shape_witness :
  (∃ out lg, forward sample_model sample_ids "generation" None false = Ok out ∧
             logits_generation out = Some lg ∧ has_shape3 2 4 10 lg) ∧
  (∃ out lg, forward sample_model sample_ids "generation" None true = Ok out ∧
             logits_generation out = Some lg ∧ has_shape3 2 1 10 lg).
Proof.
  destruct (sample_body_shape None true) as (o & Ho & Hshape).
  apply (forward_generation_logits_shape sample_model sample_ids None o 2 4
           sample_model_constructed Ho Hshape).
  lia.
Defined.

End ModelFacts.

(** ** Properties of the sampling loop and of [generate] *)

Module GenerationFacts.

Import Tensor Model Generation ResultFacts TensorFacts ModelFacts.
Local Open Scope R_scope.

(** *** The end-token safeguard of [generate] *)

Lemma ensure_end_Ok (eos : Z) (sequence out : list Z) :
  ensure_end eos sequence = Ok out →
  (eos ∈ sequence ∧ out = sequence) ∨
  ((eos ∉ sequence) ∧ sequence ≠ [] ∧
   out = <[(length sequence - 1)%nat := eos]> sequence).
Proof.
  unfold ensure_end. case_bool_decide as Hin.
  - intros [= <-]. by left.
  - destruct sequence as [| t l]; [done |]. intros [= <-]. by right.
Qed.

Lemma ensure_end_last (eos : Z) (sequence out : list Z) :
  ensure_end eos sequence = Ok out →
  length out = length sequence ∧ ∃ i, out !! i = Some eos.
Proof.
  intros [[Hin ->] | (_ & Hne & ->)]%ensure_end_Ok.
  - split; [done |]. by apply list_elem_of_lookup_1.
  - split; [by rewrite length_insert |].
    exists (length sequence - 1)%nat. apply list_lookup_insert_eq.
    destruct sequence; [done | simpl; lia].
Qed.

(** *** One iteration of the sampling loop *)

Section Loop.

Context (self : Jointformer) (multinomial : Sampler) (temperature : R)
        (top_k : option Z) (eos : option Z) (pad : Z).

(** What a returning iteration does to row [r]: one token is appended; the
    row's flag is raised if it was raised or the row ended in an end-or-pad
    token (when the end token is truthy); a raised flag forces the pad
    token. *)
Lemma sampling_step_Ok s idx flags idx' flags' :
  sampling_step self multinomial temperature top_k eos pad s (idx, flags)
    = Ok (idx', flags') →
  length flags = length idx →
  length idx' = length idx ∧ length flags' = length idx ∧
  ∀ r row f, idx !! r = Some row → flags !! r = Some f →
    ∃ t f', idx' !! r = Some (row ++ [t]) ∧ flags' !! r = Some f' ∧
            (truthy eos = true →
               ∃ e, is_end eos pad row = Ok e ∧ f' = f || e) ∧
            (f' = true → t = pad).
Proof.
  unfold sampling_step. simpl. intros Hstep Hlen.
  apply bind_Ok in Hstep as (fl & Hfl & Hstep).
  apply bind_Ok in Hstep as (outputs & _ & Hstep).
  apply bind_Ok in Hstep as (lg & _ & Hstep).
  apply bind_Ok in Hstep as (rows & _ & Hstep).
  apply bind_Ok in Hstep as (probs & _ & Hstep).
  destruct (length _ =? length idx)%nat eqn:Hnext; [| done].
  apply Nat.eqb_eq in Hnext. injection Hstep as <- <-.
  set (idx_next := imap (λ (r : nat) (p : list R), Z.of_nat (multinomial s r p)) probs)
    in *.
  assert (Hflags : length fl = length idx ∧
            ∀ r row f, idx !! r = Some row → flags !! r = Some f →
              ∃ f', fl !! r = Some f' ∧
                    (truthy eos = true →
                       ∃ e, is_end eos pad row = Ok e ∧ f' = f || e)).
  { destruct (truthy eos).
    - apply bind_Ok in Hfl as (ends & Hends & [= <-]).
      pose proof (mapM_Ok_length _ _ _ Hends) as Hle.
      apply mapM_Ok in Hends.
      split; [rewrite length_zip_with; lia |].
      intros r row f Hrow Hf.
      destruct (Forall2_lookup_l _ _ _ _ _ Hends Hrow) as (e & He & Hend).
      exists (f || e). split; [by rewrite lookup_zip_with, Hf, He |].
      intros _. by exists e.
    - injection Hfl as <-. split; [done |].
      intros r row f Hrow Hf. exists f. by split. }
  destruct Hflags as [Hlfl Hfl'].
  split; [rewrite !length_zip_with; lia |]. split; [done |].
  intros r row f Hrow Hf.
  destruct (Hfl' r row f Hrow Hf) as (f' & Hf' & Hrel).
  destruct (lookup_lt_is_Some_2 idx_next r) as [t Ht].
  { rewrite Hnext. by eapply lookup_lt_Some. }
  exists (if f' then pad else t), f'.
  split; [| split; [done | split; [done |]]].
  - by rewrite lookup_zip_with, Hrow, lookup_zip_with, Hf', Ht.
  - by intros ->.
Qed.

(** Where the token appended to a row whose flag is not raised comes from:
    it is the draw from the distribution computed from the last-position
    logits that the model returns for that row. *)
Lemma sampling_step_token s idx flags idx' flags' r row :
  sampling_step self multinomial temperature top_k eos pad s (idx, flags)
    = Ok (idx', flags') →
  idx !! r = Some row → flags' !! r = Some false →
  ∃ outputs lg lb logits probs,
    forward self (crop (max_seq_len self) <$> idx) "generation" None true
      = Ok outputs ∧
    logits_generation outputs = Some lg ∧ lg !! r = Some lb ∧
    last lb = Some logits ∧
    next_token_probs temperature top_k logits = Ok probs ∧
    idx' !! r = Some (row ++ [Z.of_nat (multinomial s r probs)]).
Proof.
  unfold sampling_step. simpl. intros Hstep Hrow Hflag.
  apply bind_Ok in Hstep as (fl & Hfl & Hstep).
  apply bind_Ok in Hstep as (outputs & Hout & Hstep).
  apply bind_Ok in Hstep as (lg & Hlg & Hstep).
  apply bind_Ok in Hstep as (rows & Hrows & Hstep).
  apply bind_Ok in Hstep as (probs & Hprobs & Hstep).
  destruct (length _ =? length idx)%nat eqn:Hnext; [| done].
  apply Nat.eqb_eq in Hnext. rewrite length_imap in Hnext.
  injection Hstep as <- <-.
  pose proof (mapM_Ok_length _ _ _ Hprobs) as Hlp.
  pose proof (mapM_Ok_length _ _ _ Hrows) as Hlr.
  apply mapM_Ok in Hprobs, Hrows.
  destruct (lookup_lt_is_Some_2 probs r) as [p Hp].
  { rewrite Hnext. by eapply lookup_lt_Some. }
  destruct (Forall2_lookup_r _ _ _ _ _ Hprobs Hp) as (logits & Hlogits & Hnp).
  destruct (Forall2_lookup_r _ _ _ _ _ Hrows Hlogits) as (lb & Hlb & Hlast).
  exists outputs, lg, lb, logits, p.
  split; [done |]. split.
  { unfold subscript in Hlg. by destruct (logits_generation outputs); simplify_eq. }
  split; [done |]. split.
  { by destruct (last lb); simplify_eq. }
  split; [done |].
  rewrite lookup_zip_with, Hrow. simpl.
  rewrite lookup_zip_with, Hflag. simpl.
  by rewrite list_lookup_imap, Hp.
Qed.

(** *** The loop invariant *)

Lemma is_end_snoc row t :
  is_end eos pad (row ++ [t]) = Ok (bool_decide (eos = Some t) || (t =? pad)%Z).
Proof. unfold is_end. by rewrite last_snoc. Qed.

Lemma sampling_loop_rows n : ∀ s idx flags idx' flags',
  truthy eos = true →
  sampling_loop self multinomial temperature top_k eos pad n s (idx, flags)
    = Ok (idx', flags') →
  length flags = length idx →
  length idx' = length idx ∧
  ∀ r row f, idx !! r = Some row → flags !! r = Some f →
    ∃ new, idx' !! r = Some (row ++ new) ∧ length new = n ∧
           tail_padded eos pad new ∧
           (f = true → all_pad pad new) ∧
           (is_end eos pad row = Ok true → all_pad pad new).
Proof.
  induction n as [| n IH]; intros s idx flags idx' flags' Htruthy Hloop Hlen.
  - injection Hloop as <- <-. split; [done |].
    intros r row f Hrow _. exists []. rewrite app_nil_r.
    split; [done |]. split; [done |].
    split; [by intros p p' t t' _ Hp |]. by split; intros _; constructor.
  - simpl in Hloop. apply bind_Ok in Hloop as ([idx1 flags1] & Hstep & Hloop).
    destruct (sampling_step_Ok _ _ _ _ _ Hstep Hlen) as (Hl1 & Hlf1 & Hrows1).
    destruct (IH _ _ _ _ _ Htruthy Hloop) as [Hl' Hrows']; [lia |].
    split; [lia |].
    intros r row f Hrow Hf.
    destruct (Hrows1 r row f Hrow Hf) as (t & f1 & Hrow1 & Hf1 & Hend & Hforce).
    destruct (Hend Htruthy) as (e & He & ->).
    destruct (Hrows' r _ _ Hrow1 Hf1) as (new & Hnew & Hlnew & Htail & Hflag & Hlast).
    rewrite is_end_snoc in Hlast.
    exists (t :: new). rewrite <- app_assoc in Hnew.
    split; [done |]. split; [simpl; lia |].
    assert (Hraised : f || e = true → all_pad pad (t :: new)).
    { intros Hfe. constructor; [by apply Hforce | by apply Hflag]. }
    split; [| split].
    + intros [| p] [| p'] a a' Hlt Hp Hp' Ha; try lia; simpl in *.
      * injection Hp as ->.
        assert (Hall : all_pad pad new).
        { apply Hlast. f_equal. destruct Ha as [-> | ->].
          - by rewrite bool_decide_true.
          - rewrite Z.eqb_refl. apply orb_true_r. }
        unfold all_pad in Hall. rewrite Forall_lookup in Hall. by eapply Hall.
      * eapply (Htail p p'); [lia | done | done | done].
    + intros ->. by apply Hraised.
    + intros He'. apply Hraised. rewrite He in He'. injection He' as ->.
      apply orb_true_r.
Qed.

End Loop.

(** C5: every sequence of a batch returned by [generate] contains the end
    token at some position of the sequence, whatever the maximum molecule
    length: a sequence that [generate_single_token] returned without an end
    token gets it written at its last position, the others are returned
    unchanged. *)
Theorem generate_sequences_contain_end
    (self : Jointformer) (multinomial : Sampler) (tokenizer : Tokenizer)
    (batch_size : nat) (temperature : R) (top_k : option Z)
    (idx : list (list Z)) :
  generate self multinomial tokenizer batch_size temperature top_k = Ok idx →
  Forall (λ sequence, ∃ i, (i < length sequence)%nat ∧
                           sequence !! i = Some (sep_token_id tokenizer)) idx ∧
  ∃ prefix idx0,
    generation_prefix tokenizer = Some prefix ∧
    generate_single_token self multinomial (replicate batch_size prefix)
      (max_molecule_length tokenizer - 2) temperature top_k
      (Some (sep_token_id tokenizer)) (pad_token_id tokenizer) = Ok idx0 ∧
    Forall2 (λ sequence0 sequence,
               if bool_decide (sep_token_id tokenizer ∈ sequence0)
               then sequence = sequence0
               else sequence =
                      <[(length sequence0 - 1)%nat := sep_token_id tokenizer]> sequence0)
            idx0 idx.
Proof.
  unfold generate. intros (prefix & Hprefix & (idx0 & Hgen & Hfix)%bind_Ok)%bind_Ok.
  apply mapM_Ok in Hfix. split.
  - eapply Forall2_Forall_r; [exact Hfix |].
    apply Forall_forall. intros sequence0 _ sequence Hend. simpl in Hend.
    apply ensure_end_last in Hend as (_ & i & Hi).
    exists i. split; [by eapply lookup_lt_Some | done].
  - destruct (generation_prefix tokenizer) as [p |]; [| done].
    injection Hprefix as <-. exists p, idx0.
    split; [done |]. split; [done |].
    eapply Forall2_impl; [exact Hfix |].
    intros sequence0 sequence Hend. simpl in Hend.
    apply ensure_end_Ok in Hend as [[Hin ->] | (Hnin & _ & ->)].
    + by rewrite bool_decide_true.
    + by rewrite bool_decide_false.
Qed.

(** One new token (max_molecule_length = 3): both sequences get the end
    token 2 written over the sampled token. *)
Lemma generate_sequences_contain_end_witness :
  generate sample_model sample_sampler sample_tokenizer 2 1 None
    = Ok [[1; 2]; [1; 2]]%Z ∧
  Forall (λ sequence : list Z, ∃ i, (i < length sequence)%nat ∧
                                    sequence !! i = Some 2%Z)
         [[1; 2]; [1; 2]]%Z.
Proof.
  assert (Hgen : generate sample_model sample_sampler sample_tokenizer 2 1 None
                 = Ok [[1; 2]; [1; 2]]%Z) by (vm_compute; reflexivity).
  split; [exact Hgen |].
  apply (generate_sequences_contain_end sample_model sample_sampler
           sample_tokenizer 2 1 None _ Hgen).
Defined.

(** C6 as stated fails when [eos_token_id] is false in Python's sense, for
    then [if eos_token_id:] skips the update of the flags. With no end token
    (None) and pad token 0, the pad token 0 is emitted in the first iteration
    and the sampled token 5 is appended in the second; with end token 0 and
    pad token 9, the end token 0 is emitted in the first iteration and the
    sampled token 5, not the pad token 9, is appended in the second. *)
Lemma untracked_end_token_is_not_sticky :
  truthy None = false ∧
  generate_single_token sample_model sample_sampler [[1]]%Z 2 1 None None 0%Z
    = Ok [[1; 0; 5]]%Z ∧
  truthy (Some 0%Z) = false ∧
  generate_single_token sample_model sample_sampler [[1]]%Z 2 1 None (Some 0%Z) 9%Z
    = Ok [[1; 0; 5]]%Z ∧
  5%Z ≠ 0%Z ∧ 5%Z ≠ 9%Z.
Proof.
  split; [reflexivity |]. split; [vm_compute; reflexivity |].
  split; [reflexivity |]. split; [vm_compute; reflexivity |]. done.
Qed.

(** C6 (amended): in [generate_single_token], for every pad_token_id and
    every eos_token_id that is true in Python's sense (an integer other than
    0), and for every sequence of the batch: the call appends max_new_tokens
    tokens to the sequence, and once one of them is the end or the pad token,
    every token appended after it is the pad token, whatever was sampled. *)
Theorem ended_sequences_stay_ended
    (self : Jointformer) (multinomial : Sampler) (idx0 : list (list Z))
    (max_new_tokens : Z) (temperature : R) (top_k : option Z)
    (eos_token_id : option Z) (pad_token_id : Z) (idx : list (list Z)) :
  truthy eos_token_id = true →
  generate_single_token self multinomial idx0 max_new_tokens temperature top_k
    eos_token_id pad_token_id = Ok idx →
  length idx = length idx0 ∧
  ∀ r row0, idx0 !! r = Some row0 →
    ∃ new, idx !! r = Some (row0 ++ new) ∧
           length new = Z.to_nat max_new_tokens ∧
           ∀ p p' t t', (p < p')%nat → new !! p = Some t → new !! p' = Some t' →
                        (eos_token_id = Some t ∨ t = pad_token_id) →
                        t' = pad_token_id.
Proof.
  intros Htruthy. unfold generate_single_token.
  intros ([idx' flags'] & Hloop & [= <-])%bind_Ok.
  destruct (sampling_loop_rows self multinomial temperature top_k eos_token_id
              pad_token_id _ _ _ _ _ _ Htruthy Hloop) as [Hlen Hrows].
  { by rewrite length_replicate. }
  split; [done |]. intros r row0 Hrow0.
  destruct (Hrows r row0 false Hrow0) as (new & Hnew & Hlnew & Htail & _).
  { apply lookup_replicate_2. by eapply lookup_lt_Some. }
  exists new. by split; [| split].
Qed.

(** With end token 5 and pad token 9: the draws 0, 5, 5 give the tokens
    0, 5, 9. *)
Lemma ended_sequences_stay_ended_witness :
  truthy (Some 5%Z) = true ∧
  generate_single_token sample_model sample_sampler [[1]]%Z 3 1 None (Some 5%Z) 9%Z
    = Ok [[1; 0; 5; 9]]%Z ∧
  ∃ new, [[1; 0; 5; 9]]%Z !! 0%nat = Some ([1]%Z ++ new) ∧ length new = 3%nat ∧
         ∀ p p' t t', (p < p')%nat → new !! p = Some t → new !! p' = Some t' →
                      (Some 5%Z = Some t ∨ t = 9%Z) → t' = 9%Z.
Proof.
  assert (Htruthy : truthy (Some 5%Z) = true) by reflexivity.
  assert (Hgen : generate_single_token sample_model sample_sampler [[1]]%Z 3 1 None
                   (Some 5%Z) 9%Z = Ok [[1; 0; 5; 9]]%Z) by (vm_compute; reflexivity).
  split; [exact Htruthy | split; [exact Hgen |]].
  destruct (ended_sequences_stay_ended sample_model sample_sampler [[1]]%Z 3 1 None
              (Some 5%Z) 9%Z _ Htruthy Hgen) as [_ Hrows].
  apply (Hrows 0%nat [1]%Z). reflexivity.
Defined.

(** *** The loop returns *)

Lemma insert_desc_perm (x : R) (l : list R) : insert_desc x l ≡ₚ x :: l.
Proof.
  induction l as [| y l IH]; [done |]. simpl.
  destruct (Rle_dec y x); [done |]. rewrite IH. apply Permutation_swap.
Qed.

Lemma sort_desc_perm (l : list R) : sort_desc l ≡ₚ l.
Proof.
  induction l as [| x l IH]; [done |]. simpl.
  by rewrite insert_desc_perm, IH.
Qed.

Lemma sort_desc_nonempty (l : list R) : l ≠ [] → sort_desc l ≠ [].
Proof.
  intros Hne Hnil. apply Hne, Permutation_nil_r.
  by rewrite <- (sort_desc_perm l), Hnil.
Qed.

Lemma next_token_probs_total (self : Jointformer) temperature top_k (logits : list R) :
  top_k_ok self top_k → length logits = vocab_size self →
  is_ok (next_token_probs temperature top_k logits).
Proof.
  intros Hk Hlen. unfold next_token_probs. destruct top_k as [k |]; [| by eexists].
  destruct Hk as [Hk HV].
  destruct (Z.ltb_spec k 0) as [? | _]; [lia |].
  set (scaled := (λ a, a / temperature) <$> logits).
  assert (Hne : sort_desc scaled ≠ []).
  { apply sort_desc_nonempty. unfold scaled. destruct logits; [simpl in Hlen; lia | done]. }
  assert (Hn : ∃ n, (Z.to_nat k `min` length scaled)%nat = S n).
  { unfold scaled. rewrite length_fmap, Hlen.
    exists (Nat.pred (Z.to_nat k `min` vocab_size self)). lia. }
  destruct Hn as [n ->]. unfold topk.
  destruct (sort_desc scaled) as [| a l]; [done |].
  destruct (last (take (S n) (a :: l))) as [x |] eqn:Hlast; [by eexists |].
  by apply last_None in Hlast.
Qed.

Lemma crop_length (msl L : nat) (row : list Z) :
  (0 < msl)%nat → length row = L →
  length (crop msl row) = (L `min` msl)%nat.
Proof.
  intros Hmsl Hrow. unfold crop, last_tokens.
  destruct (Nat.leb_spec (length row) msl) as [Hle | Hgt]; [lia |].
  destruct (Nat.eqb_spec msl 0) as [-> | _]; [lia |].
  rewrite length_drop. lia.
Qed.

Section Total.

Context (self : Jointformer) (multinomial : Sampler) (temperature : R)
        (top_k : option Z) (eos : option Z) (pad : Z).
Context (Hhead : lm_head_constructed self) (Hbody : body_well_shaped self)
        (Hmsl : (0 < max_seq_len self)%nat) (Hk : top_k_ok self top_k).

(** On sequences of a positive common length an iteration returns, with
    every sequence one token longer. *)
Lemma sampling_step_total s idx flags (B L : nat) :
  regular B L idx → (0 < L)%nat → length flags = B →
  ∃ idx' flags',
    sampling_step self multinomial temperature top_k eos pad s (idx, flags)
      = Ok (idx', flags') ∧
    regular B (S L) idx' ∧ length flags' = B.
Proof.
  intros [HB Hrows] HL Hflags. unfold sampling_step. simpl.
  assert (Hfl : ∃ fl, (if truthy eos
                       then mapM (is_end eos pad) idx
                            ≫= λ is_end, Ok (zip_with orb flags is_end)
                       else Ok flags) = Ok fl ∧ length fl = B).
  { destruct (truthy eos); [| by exists flags].
    destruct (mapM_total (is_end eos pad) idx) as [ends Hends].
    { eapply Forall_impl; [exact Hrows |]. intros row Hrow. unfold is_end.
      destruct (last row) eqn:Hlast; [by eexists |].
      apply last_None in Hlast. subst row. simpl in Hrow. lia. }
    rewrite Hends, bind_of_Ok. eexists. split; [done |].
    apply mapM_Ok_length in Hends. rewrite length_zip_with. lia. }
  destruct Hfl as (fl & -> & Hlfl). rewrite bind_of_Ok.
  assert (Hcond : regular B (L `min` max_seq_len self)
                    (crop (max_seq_len self) <$> idx)).
  { split; [by rewrite length_fmap |].
    apply Forall_fmap. eapply Forall_impl; [exact Hrows |].
    intros row Hrow. simpl. by apply crop_length. }
  destruct (Hbody _ _ _ Hcond) as (o & Ho & Hshape); [lia |].
  destruct (forward_generation_shape self _ None true o B _ Hhead Ho Hshape)
    as (outputs & lg & Hout & Hlg & [Hllg Hlgs]); [lia |].
  rewrite Hout, bind_of_Ok, Hlg. simpl.
  set (pick := λ lb : list (list R), match last lb with
                                     | Some row => Ok row
                                     | None => Err IndexError
                                     end).
  destruct (mapM_total pick lg) as [rows Hrows'].
  { eapply Forall_impl; [exact Hlgs |]. intros lb [Hlb _]. unfold pick.
    destruct (last lb) eqn:Hlast; [by eexists |].
    apply last_None in Hlast. subst lb. simpl in Hlb. lia. }
  rewrite Hrows', bind_of_Ok.
  pose proof (mapM_Ok_length _ _ _ Hrows') as Hlrows.
  apply mapM_Ok in Hrows'.
  destruct (mapM_total (next_token_probs temperature top_k) rows) as [probs Hprobs].
  { eapply Forall2_Forall_r; [exact Hrows' |].
    eapply Forall_impl; [exact Hlgs |]. intros lb [_ Hwidth] row Hpick.
    unfold pick in Hpick. destruct (last lb) as [row' |] eqn:Hlast; [| done].
    injection Hpick as ->. apply (next_token_probs_total self); [done |].
    rewrite Forall_forall in Hwidth. apply Hwidth.
    apply last_Some in Hlast as [l' ->]. apply elem_of_app. right. by left. }
  rewrite Hprobs, bind_of_Ok.
  apply mapM_Ok_length in Hprobs.
  rewrite length_imap.
  replace (length probs =? length idx)%nat with true
    by (symmetry; apply Nat.eqb_eq; lia).
  eexists _, fl. split; [reflexivity |]. split; [| done]. split.
  - rewrite !length_zip_with, length_imap. lia.
  - apply Forall_lookup. intros r row'. rewrite lookup_zip_with.
    destruct (idx !! r) as [row |] eqn:Hrow; [| done]. simpl.
    destruct (zip_with _ fl _ !! r) as [t |]; [| done]. simpl.
    intros [= <-]. rewrite length_app. simpl.
    rewrite Forall_lookup in Hrows. rewrite (Hrows _ _ Hrow). lia.
Qed.

Lemma sampling_loop_total n : ∀ s idx flags (B L : nat),
  regular B L idx → (0 < L)%nat → length flags = B →
  ∃ idx' flags',
    sampling_loop self multinomial temperature top_k eos pad n s (idx, flags)
      = Ok (idx', flags') ∧
    regular B (n + L) idx'.
Proof.
  induction n as [| n IH]; intros s idx flags B L Hreg HL Hflags.
  - by exists idx, flags.
  - destruct (sampling_step_total s idx flags B L Hreg HL Hflags)
      as (idx1 & flags1 & Hstep & Hreg1 & Hflags1).
    destruct (IH (S s) idx1 flags1 B (S L) Hreg1) as (idx' & flags' & Hloop & Hreg');
      [lia | done |].
    exists idx', flags'. simpl. rewrite Hstep, bind_of_Ok.
    split; [done |]. by replace (S (n + L))%nat with (n + S L)%nat by lia.
Qed.

(** [generate_single_token] returns on a batch of sequences of a positive
    common length. *)
Lemma generate_single_token_total idx (max_new_tokens : Z) (B L : nat) :
  regular B L idx → (0 < L)%nat →
  ∃ idx', generate_single_token self multinomial idx max_new_tokens temperature
            top_k eos pad = Ok idx' ∧
          regular B (Z.to_nat max_new_tokens + L) idx'.
Proof.
  intros Hreg HL. unfold generate_single_token.
  destruct (sampling_loop_total (Z.to_nat max_new_tokens) 0 idx
              (replicate (length idx) false) B L Hreg HL)
    as (idx' & flags' & Hloop & Hreg').
  { rewrite length_replicate. by destruct Hreg. }
  exists idx'. rewrite Hloop. by split.
Qed.

End Total.

(** [generate] returns whenever the tokenizer has a non-empty prefix. *)
Lemma generate_total (self : Jointformer) (multinomial : Sampler)
    (tokenizer : Tokenizer) (batch_size : nat) (temperature : R)
    (top_k : option Z) (prefix : list Z) :
  lm_head_constructed self → body_well_shaped self →
  (0 < max_seq_len self)%nat → top_k_ok self top_k →
  generation_prefix tokenizer = Some prefix → prefix ≠ [] →
  ∃ idx, generate self multinomial tokenizer batch_size temperature top_k = Ok idx ∧
         regular batch_size
           (Z.to_nat (max_molecule_length tokenizer - 2) + length prefix) idx.
Proof.
  intros Hhead Hbody Hmsl Hk Hprefix Hne. unfold generate.
  rewrite Hprefix, bind_of_Ok.
  destruct (generate_single_token_total self multinomial temperature top_k
              (Some (sep_token_id tokenizer)) (pad_token_id tokenizer)
              Hhead Hbody Hmsl Hk (replicate batch_size prefix)
              (max_molecule_length tokenizer - 2) batch_size (length prefix))
    as (idx0 & Hgen & [Hl0 Hrows0]).
  { split; [by rewrite length_replicate |].
    apply Forall_forall. by intros row [-> _]%elem_of_replicate. }
  { destruct prefix; [done | simpl; lia]. }
  rewrite Hgen, bind_of_Ok.
  destruct (mapM_total (ensure_end (sep_token_id tokenizer)) idx0) as [idx Hidx].
  { eapply Forall_impl; [exact Hrows0 |]. intros row Hrow. unfold ensure_end.
    case_bool_decide; [by eexists |].
    destruct row; [| by eexists].
    destruct prefix; [done | simpl in Hrow; lia]. }
  exists idx. split; [done |].
  pose proof (mapM_Ok_length _ _ _ Hidx) as Hlen. apply mapM_Ok in Hidx.
  split; [lia |].
  eapply Forall2_Forall_r; [exact Hidx |].
  eapply Forall_impl; [exact Hrows0 |]. intros row Hrow out Hout. simpl in *.
  apply ensure_end_last in Hout as [Hlo _]. lia.
Qed.

(** *** Top-k filtering and the support of the sampling distribution *)

(** The first entry of the sorted list bounds the list from above. *)
Lemma sort_desc_head (l : list R) (m : R) (rest : list R) :
  sort_desc l = m :: rest → m ∈ l ∧ ∀ y, y ∈ l → y <= m.
Proof.
  intros Hsort. split.
  { rewrite <- (sort_desc_perm l), Hsort. by left. }
  revert m rest Hsort. induction l as [| x l IH]; intros m rest Hsort; [done |].
  simpl in Hsort. destruct (sort_desc l) as [| y0 r0] eqn:Hl.
  - simpl in Hsort. injection Hsort as <- <-.
    assert (l = []) as ->.
    { apply Permutation_nil_r. by rewrite <- (sort_desc_perm l), Hl. }
    intros y ->%list_elem_of_singleton. lra.
  - specialize (IH y0 r0 eq_refl). simpl in Hsort.
    destruct (Rle_dec y0 x) as [Hle | Hnle]; injection Hsort as <- <-.
    + intros y [-> | Hy]%elem_of_cons; [lra |]. specialize (IH y Hy). lra.
    + intros y [-> | Hy]%elem_of_cons; [lra |]. by apply IH.
Qed.

Lemma topk_one (l : list R) :
  l ≠ [] → ∃ m, last (topk (Z.to_nat 1 `min` length l) l) = Some m ∧
                m ∈ l ∧ ∀ y, y ∈ l → y <= m.
Proof.
  intros Hne. destruct (sort_desc l) as [| m rest] eqn:Hsort.
  { exfalso. apply Hne, Permutation_nil_r. by rewrite <- (sort_desc_perm l), Hsort. }
  exists m. split; [| by eapply sort_desc_head].
  unfold topk. rewrite Hsort.
  replace (Z.to_nat 1 `min` length l)%nat with 1%nat; [done |].
  destruct l; [done | simpl; lia].
Qed.

Lemma sum_nonneg (l : list R) : Forall (λ a, 0 <= a) l → 0 <= sum l.
Proof. unfold sum. induction 1 as [| a l Ha _ IH]; simpl; lra. Qed.

Lemma sum_pos (l : list R) (a : R) :
  Forall (λ a, 0 <= a) l → a ∈ l → 0 < a → 0 < sum l.
Proof.
  intros Hl Ha Hpos. induction Hl as [| b l Hb Hl IH]; [by apply elem_of_nil in Ha |].
  pose proof (sum_nonneg l Hl) as Hs. unfold sum in *. simpl.
  apply elem_of_cons in Ha as [<- | Ha]; [lra |]. specialize (IH Ha). lra.
Qed.

Lemma xexp_nonneg (x : xreal) : 0 <= xexp x.
Proof. destruct x; simpl; [left; apply exp_pos | lra]. Qed.

(** The entries that can be drawn from a softmax are the finite ones. *)
Lemma softmax_possible_draw (row : list xreal) (j : nat) :
  possible_draw (softmax row) j ↔ ∃ a, row !! j = Some (Fin a).
Proof.
  unfold possible_draw, softmax. rewrite !list_lookup_fmap.
  assert (Hnn : Forall (λ a, 0 <= a) (xexp <$> row)).
  { apply Forall_fmap, Forall_forall. intros x _. apply xexp_nonneg. }
  split.
  - intros (p & Hp & Hpos). destruct (row !! j) as [[a |] |]; simpl in *.
    + by exists a.
    + injection Hp as <-. rewrite Rdiv_0_l in Hpos. lra.
    + done.
  - intros (a & Ha). rewrite Ha. simpl. eexists. split; [done |].
    apply Rdiv_pos_pos; [apply exp_pos |].
    apply (sum_pos _ (exp a)); [done | | apply exp_pos].
    apply list_elem_of_fmap. exists (Fin a). split; [done |].
    by eapply list_elem_of_lookup_2.
Qed.

(** With [top_k = 1] the indices that can be drawn are exactly those of the
    largest logit. *)
Lemma top1_support (temperature : R) (logits : list R) :
  0 < temperature → logits ≠ [] →
  ∃ probs, next_token_probs temperature (Some 1%Z) logits = Ok probs ∧
    ∀ j, possible_draw probs j ↔
         ∃ x, logits !! j = Some x ∧ ∀ y, y ∈ logits → y <= x.
Proof.
  intros Ht Hne. unfold next_token_probs.
  set (scaled := (λ a, a / temperature) <$> logits).
  change (1 <? 0)%Z with false. cbv iota.
  destruct (topk_one scaled) as (M & HM & HMin & HMmax).
  { unfold scaled. by destruct logits. }
  rewrite HM, !bind_of_Ok. eexists. split; [reflexivity |].
  apply list_elem_of_fmap in HMin as (x0 & -> & Hx0).
  assert (Hscale : ∀ a b, a / temperature <= b / temperature ↔ a <= b).
  { intros a b. unfold Rdiv. pose proof (Rinv_0_lt_compat _ Ht) as Hinv. split.
    - intros H. apply (Rmult_le_reg_r (/ temperature)); done.
    - intros H. by apply Rmult_le_compat_r; [lra |]. }
  intros j. rewrite softmax_possible_draw, list_lookup_fmap.
  unfold scaled. rewrite list_lookup_fmap.
  destruct (logits !! j) as [x |] eqn:Hj; simpl.
  - split.
    + intros (a & Ha). exists x. split; [done |].
      destruct (Rlt_dec (x / temperature) (x0 / temperature)) as [Hlt | Hge];
        [done |].
      intros y Hy. apply Hscale.
      assert (y / temperature <= x0 / temperature).
      { apply HMmax, list_elem_of_fmap. by exists y. }
      lra.
    + intros (x' & [= <-] & Hmax).
      destruct (Rlt_dec (x / temperature) (x0 / temperature)) as [Hlt | Hge].
      * exfalso. specialize (Hmax x0 Hx0). apply Hscale in Hmax. lra.
      * by eexists.
  - split; [by intros (a & Ha) | by intros (x & Hx & _)].
Qed.

Lemma first_positive_admissible : admissible first_positive.
Proof.
  intros s r probs (j & p & Hj & Hp). unfold first_positive.
  destruct (list_find (λ p, 0 < p) probs) as [[i q] |] eqn:Hfind.
  - apply list_find_Some in Hfind as (Hi & Hq & _). by exists q.
  - apply list_find_None in Hfind. rewrite Forall_lookup in Hfind.
    by specialize (Hfind j p Hj).
Qed.

(** C9 as stated fails when the largest logit is attained twice: from the
    logits (1, 1) with temperature 1 and top_k = 1 both token 0 and token 1
    can be drawn. *)
Lemma top1_tie_is_not_deterministic :
  ∃ probs, next_token_probs 1 (Some 1%Z) [1; 1] = Ok probs ∧
           possible_draw probs 0 ∧ possible_draw probs 1.
Proof.
  destruct (top1_support 1 [1; 1]) as (probs & Hprobs & Hsupp); [lra | done |].
  exists probs. split; [done |].
  split; apply Hsupp; (eexists; split; [reflexivity |]);
    intros y Hy; rewrite !elem_of_cons in Hy;
    destruct Hy as [-> | [-> | Hy%elem_of_nil]]; (lra || done).
Qed.

(** With a single largest logit, the draw is that logit's index. *)
Lemma top1_unique_support
    (multinomial : Sampler) (temperature : R) (logits : list R)
    (j_max : nat) (m : R) :
  admissible multinomial → 0 < temperature →
  logits !! j_max = Some m →
  (∀ j x, logits !! j = Some x → j ≠ j_max → x < m) →
  ∃ probs, next_token_probs temperature (Some 1%Z) logits = Ok probs ∧
           (∀ j, possible_draw probs j ↔ j = j_max) ∧
           ∀ s r, multinomial s r probs = j_max.
Proof.
  intros Hadm Ht Hmax Huniq.
  destruct (top1_support temperature logits Ht) as (probs & Hprobs & Hsupp).
  { intros ->. done. }
  assert (Honly : ∀ j, possible_draw probs j ↔ j = j_max).
  { intros j. rewrite Hsupp. split.
    - intros (x & Hx & Hbound).
      destruct (decide (j = j_max)) as [-> | Hne]; [done |].
      specialize (Huniq j x Hx Hne).
      assert (m <= x) by (apply Hbound; by eapply list_elem_of_lookup_2).
      lra.
    - intros ->. exists m. split; [done |].
      intros y (j & Hy)%list_elem_of_lookup_1.
      destruct (decide (j = j_max)) as [-> | Hne].
      + rewrite Hmax in Hy. injection Hy as <-. lra.
      + left. by apply (Huniq j y). }
  exists probs. split; [done |]. split; [done |].
  intros s r. apply Honly, Hadm. exists j_max. by apply Honly.
Qed.

(** C9 (amended): with top_k = 1 and a temperature > 0, for every logit
    vector whose largest entry is attained at a single index, that index is
    the only one that can be drawn from the step's distribution, so the
    sampled token is the argmax of the logits whatever the outcome of the
    random draw, and repeated draws from the same logits agree; accordingly,
    in an iteration of [generate_single_token] the token appended to a
    sequence that has not ended is the argmax of the last-position logits
    that the model returned for it. *)
Theorem top1_draw_is_argmax
    (self : Jointformer) (multinomial : Sampler) (temperature : R)
    (eos_token_id : option Z) (pad_token_id : Z) :
  admissible multinomial → 0 < temperature →
  (∀ logits j_max m,
     logits !! j_max = Some m →
     (∀ j x, logits !! j = Some x → j ≠ j_max → x < m) →
     ∃ probs, next_token_probs temperature (Some 1%Z) logits = Ok probs ∧
              (∀ j, possible_draw probs j ↔ j = j_max) ∧
              ∀ s r, multinomial s r probs = j_max) ∧
  (∀ s idx flags idx' flags' r row,
     sampling_step self multinomial temperature (Some 1%Z) eos_token_id
       pad_token_id s (idx, flags) = Ok (idx', flags') →
     idx !! r = Some row → flags' !! r = Some false →
     ∃ outputs lg lb logits,
       forward self (crop (max_seq_len self) <$> idx) "generation" None true
         = Ok outputs ∧
       logits_generation outputs = Some lg ∧ lg !! r = Some lb ∧
       last lb = Some logits ∧
       ∀ j_max m,
         logits !! j_max = Some m →
         (∀ j x, logits !! j = Some x → j ≠ j_max → x < m) →
         idx' !! r = Some (row ++ [Z.of_nat j_max])).
Proof.
  intros Hadm Ht. split.
  - intros logits j_max m Hmax Huniq. by eapply top1_unique_support.
  - intros s idx flags idx' flags' r row Hstep Hrow Hflag.
    destruct (sampling_step_token _ _ _ _ _ _ _ _ _ _ _ _ _ Hstep Hrow Hflag)
      as (outputs & lg & lb & logits & probs & Hout & Hlg & Hlb & Hlast & Hp & Hnew).
    exists outputs, lg, lb, logits. do 4 (split; [done |]).
    intros j_max m Hmax Huniq.
    destruct (top1_unique_support multinomial temperature logits j_max m
                Hadm Ht Hmax Huniq) as (probs' & Hp' & _ & Hdraw).
    assert (probs' = probs) as -> by congruence.
    by rewrite Hnew, Hdraw.
Qed.

(** The logits (1, 3, 2) at temperature 2: the draw is index 1. *)
Lemma top1_draw_is_argmax_witness :
  admissible first_positive ∧ 0 < 2 ∧
  ∃ probs, next_token_probs 2 (Some 1%Z) [1; 3; 2] = Ok probs ∧
           (∀ j, possible_draw probs j ↔ j = 1%nat) ∧
           ∀ s r, first_positive s r probs = 1%nat.
Proof.
  assert (Ht : 0 < 2) by lra.
  split; [exact first_positive_admissible | split; [exact Ht |]].
  destruct (top1_draw_is_argmax sample_model first_positive 2 None 0%Z
              first_positive_admissible Ht) as [Hdist _].
  apply (Hdist [1; 3; 2] 1%nat 3).
  - reflexivity.
  - intros [| [| [| j]]] x Hx Hne; simpl in Hx; try done;
      injection Hx as <-; lra.
Defined.

End GenerationFacts.

(** ** Properties of the periodic evaluation *)

Module EvaluationFacts.

Import Training ResultFacts.
Local Open Scope R_scope.

Lemma int_div_Ok (a b : Z) (q : R) : int_div a b = Ok q → b ≠ 0%Z.
Proof. unfold int_div. destruct (Z.eqb_spec b 0); [done | by intros _]. Qed.

(** The validity score of a split exists only when samples were judged. *)
Lemma estimate_split_Ok self env split out out' :
  estimate_split self env split out = Ok out' →
  foldl (λ (valid : list bool) k, valid ++ valid_samples env split k)
        [] (seq 0 (Z.to_nat (eval_iters self))) ≠ [].
Proof.
  unfold estimate_split.
  intros (losses & _ & (score & Hscore%int_div_Ok & _)%bind_Ok)%bind_Ok.
  intros Hnil. rewrite Hnil in Hscore. done.
Qed.

Lemma no_samples_judged env split (ks : list nat) (valid : list bool) :
  (∀ k, valid_samples env split k = []) →
  foldl (λ (valid : list bool) k, valid ++ valid_samples env split k) valid ks
  = valid.
Proof.
  intros Hnone. revert valid. induction ks as [| k ks IH]; intros valid; [done |].
  simpl. by rewrite Hnone, app_nil_r, IH.
Qed.

Lemma estimate_split_no_samples self env split out :
  (0 ≤ eval_iters self)%Z → (∀ k, valid_samples env split k = []) →
  estimate_split self env split out = Err ZeroDivisionError.
Proof.
  intros Hiters Hnone. unfold estimate_split, zeros.
  destruct (Z.ltb_spec (eval_iters self) 0) as [? | _]; [lia |].
  rewrite bind_of_Ok. cbv zeta. by rewrite no_samples_judged.
Qed.

(** C7 fails on the code: with no evaluation rounds (eval_iters = 0) the
    list of judged samples is empty and [sum(valid) / len(valid)] raises
    ZeroDivisionError; no score of zero is reported, and the model is left in
    evaluation mode. The same happens for any number of rounds in which no
    sample is judged. *)
Theorem estimate_loss_divides_by_zero (env : Collaborators) (training : bool) :
  estimate_loss idle_trainer env training = (false, Err ZeroDivisionError) ∧
  ∀ self, (0 ≤ eval_iters self)%Z →
          (∀ k, valid_samples env "train" k = []) →
          estimate_loss self env training = (false, Err ZeroDivisionError).
Proof.
  split; [reflexivity |].
  intros self Hiters Hnone. unfold estimate_loss.
  by rewrite estimate_split_no_samples.
Qed.

End EvaluationFacts.

(** ** Properties of weight tying *)

Module TyingFacts.

Import Tying ResultFacts.
Local Open Scope R_scope.

Lemma alloc_lookup w σ l σ' :
  alloc w σ = (l, σ') → σ !! l = None ∧ σ' = <[l := w]> σ.
Proof.
  unfold alloc. intros [= <- <-]. split; [| done].
  apply not_elem_of_dom, is_fresh.
Qed.


(** Without weight tying the embedding and the head are different objects. *)
Lemma init_untied w_embedding w_lm w_mlm σ :
  ∃ l_e l_l, (__init__ false w_embedding w_lm w_mlm σ).1
               !! "token_embedding.weight" = Some l_e ∧
             (__init__ false w_embedding w_lm w_mlm σ).1
               !! "lm_head.weight" = Some l_l ∧
             l_e ≠ l_l.
Proof.
  unfold __init__.
  destruct (alloc w_embedding σ) as [l_e σ1] eqn:He.
  destruct (alloc w_lm σ1) as [l_l σ2] eqn:Hl.
  destruct (alloc w_mlm σ2) as [l_m σ3] eqn:Hm.
  apply alloc_lookup in He as [He1 ->]. apply alloc_lookup in Hl as [Hl1 ->].
  simpl. exists l_e, l_l. split; [| split].
  - rewrite !lookup_insert_ne by done. by rewrite lookup_singleton_eq.
  - rewrite lookup_insert_ne by done. by rewrite lookup_insert_eq.
  - intros ->. by rewrite lookup_insert_eq in Hl1.
Qed.

End TyingFacts.

(** ** Task tags across the three entry points *)

Module TaskValidationFacts.

Import Tensor ResultFacts TensorFacts.
Local Open Scope R_scope.

(** C1 fails on the code. [Jointformer.forward], [Jointformer.get_loss] and
    the fused path of [HybridSelfAttention.forward] raise ValueError on the
    unrecognised tag 'foo'; the explicit (non-fused) path of
    [HybridSelfAttention.forward] does not: on the same layer and input it
    returns, with the output and the weights that task 'mlm' without a mask
    gives. *)
Theorem explicit_attention_accepts_unknown_task :
  Model.forward Model.sample_model Model.sample_ids "foo" None false
    = Err ValueError ∧
  Model.get_loss Model.sample_externals Model.sample_model Model.sample_ids None
    "foo" None None = Err ValueError ∧
  Attention.forward Attention.sample_attention_fused Attention.sample_draws
    Attention.sample_input "foo" None = Err ValueError ∧
  ∃ y att,
    Attention.forward Attention.sample_attention Attention.sample_draws
      Attention.sample_input "foo" None = Ok (y, Some att) ∧
    Attention.forward Attention.sample_attention Attention.sample_draws
      Attention.sample_input "mlm" None = Ok (y, Some att).
Proof.
  split; [reflexivity |]. split; [reflexivity |]. split.
  - unfold Attention.forward.
    rewrite linear3_ok by exact AttentionFacts.sample_input_widths.
    reflexivity.
  - destruct (AttentionFacts.forward_explicit_accepts Attention.sample_attention
                Attention.sample_draws Attention.sample_input "foo" None)
      as (y & att & Hf).
    + exact AttentionFacts.sample_attention_constructed.
    + reflexivity.
    + vm_compute. lia.
    + exact AttentionFacts.sample_input_widths.
    + done.
    + done.
    + exists y, att. split; [exact Hf |].
      rewrite <- Hf. symmetry.
      by apply AttentionFacts.forward_explicit_unmasked.
Qed.

End TaskValidationFacts.

(** ** The schedule outside its intended configuration, and its range *)

Module ScheduleRangeFacts.

Import Training ResultFacts ScheduleFacts.
Local Open Scope R_scope.

(** The cosine coefficient stays between 0 and 1. *)
Lemma cosine_branch_range self x :
  min_lr self <= learning_rate self →
  min_lr self <= cosine_branch self x <= learning_rate self.
Proof.
  intros Hmin. unfold cosine_branch.
  pose proof (COS_bound (PI * ((x - IZR (warmup_iters self)) /
                 (IZR (lr_decay_iters self) - IZR (warmup_iters self))))) as [Hlo Hhi].
  split; nra.
Qed.

(** X1: [_get_lr] can fail in one way only, by dividing by zero, and does so
    exactly when warmup_iters is 0 and the iteration is negative, or when the
    iteration, warmup_iters and lr_decay_iters coincide; the assertion on the
    decay ratio never fails, whatever the configuration. *)
Theorem get_lr_fails_only_by_zero_division (self : Trainer) (it : Z) :
  (_get_lr self it = Err ZeroDivisionError ↔
     ((it < warmup_iters self)%Z ∧ warmup_iters self = 0%Z) ∨
     (it = warmup_iters self ∧ lr_decay_iters self = warmup_iters self)) ∧
  (∀ e, _get_lr self it = Err e → e = ZeroDivisionError).
Proof.
  unfold _get_lr.
  destruct (Z.ltb_spec it (warmup_iters self)) as [Hlt | Hge].
  - unfold py_div.
    destruct (Req_dec_T (IZR (warmup_iters self)) 0) as [H0 | Hn0].
    + apply eq_IZR_R0 in H0. split; [| by intros e [= <-]].
      split; [intros _; by left | done].
    + split; [| done]. split; [done |].
      intros [[_ Hw] | [-> _]]; [| lia]. by rewrite Hw in Hn0.
  - destruct (Z.gtb_spec it (lr_decay_iters self)) as [Hgt | Hle].
    { split; [| done]. split; [done |]. intros [[? _] | [? ?]]; lia. }
    unfold py_div.
    destruct (Req_dec_T (IZR (lr_decay_iters self - warmup_iters self)) 0)
      as [H0 | Hn0].
    + apply eq_IZR_R0 in H0. split; [| by intros e [= <-]].
      split; [intros _; right; lia | done].
    + assert (Hwd : (warmup_iters self < lr_decay_iters self)%Z).
      { destruct (Z.eq_dec (lr_decay_iters self) (warmup_iters self)) as [Heq | Hne];
          [| lia].
        exfalso. apply Hn0. rewrite Heq, Z.sub_diag. done. }
      rewrite bind_of_Ok, !minus_IZR.
      destruct (decay_ratio_bounds (IZR (warmup_iters self))
                  (IZR (lr_decay_iters self)) (IZR it)) as [Hlo Hhi].
      { by apply IZR_lt. }
      { split; by apply IZR_le. }
      destruct (Rle_dec 0 _) as [_ | Hn]; [| contradiction].
      destruct (Rle_dec _ 1) as [_ | Hn]; [| contradiction].
      split; [| done]. split; [done |]. intros [[? _] | [? ?]]; lia.
Qed.

(** X2: for a configuration with 0 < warmup_iters < lr_decay_iters and
    0 <= min_lr <= learning_rate, and every iteration it >= 0, [_get_lr]
    returns a rate between 0 and learning_rate; from warmup_iters on the rate
    is at least min_lr. *)
Theorem get_lr_within_bounds (self : Trainer) (it : Z) :
  well_configured self → 0 <= min_lr self → (0 ≤ it)%Z →
  ∃ v, _get_lr self it = Ok v ∧ 0 <= v <= learning_rate self ∧
       ((warmup_iters self ≤ it)%Z → min_lr self <= v).
Proof.
  intros Hcfg Hfloor Hit. pose proof Hcfg as [[Hw Hwd] Hmin].
  exists (lr_curve self (IZR it)). split; [by apply get_lr_value |].
  pose proof (IZR_le _ _ Hit) as Hit'.
  pose proof (IZR_lt _ _ Hw) as Hw'.
  destruct (Z.lt_ge_cases it (warmup_iters self)) as [Hlt | Hge].
  - apply IZR_lt in Hlt as Hlt'.
    rewrite lr_curve_warmup by (lia || lra).
    split; [| lia]. split.
    + apply Rmult_le_pos; [nra |]. left. by apply Rinv_0_lt_compat.
    + apply (Rmult_le_reg_r (IZR (warmup_iters self))); [done |].
      unfold Rdiv. rewrite Rmult_assoc, Rinv_l by lra. nra.
  - apply IZR_le in Hge as Hge'.
    destruct (Z.le_gt_cases it (lr_decay_iters self)) as [Hle | Hgt].
    + apply IZR_le in Hle as Hle'.
      rewrite lr_curve_decay by (lia || lra).
      pose proof (cosine_branch_range self (IZR it) Hmin) as [Hlo Hhi].
      split; [lra | intros _; lra].
    + apply IZR_lt in Hgt as Hgt'.
      rewrite lr_curve_floor by (lia || lra).
      split; [lra | intros _; lra].
Qed.

(** The sample trainer half way down the decay: a rate between min_lr = 0.1
    and learning_rate = 1. *)
Lemma get_lr_within_bounds_witness :
  well_configured sample_trainer ∧ 0 <= min_lr sample_trainer ∧
  ∃ v, _get_lr sample_trainer 3 = Ok v ∧ 0 <= v <= 1 ∧ 0.1 <= v.
Proof.
  assert (Hcfg : well_configured sample_trainer).
  { split; simpl; [lia | lra]. }
  assert (Hfloor : 0 <= min_lr sample_trainer) by (simpl; lra).
  split; [exact Hcfg | split; [exact Hfloor |]].
  destruct (get_lr_within_bounds sample_trainer 3 Hcfg Hfloor) as (v & Hv & Hb & Hm);
    [lia |].
  exists v. split; [exact Hv | split; [exact Hb |]].
  apply Hm. simpl. lia.
Defined.

End ScheduleRangeFacts.

(** ** The report of a successful evaluation *)

Module EvaluationScoreFacts.

Import Training Scores ResultFacts EvaluationFacts.
Local Open Scope R_scope.

(** Writing the losses one by one into the zero tensor gives the list of
    the losses. *)
Lemma losses_filled (f : nat → R) (n m : nat) :
  (m ≤ n)%nat →
  foldl (λ (losses : list R) k, <[k := f k]> losses) (replicate n 0) (seq 0 m)
  = (f <$> seq 0 m) ++ replicate (n - m) 0.
Proof.
  induction m as [| m IH]; intros Hm.
  - simpl. by rewrite Nat.sub_0_r.
  - rewrite seq_S, foldl_app, IH by lia. simpl.
    rewrite fmap_app. simpl.
    replace (n - m)%nat with (S (n - S m)) by lia. simpl.
    rewrite <- app_assoc. simpl.
    rewrite insert_app_r_alt by (rewrite length_fmap, length_seq; lia).
    rewrite length_fmap, length_seq, Nat.sub_diag. done.
Qed.

Lemma losses_of_split self env split :
  foldl (λ (losses : list R) k, <[k := unsupervised_loss env split k]> losses)
        (replicate (Z.to_nat (eval_iters self)) 0)
        (seq 0 (Z.to_nat (eval_iters self)))
  = batch_losses self env split.
Proof.
  rewrite losses_filled by done. rewrite Nat.sub_diag. simpl.
  by rewrite app_nil_r.
Qed.

Lemma judgements_collected (g : nat → list bool) (ks : list nat) (valid : list bool) :
  foldl (λ (valid : list bool) k, valid ++ g k) valid ks
  = valid ++ concat (g <$> ks).
Proof.
  revert valid. induction ks as [| k ks IH]; intros valid; simpl.
  - by rewrite app_nil_r.
  - by rewrite IH, app_assoc.
Qed.

(** The body of the loop over the splits, in closed form. *)
Lemma estimate_split_closed self env split out :
  (0 ≤ eval_iters self)%Z →
  estimate_split self env split out =
  score ← int_div (count_true (judged self env split))
                  (Z.of_nat (length (judged self env split)));
  Ok (<["valid" := score]> (<[split := mean (batch_losses self env split)]> out)).
Proof.
  intros Hiters. unfold estimate_split, zeros.
  destruct (Z.ltb_spec (eval_iters self) 0) as [? | _]; [lia |].
  rewrite bind_of_Ok. cbv zeta.
  by rewrite losses_of_split, judgements_collected.
Qed.

Lemma estimate_split_negative self env split out :
  (eval_iters self < 0)%Z → estimate_split self env split out = Err RuntimeError.
Proof.
  intros Hiters. unfold estimate_split, zeros.
  by destruct (Z.ltb_spec (eval_iters self) 0) as [_ | ?]; [| lia].
Qed.

Lemma int_div_nonzero (a b : Z) : b ≠ 0%Z → int_div a b = Ok (IZR a / IZR b).
Proof. intros Hb. unfold int_div. by destruct (Z.eqb_spec b 0). Qed.

Lemma length_nonzero {A} (l : list A) : l ≠ [] ↔ Z.of_nat (length l) ≠ 0%Z.
Proof. destruct l; simpl; split; (done || lia). Qed.

Lemma valid_fraction_range (valid : list bool) :
  valid ≠ [] → 0 <= valid_fraction valid <= 1.
Proof.
  intros Hne. unfold valid_fraction, count_true.
  assert (Hlen : (0 < length valid)%nat) by (destruct valid; [done | simpl; lia]).
  pose proof (length_filter (λ b, b = true) valid) as Hle.
  assert (Hpos : 0 < IZR (Z.of_nat (length valid))) by (apply IZR_lt; lia).
  assert (Hnum : 0 <= IZR (Z.of_nat (length (filter (λ b, b = true) valid))))
    by (apply IZR_le; lia).
  assert (Hbound : IZR (Z.of_nat (length (filter (λ b, b = true) valid)))
                   <= IZR (Z.of_nat (length valid))) by (apply IZR_le; lia).
  split.
  - apply Rmult_le_pos; [done |]. left. by apply Rinv_0_lt_compat.
  - apply (Rmult_le_reg_r (IZR (Z.of_nat (length valid)))); [done |].
    unfold Rdiv. rewrite Rmult_assoc, Rinv_l by lra. lra.
Qed.

(** X3: [estimate_loss] returns exactly when eval_iters >= 0 and at least
    one generated sample was judged for each of the two splits. It then
    leaves the model in training mode and reports three numbers: under
    'train' and 'val' the mean of the split's batch losses, and under 'valid'
    the fraction of valid samples among those generated during the 'val'
    round, a number between 0 and 1; the fraction computed during the 'train'
    round is overwritten. *)
Theorem estimate_loss_reports_last_split
    (self : Trainer) (env : Collaborators) (training : bool) :
  let ready := (0 ≤ eval_iters self)%Z ∧ judged self env "train" ≠ [] ∧
               judged self env "val" ≠ [] in
  (is_ok (estimate_loss self env training).2 ↔ ready) ∧
  (ready →
   ∃ out, estimate_loss self env training = (true, Ok out) ∧
          dom out = {[ "train"; "val"; "valid" ]} ∧
          out !! "train" = Some (mean (batch_losses self env "train")) ∧
          out !! "val" = Some (mean (batch_losses self env "val")) ∧
          out !! "valid" = Some (valid_fraction (judged self env "val")) ∧
          0 <= valid_fraction (judged self env "val") <= 1).
Proof.
  intros ready.
  assert (Hret : ready →
    ∃ out, estimate_loss self env training = (true, Ok out) ∧
           dom out = {[ "train"; "val"; "valid" ]} ∧
           out !! "train" = Some (mean (batch_losses self env "train")) ∧
           out !! "val" = Some (mean (batch_losses self env "val")) ∧
           out !! "valid" = Some (valid_fraction (judged self env "val")) ∧
           0 <= valid_fraction (judged self env "val") <= 1).
  { intros (Hiters & Htrain & Hval). unfold estimate_loss.
    rewrite !estimate_split_closed by done.
    rewrite int_div_nonzero by (by apply length_nonzero). rewrite !bind_of_Ok.
    rewrite estimate_split_closed by done.
    rewrite int_div_nonzero by (by apply length_nonzero). rewrite !bind_of_Ok.
    eexists. split; [reflexivity |]. split; [| split; [| split; [| split]]].
    - rewrite !dom_insert_L, dom_empty_L. set_solver.
    - rewrite !lookup_insert_ne by done. by rewrite lookup_insert_eq.
    - rewrite lookup_insert_ne by done. by rewrite lookup_insert_eq.
    - by rewrite lookup_insert_eq.
    - by apply valid_fraction_range. }
  split; [| exact Hret]. split.
  - intros [out Hout]. unfold estimate_loss in Hout.
    destruct (Z.lt_ge_cases (eval_iters self) 0) as [Hneg | Hiters].
    { by rewrite estimate_split_negative in Hout. }
    split; [lia |].
    destruct (estimate_split self env "train" ∅) as [out1 |] eqn:H1; [| done].
    rewrite bind_of_Ok in Hout.
    destruct (estimate_split self env "val" out1) as [out2 |] eqn:H2; [| done].
    apply estimate_split_Ok in H1, H2.
    rewrite judgements_collected in H1, H2. done.
  - intros Hready. destruct (Hret Hready) as (out & -> & _). by exists out.
Qed.

(** Three rounds with the sample collaborators: of the six samples judged
    for 'val', five are valid. *)
Lemma estimate_loss_reports_last_split_witness :
  ∃ out, estimate_loss sample_trainer sample_collaborators false = (true, Ok out) ∧
         out !! "valid" = Some (valid_fraction [true; true; true; false; true; true]).
Proof.
  destruct (estimate_loss_reports_last_split sample_trainer sample_collaborators false)
    as [_ Hret].
  destruct Hret as (out & Hout & _ & _ & _ & Hvalid & _).
  { split; [simpl; lia | split; discriminate]. }
  exists out. split; [exact Hout | exact Hvalid].
Defined.

End EvaluationScoreFacts.

(** ** Properties of the trainer's set-up *)

Module SetupFacts.

Import Setup.
Local Open Scope Z_scope.

Lemma outcome_bind_Returned {A B} (r : outcome A) (k : A → outcome B) (b : B) :
  r ≫= k = Returned b ↔ ∃ a, r = Returned a ∧ k a = Returned b.
Proof.
  destruct r as [a | e]; simpl; split.
  - intros H. by exists a.
  - by intros (a' & [= <-] & H).
  - intros H. discriminate H.
  - by intros (a' & H & _).
Qed.

Lemma ranked_lookup environ :
  ranked environ = true → ∃ rank, environ !! "RANK" = Some rank.
Proof.
  unfold ranked. destruct (environ !! "RANK") as [rank |]; [by exists rank |].
  simpl. done.
Qed.

(** The single-process branch of [_ddp]. *)
Lemma ddp_single environ self self' :
  ranked environ && ddp_enabled self = false →
  _ddp environ self = Returned self' →
  model self' = model self ∧
  gradient_accumulation_steps self' = gradient_accumulation_steps self ∧
  device self' = device self ∧ dtype self' = dtype self ∧
  compile self' = compile self ∧ ddp_enabled self' = ddp_enabled self ∧
  unoptimized_model self' = unoptimized_model self ∧
  ddp self' = Some (ranked environ) ∧
  ddp_world_size self' = Some 1 ∧ master_process self' = Some true ∧
  seed_offset self' = Some 0 ∧
  is_returned (getattr_max_seq_len (model self)).
Proof.
  intros Hsingle. unfold _ddp. cbv zeta. rewrite Hsingle.
  intros (s & [= <-] & Hrest)%outcome_bind_Returned. simpl in Hrest.
  destruct (getattr_max_seq_len (model self)) as [n |] eqn:Hn; [| done].
  simpl in Hrest. injection Hrest as <-. simpl.
  repeat (split; [done |]). by exists n.
Qed.

(** X4: when the environment announces a process rank (RANK is set and is
    not -1) and distributed training is enabled, [_ddp] never returns, and
    so neither does the set-up of the trainer: a missing LOCAL_RANK or
    WORLD_SIZE is a KeyError, a world size of 0 a ZeroDivisionError, a number
    of accumulation steps that the world size does not divide an
    AssertionError, and in every remaining case reading [max_seq_len] from
    the model, which is by then wrapped for distributed training, is an
    AttributeError. *)
Theorem ddp_set_up_never_returns (environ : gmap string Z) (self : Trainer) :
  ranked environ = true → ddp_enabled self = true →
  _ddp environ self =
    Failed match environ !! "LOCAL_RANK", environ !! "WORLD_SIZE" with
           | None, _ => KeyError "LOCAL_RANK"
           | Some _, None => KeyError "WORLD_SIZE"
           | Some _, Some world_size =>
               if world_size =? 0 then Raised ZeroDivisionError
               else if gradient_accumulation_steps self `mod` world_size =? 0
               then AttributeError "max_seq_len"
               else Raised AssertionError
           end ∧
  ¬ is_returned (set_up environ self).
Proof.
  intros Hranked Henabled.
  assert (Hddp : ∃ e, _ddp environ self = Failed e ∧
            e = match environ !! "LOCAL_RANK", environ !! "WORLD_SIZE" with
                | None, _ => KeyError "LOCAL_RANK"
                | Some _, None => KeyError "WORLD_SIZE"
                | Some _, Some world_size =>
                    if world_size =? 0 then Raised ZeroDivisionError
                    else if gradient_accumulation_steps self `mod` world_size =? 0
                    then AttributeError "max_seq_len"
                    else Raised AssertionError
                end).
  { unfold _ddp. cbv zeta. rewrite Hranked, Henabled. simpl.
    destruct (ranked_lookup _ Hranked) as [rank Hrank].
    unfold environ_get. rewrite Hrank. simpl.
    destruct (environ !! "LOCAL_RANK") as [local_rank |]; simpl; [| by eexists].
    destruct (environ !! "WORLD_SIZE") as [world_size |]; simpl; [| by eexists].
    destruct (world_size =? 0); [by eexists |].
    destruct (_ `mod` _ =? 0); simpl; by eexists. }
  destruct Hddp as (e & Hfail & ->). split; [exact Hfail |].
  intros [self' Hret]. unfold set_up in Hret. by rewrite Hfail in Hret.
Qed.

(** The second of two processes, with four accumulation steps: the
    AttributeError of line 101. *)
Lemma ddp_set_up_never_returns_witness :
  _ddp sample_environ sample_configured = Failed (AttributeError "max_seq_len").
Proof.
  destruct (ddp_set_up_never_returns sample_environ sample_configured) as [Hfail _].
  - reflexivity.
  - reflexivity.
  - exact Hfail.
Defined.

(** X5: when no process rank is announced or distributed training is
    disabled, the set-up of the trainer (lines 65-68 of [__init__]) returns
    exactly when the configured dtype is one of 'float32', 'bfloat16' and
    'float16' and the model has a [max_seq_len]. The trainer then holds the
    very model it was given, neither wrapped nor compiled, whatever the
    [compile] flag says (the flag only records the model as
    [unoptimized_model]); the number of accumulation steps is unchanged, the
    world size is 1, the process is the master process, the seed is 1337, the
    device type is 'cuda' if the device name contains 'cuda' and 'cpu'
    otherwise, and the checkpoint record starts at iteration 0. *)
Theorem single_process_set_up_keeps_model (environ : gmap string Z) (self : Trainer) :
  ranked environ && ddp_enabled self = false →
  (is_returned (set_up environ self) ↔
     dtype self ∈ ["float32"; "bfloat16"; "float16"] ∧
     is_returned (getattr_max_seq_len (model self))) ∧
  ∀ self', set_up environ self = Returned self' →
    model self' = model self ∧
    unoptimized_model self' =
      (if compile self then Some (model self) else unoptimized_model self) ∧
    gradient_accumulation_steps self' = gradient_accumulation_steps self ∧
    ddp_world_size self' = Some 1 ∧ master_process self' = Some true ∧
    manual_seed self' = Some 1337 ∧
    device_type self' =
      Some (if contains "cuda" (device self) then "cuda" else "cpu")%string ∧
    ckpt self' = Some {[ "iter_num" := 0; "best_val_loss" := 1000000000 ]}.
Proof.
  intros Hsingle.
  assert (Hrun : ∀ self', set_up environ self = Returned self' →
    dtype self ∈ ["float32"; "bfloat16"; "float16"] ∧
    is_returned (getattr_max_seq_len (model self)) ∧
    model self' = model self ∧
    unoptimized_model self' =
      (if compile self then Some (model self) else unoptimized_model self) ∧
    gradient_accumulation_steps self' = gradient_accumulation_steps self ∧
    ddp_world_size self' = Some 1 ∧ master_process self' = Some true ∧
    manual_seed self' = Some 1337 ∧
    device_type self' =
      Some (if contains "cuda" (device self) then "cuda" else "cpu")%string ∧
    ckpt self' = Some {[ "iter_num" := 0; "best_val_loss" := 1000000000 ]}).
  { intros self'. unfold set_up.
    intros (s1 & H1 & (s2 & H2 & (s3 & H3 & [= <-])%outcome_bind_Returned)
              %outcome_bind_Returned)%outcome_bind_Returned.
    apply (ddp_single _ _ _ Hsingle) in H1
      as (Hm & Hg & Hdev & Hdt & Hc & Hen & Hun & Hddp & Hws & Hmp & Hso & Hmsl).
    unfold _post_init in H2. rewrite Hmp, Hso in H2. simpl in H2.
    case_bool_decide as Hdtype; [| done]. injection H2 as <-.
    unfold _post_init_model in H3. simpl in H3. rewrite Hddp in H3. simpl in H3.
    rewrite Hen, Hsingle in H3. simpl in H3. injection H3 as <-. simpl.
    rewrite Hdt in Hdtype. rewrite Hc, Hm, Hun, Hdev.
    repeat (split; [done |]). done. }
  split.
  - split.
    + intros [self' Hret]. destruct (Hrun self' Hret) as (? & ? & _). done.
    + intros [Hdtype [n Hn]]. unfold set_up, _ddp. cbv zeta. rewrite Hsingle.
      simpl. rewrite Hn. simpl. unfold _post_init. simpl.
      rewrite bool_decide_true by done.
      unfold _post_init_model. simpl. rewrite Hsingle. simpl. by eexists.
  - intros self' Hret. destruct (Hrun self' Hret) as (_ & _ & Hrest). exact Hrest.
Qed.

(** The sample configuration without a launcher: the model comes back as it
    went in, although [compile] is set. *)
Lemma single_process_set_up_keeps_model_witness :
  ∃ self', set_up ∅ sample_configured = Returned self' ∧
           model self' = Net 128 ∧ unoptimized_model self' = Some (Net 128).
Proof.
  destruct (single_process_set_up_keeps_model ∅ sample_configured) as [Hiff Hkeep].
  { reflexivity. }
  destruct (proj2 Hiff) as [self' Hret].
  { split; [| by exists 128]. simpl. rewrite !elem_of_cons. tauto. }
  exists self'. split; [exact Hret |].
  destruct (Hkeep self' Hret) as (Hm & Hu & _). by split.
Defined.

End SetupFacts.

(** ** Properties of the chemistry utilities *)

Module ChemistryFacts.

Import Chemistry.

Lemma canonicalize_None (Chem : Toolkit) smiles stereo :
  canonicalize Chem smiles stereo = None ↔ MolFromSmiles Chem smiles = None.
Proof. unfold canonicalize. by destruct (MolFromSmiles Chem smiles). Qed.

(** X6: a SMILES string that [is_valid] accepts is not empty, parses to a
    molecule with at least one atom, and has a canonical form: [canonicalize]
    does not return None on it. The empty string is never valid, even when
    the toolkit parses it. A string that [smiles_to_rdkit_mol] converts has a
    canonical form as well. *)
Theorem valid_smiles_have_canonical_form
    (Chem : Toolkit) (smiles : string) (include_stereocenters : bool) :
  (is_valid Chem smiles = true →
   smiles ≠ "" ∧
   ∃ mol, MolFromSmiles Chem smiles = Some mol ∧ (0 < GetNumAtoms Chem mol)%Z ∧
          canonicalize Chem smiles include_stereocenters
          = Some (MolToSmiles Chem mol include_stereocenters)) ∧
  is_valid Chem "" = false ∧
  (∀ mol, smiles_to_rdkit_mol Chem smiles = Ok (Some mol) →
          is_Some (canonicalize Chem smiles include_stereocenters)).
Proof.
  split; [| split].
  - unfold is_valid, canonicalize. intros [Hne Hmol]%andb_true_iff.
    split.
    { intros ->. done. }
    destruct (MolFromSmiles Chem smiles) as [mol |]; [| done].
    exists mol. split; [done |]. split; [lia | done].
  - done.
  - unfold smiles_to_rdkit_mol, canonicalize. intros mol.
    destruct (MolFromSmiles Chem smiles) as [mol0 |]; [by eexists | done].
Qed.

(** In the toy toolkit 'CC' is valid and canonical. *)
Lemma valid_smiles_have_canonical_form_witness :
  is_valid sample_toolkit "CC" = true ∧
  canonicalize sample_toolkit "CC" true = Some "CC"%string.
Proof.
  destruct (valid_smiles_have_canonical_form sample_toolkit "CC" true)
    as (Hvalid & _ & _).
  destruct Hvalid as (_ & mol & Hmol & _ & Hcanon); [reflexivity |].
  split; [reflexivity |]. rewrite Hcanon. injection Hmol as <-. reflexivity.
Defined.

(** X7: [canonicalize_list] drops the strings that the toolkit cannot
    parse before anything else sees them: inserting such strings anywhere in
    the input does not change the result. *)
Theorem unparseable_smiles_are_dropped
    (Chem : Toolkit) (before bad after : list string)
    (include_stereocenters : bool) :
  Forall (λ smiles, MolFromSmiles Chem smiles = None) bad →
  canonicalize_list Chem (before ++ bad ++ after) include_stereocenters
  = canonicalize_list Chem (before ++ after) include_stereocenters.
Proof.
  intros Hbad. unfold canonicalize_list. cbv zeta. f_equal.
  rewrite !fmap_app, !omap_app. f_equal.
  replace (omap (λ s : option string, s)
             ((λ smiles, canonicalize Chem smiles include_stereocenters) <$> bad))
    with (@nil string); [done |].
  induction Hbad as [| smiles bad Hs _ IH]; [done |].
  simpl. rewrite (proj2 (canonicalize_None Chem smiles include_stereocenters) Hs).
  simpl. exact IH.
Qed.

(** In the toy toolkit 'N' does not parse. *)
Lemma unparseable_smiles_are_dropped_witness :
  canonicalize_list sample_toolkit (["C"] ++ ["N"] ++ ["CC"]) true
  = canonicalize_list sample_toolkit (["C"] ++ ["CC"]) true.
Proof.
  apply (unparseable_smiles_are_dropped sample_toolkit ["C"] ["N"] ["CC"] true).
  repeat constructor.
Defined.

End ChemistryFacts.

(** ** The attention mask on the causal route, by class *)

Module CausalMaskFacts.

Import Tensor Model Classes ResultFacts ModelFacts.
Local Open Scope R_scope.

Lemma get_layers_as_dict (o : TransformerOutput) :
  get_layers (as_dict o) "layer_embeddings" = body_layer_embeddings o.
Proof.
  unfold get_layers, as_dict. destruct (body_layer_embeddings o) as [l |].
  - by rewrite lookup_insert_eq.
  - by rewrite lookup_singleton_ne.
Qed.

(** On an instance of [Jointformer] itself, [forward] is [Model.forward]. *)
Lemma forward_of_Jointformer self ids task mask nto :
  forward class_Jointformer self ids task mask nto =
  Model.forward self ids task mask nto
  ≫= λ o : ModelOutput, Ok (of_ModelOutput o).
Proof.
  unfold forward, Model.forward.
  destruct (route task mask) as [[c m] | e]; [| done].
  rewrite !bind_of_Ok. cbv beta iota.
  destruct (transformer_forward self ids m c) as [o | e]; [| done].
  rewrite !bind_of_Ok. cbn [get_cls_embeddings get_lm_embeddings class_Jointformer].
  destruct (_get_cls_embeddings (body_embeddings o)) as [cls | e]; [| done].
  rewrite !bind_of_Ok.
  destruct (_get_lm_embeddings (body_embeddings o) nto) as [lm | e]; [| done].
  rewrite !bind_of_Ok. destruct c.
  - destruct (linear3 (lm_head self) lm) as [lg | e]; [| done].
    rewrite !bind_of_Ok. unfold of_ModelOutput. cbn.
    unfold get_tensor3, get_tensor2.
    rewrite lookup_insert_eq, !lookup_insert_ne by done.
    by rewrite !as_dict_lookup_other, get_layers_as_dict.
  - rewrite !bind_of_Ok. unfold of_ModelOutput. cbn.
    unfold get_tensor3, get_tensor2.
    rewrite !lookup_insert_eq.
    rewrite (lookup_insert_ne _ "logits_prediction" "logits_physchem") by done.
    rewrite lookup_insert_eq, !lookup_insert_ne by done.
    by rewrite as_dict_lookup_other, get_layers_as_dict.
Qed.

(** What a returning call on the causal route has done, whatever the
    class: the body ran without a mask, and the caller's mask went to
    [_get_cls_embeddings] and to the [attention_mask] field. *)
Lemma forward_generation_Ok {S} (cls : Class S) self ids mask nto
    (out : Output S) :
  forward cls self ids "generation" mask nto = Ok out →
  ∃ o lg,
    transformer_forward self ids None true = Ok o ∧
    get_cls_embeddings cls (body_embeddings o) mask = Ok (cls_embeddings out) ∧
    get_lm_embeddings cls (body_embeddings o) nto = Ok (lm_embeddings out) ∧
    linear3 (lm_head self) (lm_embeddings out) = Ok lg ∧
    attention_mask out = mask ∧
    embeddings out = body_embeddings o ∧
    logits_generation out = Some lg ∧
    logits_physchem out = None ∧ logits_prediction out = None ∧
    layer_embeddings out = body_layer_embeddings o ∧
    loss out = None.
Proof.
  unfold forward. rewrite route_generation, bind_of_Ok. cbv beta iota.
  intros (o & Ho & (c & Hc & (lm & Hlm & (lg & Hlg & [= <-])%bind_Ok)%bind_Ok)%bind_Ok)%bind_Ok.
  exists o, lg. cbn. by repeat split.
Qed.

(** A class whose [_get_cls_embeddings] ignores the mask. *)
Lemma forward_generation_mask_free {S} (cls : Class S) self ids mask nto :
  (∀ e m, get_cls_embeddings cls e m = get_cls_embeddings cls e None) →
  forward cls self ids "generation" mask nto =
  forward cls self ids "generation" None nto
  ≫= λ o : Output S, Ok (with_attention_mask o mask).
Proof.
  intros Hfree. unfold forward. rewrite !route_generation, !bind_of_Ok.
  cbv beta iota.
  destruct (transformer_forward self ids None true) as [o | e]; [| done].
  rewrite !bind_of_Ok, (Hfree _ mask).
  destruct (get_cls_embeddings cls (body_embeddings o) None) as [c | e]; [| done].
  rewrite !bind_of_Ok.
  destruct (get_lm_embeddings cls (body_embeddings o) nto) as [lm | e]; [| done].
  rewrite !bind_of_Ok.
  destruct (linear3 (lm_head self) lm) as [lg | e]; [| done].
  reflexivity.
Qed.

Lemma get_loss_lm_mask_free {S} (cls : Class S) F self ids mask labels :
  (∀ e m, get_cls_embeddings cls e m = get_cls_embeddings cls e None) →
  get_loss_lm cls F self ids mask labels =
  get_loss_lm cls F self ids None labels
  ≫= λ o : Output S, Ok (with_attention_mask o mask).
Proof.
  intros Hfree. unfold get_loss_lm.
  rewrite (forward_generation_mask_free cls self ids mask false Hfree).
  destruct (forward cls self ids "generation" None false) as [o | e]; [| done].
  rewrite !bind_of_Ok.
  destruct labels as [labels |]; [| done].
  change (logits_generation (with_attention_mask o mask))
    with (logits_generation o).
  destruct (logits_generation o) as [lg |]; done.
Qed.

(** Two returning calls on the causal route differ at most in the summary
    and in the [attention_mask] field. *)
Lemma forward_generation_agree {S} (cls : Class S) self ids mask mask' nto
    (out out' : Output S) :
  forward cls self ids "generation" mask nto = Ok out →
  forward cls self ids "generation" mask' nto = Ok out' →
  embeddings out' = embeddings out ∧
  lm_embeddings out' = lm_embeddings out ∧
  logits_generation out' = logits_generation out ∧
  layer_embeddings out' = layer_embeddings out.
Proof.
  intros (o & lg & Ho & _ & Hlm & Hlg & _ & He & Hg & _ & _ & Hl & _)%forward_generation_Ok
         (o' & lg' & Ho' & _ & Hlm' & Hlg' & _ & He' & Hg' & _ & _ & Hl' & _)%forward_generation_Ok.
  assert (o' = o) as -> by congruence.
  assert (Heq : lm_embeddings out' = lm_embeddings out) by congruence.
  rewrite Heq in Hlg'. assert (lg' = lg) as -> by congruence.
  rewrite He, He', Hg, Hg', Hl, Hl'. done.
Qed.

Lemma get_loss_lm_agree {S} (cls : Class S) F self ids mask mask' labels
    (out out' : Output S) :
  get_loss_lm cls F self ids mask labels = Ok out →
  get_loss_lm cls F self ids mask' labels = Ok out' →
  logits_generation out' = logits_generation out ∧ loss out' = loss out.
Proof.
  unfold get_loss_lm.
  intros (out0 & Hf & Hrest)%bind_Ok (out0' & Hf' & Hrest')%bind_Ok.
  destruct (forward_generation_agree _ _ _ _ _ _ _ _ Hf Hf') as (_ & _ & Hg & _).
  apply forward_generation_Ok in Hf as (_ & _ & _ & _ & _ & _ & _ & _ & _ & _ & _ & _ & Hloss).
  apply forward_generation_Ok in Hf' as (_ & _ & _ & _ & _ & _ & _ & _ & _ & _ & _ & _ & Hloss').
  destruct labels as [labels |].
  - rewrite Hg in Hrest'.
    destruct (logits_generation out0) as [lg |] eqn:Hg0; [| done].
    apply bind_Ok in Hrest as (lg1 & [= <-] & [= <-]).
    apply bind_Ok in Hrest' as (lg2 & [= <-] & [= <-]). cbn.
    by rewrite Hg, Hg0.
  - injection Hrest as <-. injection Hrest' as <-. by rewrite Hloss, Hloss'.
Qed.

Lemma Rmax_of_le (x y : R) : x <= y → Rmax x y = y.
Proof. intros H. unfold Rmax. destruct (Rle_dec x y); [done | lra]. Qed.

(** X8: where the attention mask goes on the causal route. [forward] with
    task 'generation' runs the transformer body without a mask and passes
    the caller's mask only to the method [_get_cls_embeddings] of the
    instance and to the [attention_mask] field of the result. For an
    instance of [Jointformer] or of [JointformerWithPrefix], whose method
    ignores it, [forward] with task 'generation' and [get_loss_lm] give for
    any mask what they give with attention_mask=None (the same result or the
    same exception), apart from that field. For an instance of
    [JointformerWithMaxEmbeddings], whose method reads it, two returning
    calls with different masks still agree on embeddings, lm_embeddings, the
    generation logits and the loss, but cls_embeddings is the maximum over
    the positions kept by the caller's mask: on the 2 x 4 batch, hiding the
    last position of the first sequence changes its summary from (4, 1) to
    (3, 1), and a mask with three rows makes the call raise RuntimeError. *)
Theorem causal_route_passes_mask_to_cls_method_only
    (F : Externals) (self : Jointformer) (ids : list (list Z))
    (mask mask' : option (list (list bool))) (nto : bool)
    (labels : option (list (list Z)))
    (on_summary : (list (list R) → list (list R)) → list (list xreal)
                  → list (list R)) :
  let with_max := class_JointformerWithMaxEmbeddings on_summary in
  (∀ cls, cls = class_Jointformer ∨ cls = class_JointformerWithPrefix →
     forward cls self ids "generation" mask nto =
       (forward cls self ids "generation" None nto
        ≫= λ o : Output (list (list R)), Ok (with_attention_mask o mask)) ∧
     get_loss_lm cls F self ids mask labels =
       (get_loss_lm cls F self ids None labels
        ≫= λ o : Output (list (list R)), Ok (with_attention_mask o mask))) ∧
  (∀ out, forward with_max self ids "generation" mask nto = Ok out →
     (∃ o, transformer_forward self ids None true = Ok o ∧
           embeddings out = body_embeddings o) ∧
     attention_mask out = mask ∧
     JointformerWithMaxEmbeddings._get_cls_embeddings (embeddings out) mask
       = Ok (cls_embeddings out) ∧
     ∀ out', forward with_max self ids "generation" mask' nto = Ok out' →
       embeddings out' = embeddings out ∧
       lm_embeddings out' = lm_embeddings out ∧
       logits_generation out' = logits_generation out ∧
       layer_embeddings out' = layer_embeddings out) ∧
  (∀ out out', get_loss_lm with_max F self ids mask labels = Ok out →
     get_loss_lm with_max F self ids mask' labels = Ok out' →
     logits_generation out' = logits_generation out ∧ loss out' = loss out) ∧
  (∃ out out',
     forward with_max sample_model sample_ids "generation"
       (Some sample_mask_all) false = Ok out ∧
     forward with_max sample_model sample_ids "generation"
       (Some sample_mask_padded) false = Ok out' ∧
     cls_embeddings out = [[Fin 4; Fin 1]; [Fin 8; Fin 1]] ∧
     cls_embeddings out' = [[Fin 3; Fin 1]; [Fin 8; Fin 1]]) ∧
  is_ok (forward with_max sample_model sample_ids "generation" None false) ∧
  forward with_max sample_model sample_ids "generation"
    (Some sample_mask_misshaped) false = Err RuntimeError.
Proof.
  intros with_max. split; [| split; [| split; [| split; [| split]]]].
  - intros cls Hcls.
    assert (Hfree : ∀ e m, get_cls_embeddings cls e m
                           = get_cls_embeddings cls e None)
      by (by destruct Hcls as [-> | ->]).
    split.
    + by apply forward_generation_mask_free.
    + by apply get_loss_lm_mask_free.
  - intros out Hf.
    pose proof Hf as (o & lg & Ho & Hc & _ & _ & Hm & He & _)%forward_generation_Ok.
    split; [by exists o |]. split; [done |]. split; [by rewrite He |].
    intros out' Hf'. by apply (forward_generation_agree with_max self ids mask mask' nto).
  - intros out out'. apply get_loss_lm_agree.
  - eexists _, _. split; [reflexivity |]. split; [reflexivity |].
    cbn.
    repeat match goal with
           | |- context [Rmax ?x ?y] => rewrite (Rmax_of_le x y) by lra
           end.
    done.
  - by eexists.
  - reflexivity.
Qed.

(** The sample batch on an instance of [JointformerWithMaxEmbeddings],
    with every position kept and with the last position of the first
    sequence hidden. *)
Lemma causal_route_passes_mask_to_cls_method_only_witness :
  ∃ out out',
    forward (class_JointformerWithMaxEmbeddings (λ head _, head []))
      sample_model sample_ids "generation" (Some sample_mask_all) false
      = Ok out ∧
    forward (class_JointformerWithMaxEmbeddings (λ head _, head []))
      sample_model sample_ids "generation" (Some sample_mask_padded) false
      = Ok out' ∧
    attention_mask out = Some sample_mask_all ∧
    JointformerWithMaxEmbeddings._get_cls_embeddings (embeddings out)
      (Some sample_mask_all) = Ok (cls_embeddings out) ∧
    embeddings out' = embeddings out ∧
    logits_generation out' = logits_generation out.
Proof.
  assert (Hret : is_ok (forward (class_JointformerWithMaxEmbeddings (λ head _, head []))
                          sample_model sample_ids "generation"
                          (Some sample_mask_all) false)).
  { eexists. reflexivity. }
  assert (Hret' : is_ok (forward (class_JointformerWithMaxEmbeddings (λ head _, head []))
                           sample_model sample_ids "generation"
                           (Some sample_mask_padded) false)).
  { eexists. reflexivity. }
  destruct Hret as [out Hout]. destruct Hret' as [out' Hout'].
  exists out, out'. split; [exact Hout |]. split; [exact Hout' |].
  pose proof (causal_route_passes_mask_to_cls_method_only sample_externals
                sample_model sample_ids (Some sample_mask_all)
                (Some sample_mask_padded) false None (λ head _, head []))
    as (_ & Hmax & _).
  destruct (Hmax out Hout) as (_ & Hmask & Hcls & Hagree).
  destruct (Hagree out' Hout') as (Hemb & _ & Hlogits & _).
  split; [exact Hmask |]. split; [exact Hcls |]. split; [exact Hemb | exact Hlogits].
Defined.

End CausalMaskFacts.

(** ** Properties of the losses and of the masking modes of the model *)

Module LossFacts.

Import Tensor Model Outputs ResultFacts TensorFacts ModelFacts.
Local Open Scope R_scope.

(** *** When a loss is computed *)

Lemma get_loss_lm_loss F self ids mask labels out :
  get_loss_lm F self ids mask labels = Ok out →
  (is_Some (loss out) ↔ is_Some labels).
Proof.
  unfold get_loss_lm. intros (out0 & Hf & Hrest)%bind_Ok.
  apply forward_Ok in Hf as (Hloss & _).
  destruct labels as [labels |].
  - apply bind_Ok in Hrest as (lg & _ & [= <-]). simpl. by split.
  - injection Hrest as <-. rewrite Hloss. by split; intros [? ?].
Qed.

Lemma get_loss_mlm_loss F self ids mask labels out :
  get_loss_mlm F self ids mask labels = Ok out →
  (is_Some (loss out) ↔ is_Some labels).
Proof.
  unfold get_loss_mlm. intros (out0 & Hf & (lg & _ & Hrest)%bind_Ok)%bind_Ok.
  apply forward_Ok in Hf as (Hloss & _).
  destruct labels as [labels |]; injection Hrest as <-; simpl.
  - by split.
  - rewrite Hloss. by split; intros [? ?].
Qed.

Lemma get_loss_physchem_loss F self ids mask props out :
  get_loss_physchem F self ids mask props = Ok out →
  (is_Some (loss out) ↔ is_Some props).
Proof.
  unfold get_loss_physchem, predict. intros (out0 & Hf & Hrest)%bind_Ok.
  apply forward_Ok in Hf as (Hloss & _).
  destruct props as [props |].
  - apply bind_Ok in Hrest as (lp & _ & [= <-]). simpl. by split.
  - injection Hrest as <-. rewrite Hloss. by split; intros [? ?].
Qed.

Lemma get_loss_prediction_loss F self ids mask props out :
  get_loss_prediction F self ids mask props = Ok out →
  (is_Some (loss out) ↔ is_Some props).
Proof.
  unfold get_loss_prediction, predict. intros (out0 & Hf & Hrest)%bind_Ok.
  apply forward_Ok in Hf as (Hloss & _).
  destruct props as [props |].
  - assert (Hset : is_Some (loss out)); [| by split].
    destruct (String.eqb (prediction_task_type self) "classification").
    + destruct (num_prediction_tasks self =? 1)%Z.
      { apply bind_Ok in Hrest as (lp & _ & [= <-]). by eexists. }
      destruct (num_prediction_tasks self >? 1)%Z; [| done].
      apply bind_Ok in Hrest as (lp & _ & [= <-]). by eexists.
    + destruct (String.eqb (prediction_task_type self) "regression"); [| done].
      apply bind_Ok in Hrest as (lp & _ & [= <-]). by eexists.
  - injection Hrest as <-. rewrite Hloss. by split; intros [? ?].
Qed.

(** X9: whenever [get_loss] returns, the output carries a loss exactly
    when the supervision of the task was supplied: the labels for 'lm',
    'generation' and 'mlm', the properties for 'prediction' and 'physchem'.
    Without them the call is a forward pass and no loss is computed. *)
Theorem get_loss_sets_loss_iff_supervised
    (F : Externals) (self : Jointformer) (ids : list (list Z))
    (mask : option (list (list bool))) (task : string)
    (labels : option (list (list Z))) (props : option (list (list R)))
    (out : ModelOutput) :
  get_loss F self ids mask task labels props = Ok out →
  task ∈ loss_tasks ∧
  (is_Some (loss out) ↔
   if bool_decide (task ∈ ["lm"; "generation"; "mlm"])
   then is_Some labels else is_Some props).
Proof.
  unfold get_loss, loss_tasks.
  destruct (String.eqb_spec task "lm") as [-> | Hlm].
  { intros H%get_loss_lm_loss. split; [by repeat constructor | done]. }
  destruct (String.eqb_spec task "generation") as [-> | Hgen].
  { intros H%get_loss_lm_loss. split; [by repeat constructor | done]. }
  destruct (String.eqb_spec task "mlm") as [-> | Hmlm].
  { intros H%get_loss_mlm_loss. split; [by repeat constructor | done]. }
  simpl.
  rewrite bool_decide_false.
  2:{ rewrite !elem_of_cons. intros [? | [? | [? | ?%elem_of_nil]]]; done. }
  destruct (String.eqb_spec task "prediction") as [-> | Hpred].
  { intros H%get_loss_prediction_loss. split; [by repeat constructor | done]. }
  destruct (String.eqb_spec task "physchem") as [-> | Hphys]; [| done].
  intros H%get_loss_physchem_loss. split; [by repeat constructor | done].
Qed.

(** The sample model under task 'lm', with labels: a loss is set. *)
Lemma get_loss_sets_loss_iff_supervised_witness :
  ∃ out, get_loss sample_externals sample_model sample_ids None "lm"
           (Some sample_ids) None = Ok out ∧
         is_Some (loss out).
Proof.
  destruct (sample_body_shape None true) as (o & Ho & Hshape).
  destruct (forward_generation_shape sample_model sample_ids None false o 2 4
              sample_model_constructed Ho Hshape) as (out0 & lg & Hf & Hlg & _);
    [lia |].
  assert (Hloss : is_ok (get_loss sample_externals sample_model sample_ids None
                           "lm" (Some sample_ids) None)).
  { change (is_ok (get_loss_lm sample_externals sample_model sample_ids None
                     (Some sample_ids))).
    unfold get_loss_lm. rewrite Hf, bind_of_Ok, Hlg. by eexists. }
  destruct Hloss as [out Hout]. exists out. split; [exact Hout |].
  destruct (get_loss_sets_loss_iff_supervised _ _ _ _ _ _ _ _ Hout) as [_ Hiff].
  apply Hiff. by eexists.
Defined.

(** *** Which logits meet which labels *)

Lemma lookup_concat_uniform {A} (n : nat) (ls : list (list A)) (b t : nat) :
  Forall (λ l, length l = n) ls → (t < n)%nat →
  concat ls !! (b * n + t)%nat = ls !! b ≫= (.!! t).
Proof.
  intros Hls Ht. revert b. induction Hls as [| l ls Hl _ IH]; intros b.
  - simpl. by rewrite lookup_nil.
  - destruct b as [| b]; simpl.
    + rewrite lookup_app_l by lia. done.
    + rewrite lookup_app_r by lia.
      replace (n + b * n + t - length l)%nat with (b * n + t)%nat by lia.
      apply IH.
Qed.

(** X10: the language-modelling loss pairs each position with the next
    token. For logits of shape (B, T, V) and labels of shape (B, T),
    [get_loss_lm] hands [cross_entropy] B * (T - 1) rows of logits and as
    many targets; the pair for position t of sequence b holds the logits at
    (b, t) and the label at (b, t + 1), so the logits of the last position
    and the label of the first position of each sequence are left out. *)
Theorem lm_loss_pairs_position_with_next_label
    (F : Externals) (self : Jointformer) (ids : list (list Z))
    (mask : option (list (list bool))) (labels : list (list Z))
    (out : ModelOutput) (lg : list (list (list R))) (B T V : nat) :
  get_loss_lm F self ids mask (Some labels) = Ok out →
  logits_generation out = Some lg → has_shape3 B T V lg →
  length labels = B → Forall (λ row, length row = T) labels →
  ∃ logits targets,
    loss out = Some (cross_entropy F logits targets (TOKEN_DICT_ignore F)) ∧
    length logits = (B * (T - 1))%nat ∧ length targets = (B * (T - 1))%nat ∧
    ∀ b t, (t + 1 < T)%nat →
      logits !! (b * (T - 1) + t)%nat = at_position lg b t ∧
      targets !! (b * (T - 1) + t)%nat = at_position labels b (t + 1).
Proof.
  unfold get_loss_lm. intros (out0 & Hf & Hrest)%bind_Ok Hlg [HB Hshape] HlB Hlabels.
  apply bind_Ok in Hrest as (lg0 & Hlg0 & [= <-]). simpl in *.
  unfold subscript in Hlg0. rewrite Hlg in Hlg0. injection Hlg0 as <-.
  set (logits := (λ tb : list (list R), take (length tb - 1) tb) <$> lg).
  set (targets := tail <$> labels).
  assert (Hlogits : Forall (λ l, length l = (T - 1)%nat) logits).
  { apply Forall_fmap. eapply Forall_impl; [exact Hshape |].
    intros tb [HT _]. simpl. rewrite length_take. lia. }
  assert (Htargets : Forall (λ l, length l = (T - 1)%nat) targets).
  { apply Forall_fmap. eapply Forall_impl; [exact Hlabels |].
    intros row HT. simpl. destruct row; simpl in *; lia. }
  exists (concat logits), (concat targets). split; [done |].
  split; [| split].
  - rewrite (length_concat_uniform (T - 1)) by done.
    unfold logits. rewrite length_fmap. lia.
  - rewrite (length_concat_uniform (T - 1)) by done.
    unfold targets. rewrite length_fmap. lia.
  - intros b t Ht. rewrite !(lookup_concat_uniform (T - 1)) by (done || lia).
    unfold at_position, logits, targets. rewrite !list_lookup_fmap. split.
    + destruct (lg !! b) as [tb |] eqn:Hb; [| done]. simpl.
      apply lookup_take_lt.
      rewrite Forall_lookup in Hshape. destruct (Hshape _ _ Hb) as [-> _]. lia.
    + destruct (labels !! b) as [row |]; [| done]. simpl.
      rewrite lookup_tail. f_equal. lia.
Qed.

(** The sample model on the 2 x 4 batch: six pairs. *)
Lemma lm_loss_pairs_position_with_next_label_witness :
  ∃ out logits targets,
    get_loss_lm sample_externals sample_model sample_ids None (Some sample_ids)
      = Ok out ∧
    loss out = Some (cross_entropy sample_externals logits targets
                       (TOKEN_DICT_ignore sample_externals)) ∧
    length logits = 6%nat ∧ length targets = 6%nat.
Proof.
  destruct (sample_body_shape None true) as (o & Ho & Hshape).
  destruct (forward_generation_shape sample_model sample_ids None false o 2 4
              sample_model_constructed Ho Hshape) as (out0 & lg & Hf & Hlg & Hlgs);
    [lia |].
  assert (Hloss : get_loss_lm sample_externals sample_model sample_ids None
                    (Some sample_ids)
                  = Ok (set_loss out0
                          (cross_entropy sample_externals
                             (concat ((λ tb : list (list R), take (length tb - 1) tb)
                                        <$> lg))
                             (concat (tail <$> sample_ids))
                             (TOKEN_DICT_ignore sample_externals)))).
  { unfold get_loss_lm. by rewrite Hf, bind_of_Ok, Hlg. }
  destruct (lm_loss_pairs_position_with_next_label sample_externals sample_model
              sample_ids None sample_ids _ lg 2 4 10 Hloss Hlg Hlgs)
    as (logits & targets & Hl & Hn & Hm & _).
  { reflexivity. }
  { repeat constructor. }
  eexists _, logits, targets. split; [exact Hloss |].
  split; [exact Hl | split; [exact Hn | exact Hm]].
Defined.

(** X11: the masked-language-modelling loss pairs each position with its
    own label. [get_loss_mlm] replaces the generation logits by those of the
    MLM head at every position of the embeddings; for logits of shape
    (B, T, V) and labels of shape (B, T) it hands [cross_entropy] B * T rows
    and as many targets, the logits at (b, t) with the label at (b, t). The
    logits of the two prediction heads, which the bidirectional forward pass
    has computed, stay in the output. *)
Theorem mlm_loss_pairs_position_with_own_label
    (F : Externals) (self : Jointformer) (ids : list (list Z))
    (mask : option (list (list bool))) (labels : list (list Z))
    (out : ModelOutput) (B T V : nat) :
  get_loss_mlm F self ids mask (Some labels) = Ok out →
  ∃ lg, linear3 (mlm_head self) (embeddings out) = Ok lg ∧
        logits_generation out = Some lg ∧
        is_Some (logits_physchem out) ∧ is_Some (logits_prediction out) ∧
        (has_shape3 B T V lg → (0 < T)%nat →
         length labels = B → Forall (λ row, length row = T) labels →
         ∃ logits targets,
           loss out = Some (cross_entropy F logits targets (TOKEN_DICT_ignore F)) ∧
           length logits = (B * T)%nat ∧ length targets = (B * T)%nat ∧
           ∀ b t, (t < T)%nat →
             logits !! (b * T + t)%nat = at_position lg b t ∧
             targets !! (b * T + t)%nat = at_position labels b t).
Proof.
  unfold get_loss_mlm. intros (out0 & Hf & (lg & Hlg & [= <-])%bind_Ok)%bind_Ok.
  apply forward_Ok in Hf as (_ & _ & [[Hne _] | (_ & _ & Hphys & Hpred)]); [done |].
  exists lg. simpl. split; [done |]. split; [done |].
  split; [by rewrite Hphys |]. split; [by rewrite Hpred |].
  intros [HB Hshape] HT HlB Hlabels.
  assert (Hrows : Forall (λ l : list (list R), length l = T) lg).
  { eapply Forall_impl; [exact Hshape |]. by intros tb [? _]. }
  exists (concat lg), (concat labels). split; [done |].
  split; [| split].
  - rewrite (length_concat_uniform T) by done. lia.
  - rewrite (length_concat_uniform T) by done. lia.
  - intros b t Ht. by rewrite !(lookup_concat_uniform T) by done.
Qed.

(** The sample model on the 2 x 4 batch under task 'mlm'. *)
Lemma mlm_loss_pairs_position_with_own_label_witness :
  ∃ out lg,
    get_loss_mlm sample_externals sample_model sample_ids None (Some sample_ids)
      = Ok out ∧
    logits_generation out = Some lg ∧
    is_Some (logits_physchem out) ∧ is_Some (logits_prediction out).
Proof.
  assert (Hloss : is_ok (get_loss_mlm sample_externals sample_model sample_ids None
                           (Some sample_ids))) by (eexists; vm_compute; reflexivity).
  destruct Hloss as [out Hout].
  destruct (mlm_loss_pairs_position_with_own_label sample_externals sample_model
              sample_ids None sample_ids out 2 4 10 Hout)
    as (lg & _ & Hlg & Hphys & Hpred & _).
  exists out, lg. split; [exact Hout |].
  split; [exact Hlg | split; [exact Hphys | exact Hpred]].
Defined.

(** *** Sequences without positions *)

Lemma mapM_Err {A B} (f : A → result B) (l : list A) (e : exn) :
  Forall (λ x, is_ok (f x) ∨ f x = Err e) l →
  Exists (λ x, f x = Err e) l → mapM f l = Err e.
Proof.
  induction 1 as [| x l Hx Hl IH]; intros Hex; [by inversion Hex |].
  rewrite mapM_cons. destruct Hx as [[y Hy] | Hx]; [| by rewrite Hx].
  rewrite Hy, bind_of_Ok.
  inversion Hex as [? ? Hhere | ? ? Hlater]; subst; [congruence |].
  by rewrite (IH Hlater).
Qed.

(** X12: if the body returns hidden states in which some sequence has no
    position at all, [forward] raises IndexError on every route, the causal
    one included, since the embedding of position 0 is read before the route
    is looked at. *)
Theorem forward_needs_a_first_position
    (self : Jointformer) (ids : list (list Z)) (task : string)
    (mask : option (list (list bool))) (nto : bool)
    (c : bool) (m : option (list (list bool))) (o : TransformerOutput) :
  route task mask = Ok (c, m) →
  transformer_forward self ids m c = Ok o →
  [] ∈ body_embeddings o →
  forward self ids task mask nto = Err IndexError.
Proof.
  intros Hroute Ho Hempty. unfold forward.
  rewrite Hroute, bind_of_Ok. cbv beta iota. rewrite Ho, bind_of_Ok.
  unfold _get_cls_embeddings. rewrite (mapM_Err _ _ IndexError); [done | |].
  - apply Forall_forall. intros [| e0 eb] _; [by right | left; by eexists].
  - apply Exists_exists. by exists [].
Qed.

(** A body that returns no position for the second sequence. *)
Lemma forward_needs_a_first_position_witness :
  forward {| vocab_size := 10; max_seq_len := 8; embedding_dim := 2;
             prediction_task_type := "regression"; num_prediction_tasks := 1;
             lm_head := lm_head sample_model; mlm_head := mlm_head sample_model;
             physchem_head := physchem_head sample_model;
             prediction_head := prediction_head sample_model;
             transformer_forward := λ _ _ _,
               Ok {| body_embeddings := [[[1; 1]]; []];
                     body_layer_embeddings := None |} |}
    sample_ids "generation" None true = Err IndexError.
Proof.
  eapply forward_needs_a_first_position.
  - reflexivity.
  - reflexivity.
  - simpl. rewrite !elem_of_cons. tauto.
Defined.

End LossFacts.

(** ** Properties of the two subclasses *)

Module VariantFacts.

Import Tensor Model Outputs ResultFacts AttentionFacts ModelFacts LossFacts.
Local Open Scope R_scope.

Lemma mapM_fmap {A B C} (f : B → result C) (g : A → B) (l : list A) :
  mapM f (g <$> l) = mapM (λ x, f (g x)) l.
Proof.
  induction l as [| x l IH]; [done |].
  rewrite fmap_cons, !mapM_cons. by rewrite IH.
Qed.

(** X13: [JointformerWithPrefix] takes its language-modelling embeddings
    from position 1 on. With all positions requested it returns the
    embeddings without their first position; with only the next token
    requested it returns the same last position as the base class for
    sequences of at least two positions, and raises IndexError for sequences
    of a single position, on which the base class returns. *)
Theorem prefix_variant_skips_first_position (embeddings : list (list (list R))) :
  JointformerWithPrefix._get_lm_embeddings embeddings false
    = Ok (drop 1 <$> embeddings) ∧
  (Forall (λ eb, (2 ≤ length eb)%nat) embeddings →
   JointformerWithPrefix._get_lm_embeddings embeddings true
     = Model._get_lm_embeddings embeddings true) ∧
  (embeddings ≠ [] → Forall (λ eb, length eb = 1%nat) embeddings →
   JointformerWithPrefix._get_lm_embeddings embeddings true = Err IndexError ∧
   is_ok (Model._get_lm_embeddings embeddings true)).
Proof.
  split; [done |]. split.
  - intros Hlen. unfold JointformerWithPrefix._get_lm_embeddings, _get_lm_embeddings.
    rewrite mapM_fmap. apply mapM_ext_in. intros eb Heb.
    rewrite Forall_forall in Hlen. specialize (Hlen _ Heb).
    destruct eb as [| a [| b eb]]; simpl in Hlen; [lia | lia | done].
  - intros Hne Hone. split.
    + unfold JointformerWithPrefix._get_lm_embeddings, _get_lm_embeddings.
      rewrite mapM_fmap. apply mapM_Err.
      * eapply Forall_impl; [exact Hone |]. intros [| a [| b eb]] Hl; try done.
        by right.
      * destruct embeddings as [| eb rest]; [done |].
        apply Exists_cons_hd. apply Forall_cons in Hone as [Hl _].
        by destruct eb as [| a [| b eb]].
    + unfold _get_lm_embeddings. apply mapM_total.
      eapply Forall_impl; [exact Hone |]. intros [| a [| b eb]] Hl; try done.
      by eexists.
Qed.

(** One sequence of a single position. *)
Lemma prefix_variant_skips_first_position_witness :
  JointformerWithPrefix._get_lm_embeddings [[[1; 2]]] true = Err IndexError ∧
  is_ok (Model._get_lm_embeddings [[[1; 2]]] true).
Proof.
  destruct (prefix_variant_skips_first_position [[[1; 2]]]) as (_ & _ & Hone).
  apply Hone; [done | by repeat constructor].
Defined.

(** *** The masked maximum *)

Import JointformerWithMaxEmbeddings.

Lemma xmax_cases (a b : xreal) : xmax a b = a ∨ xmax a b = b.
Proof.
  destruct a as [x |], b as [y |]; simpl; auto.
  unfold Rmax. destruct (Rle_dec x y); auto.
Qed.

Lemma xmax_NegInf (a b : xreal) : xmax a b = NegInf → a = NegInf ∧ b = NegInf.
Proof. by destruct a, b. Qed.

Lemma xmax_bound (a b : xreal) (x : R) :
  a = Fin x ∨ b = Fin x → ∃ z, xmax a b = Fin z ∧ x <= z.
Proof.
  intros [-> | ->].
  - destruct b as [y |]; simpl; eexists; (split; [done |]);
      [apply Rmax_l | lra].
  - destruct a as [y |]; simpl; eexists; (split; [done |]);
      [apply Rmax_r | lra].
Qed.

(** The fold of [xmax] over a column: its largest finite entry, or [-inf]
    when the column has none. *)
Lemma xmax_fold_spec (col : list xreal) (a : xreal) :
  match foldl xmax a col with
  | Fin m => Fin m ∈ a :: col ∧ ∀ x, Fin x ∈ a :: col → x <= m
  | NegInf => ∀ y, y ∈ a :: col → y = NegInf
  end.
Proof.
  revert a. induction col as [| y col IH]; intros a; simpl.
  - destruct a as [m |].
    + split; [by left |]. intros x [= ->]%list_elem_of_singleton. lra.
    + by intros y ->%list_elem_of_singleton.
  - specialize (IH (xmax a y)).
    destruct (foldl xmax (xmax a y) col) as [m |].
    + destruct IH as [Hin Hmax]. split.
      * apply elem_of_cons in Hin as [Hin | Hin].
        { rewrite Hin. destruct (xmax_cases a y) as [-> | ->];
            [by left | right; by left]. }
        { by do 2 right. }
      * intros x Hx.
        assert (Hcase : (a = Fin x ∨ y = Fin x) ∨ Fin x ∈ col).
        { rewrite !elem_of_cons in Hx. destruct Hx as [-> | [-> | ?]]; auto. }
        destruct Hcase as [Hay | Hcol]; [| apply Hmax; by right].
        destruct (xmax_bound a y x Hay) as (z & Hz & Hxz).
        assert (z <= m) by (apply Hmax; rewrite Hz; by left). lra.
    + intros z Hz.
      assert (Hxy : xmax a y = NegInf) by (apply IH; by left).
      apply xmax_NegInf in Hxy as [-> ->].
      rewrite !elem_of_cons in Hz. destruct Hz as [-> | [-> | Hz]]; [done | done |].
      apply IH. by right.
Qed.

(** Column [c] of the columnwise fold over the rows. *)
Lemma foldl_zip_with_column (rows : list (list xreal)) (c : nat) :
  ∀ (row0 : list xreal) (v0 : xreal),
    row0 !! c = Some v0 → Forall (λ r, (c < length r)%nat) rows →
    ∃ col, Forall2 (λ (r : list xreal) x, r !! c = Some x) rows col ∧
           foldl (zip_with xmax) row0 rows !! c = Some (foldl xmax v0 col).
Proof.
  induction rows as [| r rows IH]; intros row0 v0 Hv0 Hrows.
  - exists []. by split; [constructor |].
  - apply Forall_cons in Hrows as [Hr Hrows].
    destruct (lookup_lt_is_Some_2 r c Hr) as [x Hx].
    destruct (IH (zip_with xmax row0 r) (xmax v0 x)) as (col & Hcol & Hfold);
      [by rewrite lookup_zip_with, Hv0, Hx | done |].
    exists (x :: col). split; [by constructor | done].
Qed.

Lemma hide_lookup (eb : list (list R)) (mb : list bool) (t : nat) (r : list xreal) :
  hide eb mb !! t = Some r ↔
  ∃ row keep, eb !! t = Some row ∧ mb !! t = Some keep ∧
              r = (λ a, fill (Fin a) (negb keep)) <$> row.
Proof.
  unfold hide. rewrite lookup_zip_with_Some. split.
  - intros (row & keep & -> & Hrow & Hkeep). by exists row, keep.
  - intros (row & keep & Hrow & Hkeep & ->). by exists row, keep.
Qed.

Lemma hide_entry (row : list R) (keep : bool) (c : nat) (y : xreal) :
  ((λ a, fill (Fin a) (negb keep)) <$> row) !! c = Some y ↔
  ∃ a, row !! c = Some a ∧ y = if keep then Fin a else NegInf.
Proof.
  rewrite list_lookup_fmap. destruct (row !! c) as [a |]; simpl.
  - split.
    + intros [= <-]. exists a. by destruct keep.
    + intros (a' & [= <-] & ->). by destruct keep.
  - split; [done | by intros (a & ? & _)].
Qed.

(** The masked maximum of one batch element, column by column. *)
Lemma masked_max_element (eb : list (list R)) (mb : list bool) (T C c : nat)
    (r : list xreal) (rs : list (list xreal)) :
  length eb = T → Forall (λ row, length row = C) eb → length mb = T →
  (c < C)%nat → hide eb mb = r :: rs →
  ∃ v, foldl (zip_with xmax) r rs !! c = Some v ∧
       match v with
       | Fin m => (∃ t, mb !! t = Some true ∧ entry eb t c = Some m) ∧
                  (∀ t x, mb !! t = Some true → entry eb t c = Some x → x <= m)
       | NegInf => Forall (λ keep, keep = false) mb
       end.
Proof.
  intros HT HC HmT Hc Hhide.
  assert (Hwidth : Forall (λ r : list xreal, (c < length r)%nat) (hide eb mb)).
  { apply Forall_lookup. intros t r' (row & keep & Hrow & _ & ->)%hide_lookup.
    rewrite length_fmap. rewrite Forall_lookup in HC. rewrite (HC _ _ Hrow). lia. }
  rewrite Hhide in Hwidth. apply Forall_cons in Hwidth as [Hr Hrs].
  destruct (lookup_lt_is_Some_2 r c Hr) as [v0 Hv0].
  destruct (foldl_zip_with_column rs c r v0 Hv0 Hrs) as (col & Hcol & Hfold).
  assert (Hall : Forall2 (λ (r : list xreal) x, r !! c = Some x)
                   (hide eb mb) (v0 :: col)).
  { rewrite Hhide. by constructor. }
  assert (Hin : ∀ y, y ∈ v0 :: col ↔
            ∃ (t : nat) (a : R) (keep : bool),
              entry eb t c = Some a ∧ mb !! t = Some keep ∧
              y = if keep then Fin a else NegInf).
  { intros y. split.
    - intros (t & Ht)%list_elem_of_lookup_1.
      destruct (Forall2_lookup_r _ _ _ _ _ Hall Ht) as (r' & Hr' & Hy).
      apply hide_lookup in Hr' as (row & keep & Hrow & Hkeep & ->).
      apply hide_entry in Hy as (a & Ha & ->).
      exists t, a, keep. unfold entry. rewrite Hrow. by split.
    - intros (t & a & keep & Ha & Hkeep & ->). unfold entry in Ha.
      destruct (eb !! t) as [row |] eqn:Hrow; [| done]. simpl in Ha.
      assert (Hr' : hide eb mb !! t
                    = Some ((λ a, fill (Fin a) (negb keep)) <$> row)).
      { apply hide_lookup. by exists row, keep. }
      destruct (Forall2_lookup_l _ _ _ _ _ Hall Hr') as (y & Hy & Hrc).
      apply hide_entry in Hrc as (a' & Ha' & ->).
      assert (a' = a) as -> by congruence.
      by eapply list_elem_of_lookup_2. }
  exists (foldl xmax v0 col). split; [done |].
  pose proof (xmax_fold_spec col v0) as Hspec.
  destruct (foldl xmax v0 col) as [m |].
  - destruct Hspec as [Hm Hmax]. split.
    + apply Hin in Hm as (t & a & keep & Ha & Hkeep & Heq).
      destruct keep; [| done]. injection Heq as ->. by exists t.
    + intros t x Hkeep Hx. apply Hmax, Hin. by exists t, x, true.
  - apply Forall_lookup. intros t keep Hkeep.
    destruct keep; [| done]. exfalso.
    destruct (lookup_lt_is_Some_2 eb t) as [row Hrow].
    { apply lookup_lt_Some in Hkeep. lia. }
    destruct (lookup_lt_is_Some_2 row c) as [a Ha].
    { rewrite Forall_lookup in HC. rewrite (HC _ _ Hrow). lia. }
    assert (Hfin : Fin a ∈ v0 :: col).
    { apply Hin. exists t, a, true. unfold entry. rewrite Hrow. by split. }
    by specialize (Hspec _ Hfin).
Qed.

(** X14: [JointformerWithMaxEmbeddings] takes as the summary of a sequence
    the maximum of its embeddings over the positions that the attention mask
    keeps. For embeddings of shape (B, T, C) with T >= 1 and a mask of shape
    (B, T) the call returns one row per sequence; its entry in column c is the
    largest value of column c among the kept positions of the sequence, and
    [-inf] exactly when the mask keeps no position: the embeddings at masked
    positions have no influence. *)
Theorem masked_max_sees_only_kept_positions
    (embeddings : list (list (list R))) (attention_mask : list (list bool))
    (B T C : nat) :
  has_shape3 B T C embeddings → (0 < T)%nat →
  length attention_mask = B → Forall (λ mb, length mb = T) attention_mask →
  ∃ cls, _get_cls_embeddings embeddings (Some attention_mask) = Ok cls ∧
    length cls = B ∧
    ∀ b eb mb c,
      embeddings !! b = Some eb → attention_mask !! b = Some mb → (c < C)%nat →
      ∃ v, at_position cls b c = Some v ∧
           match v with
           | Fin m => (∃ t, mb !! t = Some true ∧ entry eb t c = Some m) ∧
                      (∀ t x, mb !! t = Some true → entry eb t c = Some x →
                              x <= m)
           | NegInf => Forall (λ keep, keep = false) mb
           end.
Proof.
  intros [HB Hshape] HT HmB Hmask.
  set (reduce := λ p : list (list R) * list bool,
         match hide p.1 p.2 with
         | r :: rs => foldl (zip_with xmax) r rs
         | [] => []
         end).
  assert (Hpairs : ∀ eb mb, (eb, mb) ∈ zip embeddings attention_mask →
            length eb = T ∧ Forall (λ row, length row = C) eb ∧ length mb = T).
  { intros eb mb Hin. rewrite Forall_forall in Hshape. rewrite Forall_forall in Hmask.
    destruct (Hshape eb) as [? ?]; [by eapply elem_of_zip_l |].
    split; [done |]. split; [done |]. apply Hmask. by eapply elem_of_zip_r. }
  assert (Hcls : _get_cls_embeddings embeddings (Some attention_mask)
                 = Ok (reduce <$> zip embeddings attention_mask)).
  { unfold _get_cls_embeddings.
    rewrite expand_exact by lia. rewrite bind_of_Ok.
    rewrite (mapM_Ok_fmap _ (λ p : list (list R) * list bool, hide p.1 p.2)).
    2:{ intros [eb mb] Hin. destruct (Hpairs _ _ Hin) as (Hl & _ & Hm).
        rewrite expand_exact by lia. done. }
    rewrite bind_of_Ok, mapM_fmap. apply mapM_Ok_fmap.
    intros [eb mb] Hin. destruct (Hpairs _ _ Hin) as (Hl & _ & Hm).
    unfold reduce, max_over_positions. simpl.
    destruct (hide eb mb) as [| r rs] eqn:Hhide; [| done].
    apply (f_equal length) in Hhide. unfold hide in Hhide.
    rewrite length_zip_with in Hhide. simpl in Hhide. lia. }
  exists (reduce <$> zip embeddings attention_mask). split; [exact Hcls |].
  split; [rewrite length_fmap, length_zip; lia |].
  intros b eb mb c Heb Hmb Hc.
  assert (Hin : (eb, mb) ∈ zip embeddings attention_mask).
  { apply (list_elem_of_lookup_2 _ b). by rewrite lookup_zip_with, Heb, Hmb. }
  destruct (Hpairs _ _ Hin) as (Hl & Hw & Hm).
  unfold at_position. rewrite list_lookup_fmap, lookup_zip_with, Heb, Hmb. simpl.
  unfold reduce. simpl.
  destruct (hide eb mb) as [| r rs] eqn:Hhide.
  { apply (f_equal length) in Hhide. unfold hide in Hhide.
    rewrite length_zip_with in Hhide. simpl in Hhide. lia. }
  by apply (masked_max_element eb mb T C c r rs).
Qed.

(** Two sequences of three positions: the first summary ignores the
    masked third position. *)
Lemma masked_max_sees_only_kept_positions_witness :
  ∃ cls, _get_cls_embeddings sample_embeddings (Some sample_mask) = Ok cls ∧
         length cls = 2%nat ∧
         ∃ v, at_position cls 0 0 = Some v ∧ v ≠ Fin 9.
Proof.
  destruct (masked_max_sees_only_kept_positions sample_embeddings sample_mask 2 3 2)
    as (cls & Hcls & Hlen & Hmax).
  { split; [done |]. repeat constructor. }
  { lia. }
  { reflexivity. }
  { repeat constructor. }
  exists cls. split; [exact Hcls | split; [exact Hlen |]].
  destruct (Hmax 0%nat [[1; 5]; [3; 2]; [9; 9]] [true; true; false] 0%nat)
    as (v & Hv & Hspec); [done | done | lia |].
  exists v. split; [exact Hv |].
  intros ->. destruct Hspec as [(t & Hkeep & Hentry) _].
  destruct t as [| [| [| t]]]; simpl in Hkeep, Hentry; try done;
    injection Hentry as Hentry; lra.
Defined.

End VariantFacts.
(** ** Properties of the sampling distribution and of the generated tokens *)

Module SamplingFacts.

Import Tensor Model Generation Support.
Import ResultFacts TensorFacts AttentionFacts ModelFacts GenerationFacts.
Local Open Scope R_scope.

(** *** Cropping the context *)

(** X15: the context handed to the model in an iteration of
    [generate_single_token] is a suffix of the running sequence: the whole
    sequence while it is at most max_seq_len long, the last max_seq_len
    tokens afterwards. With max_seq_len = 0 nothing is cropped, since the
    slice [-0:] is the whole sequence. *)
Theorem crop_keeps_most_recent_tokens (max_seq_len : nat) (row : list Z) :
  (∃ dropped, row = dropped ++ crop max_seq_len row) ∧
  ((0 < max_seq_len)%nat →
   length (crop max_seq_len row) = (length row `min` max_seq_len)%nat) ∧
  crop 0 row = row.
Proof.
  split; [| split].
  - unfold crop, last_tokens.
    destruct (length row <=? max_seq_len)%nat; [by exists [] |].
    destruct (max_seq_len =? 0)%nat; [by exists [] |].
    exists (take (length row - max_seq_len) row). by rewrite take_drop.
  - intros Hmsl. by apply crop_length.
  - unfold crop, last_tokens. by destruct (length row <=? 0)%nat.
Qed.

(** *** The distribution of the next token *)

Lemma sum_scaled (c : R) (l : list R) :
  sum ((λ e, e / c) <$> l) = sum l / c.
Proof.
  induction l as [| a l IH].
  - unfold sum. simpl. unfold Rdiv. ring.
  - rewrite fmap_cons. unfold sum in *. simpl foldr. rewrite IH.
    unfold Rdiv. ring.
Qed.

Lemma softmax_distribution (row : list xreal) (j : nat) (a : R) :
  row !! j = Some (Fin a) →
  Forall (λ p, 0 <= p) (softmax row) ∧ sum (softmax row) = 1.
Proof.
  intros Hj.
  assert (Hnn : Forall (λ e, 0 <= e) (xexp <$> row)).
  { apply Forall_fmap, Forall_forall. intros x _. apply xexp_nonneg. }
  assert (Hpos : 0 < sum (xexp <$> row)).
  { apply (sum_pos _ (exp a)); [done | | apply exp_pos].
    apply list_elem_of_fmap. exists (Fin a). split; [done |].
    by eapply list_elem_of_lookup_2. }
  unfold softmax. split.
  - apply Forall_fmap. eapply Forall_impl; [exact Hnn |].
    intros e He. simpl. apply Rmult_le_pos; [done |].
    left. by apply Rinv_0_lt_compat.
  - rewrite sum_scaled. unfold Rdiv. apply Rinv_r. lra.
Qed.

Lemma last_elem_of {A} (l : list A) (x : A) : last l = Some x → x ∈ l.
Proof. intros [l' ->]%last_Some. apply elem_of_app. right. by left. Qed.

(** After the optional top-k cut some logit is still finite. *)
Lemma next_token_probs_Ok temperature top_k (logits probs : list R) :
  logits ≠ [] → next_token_probs temperature top_k logits = Ok probs →
  ∃ row j a, probs = softmax row ∧ length row = length logits ∧
             row !! j = Some (Fin a).
Proof.
  intros Hne. unfold next_token_probs.
  set (scaled := (λ a, a / temperature) <$> logits).
  intros (row & Hrow & [= <-])%bind_Ok.
  destruct top_k as [k |].
  - destruct (k <? 0)%Z; [done |].
    apply bind_Ok in Hrow as (kth & Hkth & [= <-]).
    destruct (last _) as [kth' |] eqn:Hlast; [| done]. injection Hkth as ->.
    apply last_elem_of in Hlast. unfold topk in Hlast.
    apply elem_of_take in Hlast as (i & Hi & _).
    apply list_elem_of_lookup_2 in Hi. rewrite sort_desc_perm in Hi.
    apply list_elem_of_lookup_1 in Hi as (j & Hj).
    eexists _, j, kth. split; [done |]. split.
    + unfold scaled. by rewrite !length_fmap.
    + rewrite list_lookup_fmap, Hj. simpl.
      destruct (Rlt_dec kth kth) as [Hlt | _]; [lra | done].
  - injection Hrow as <-.
    destruct logits as [| x logits]; [done |].
    eexists _, 0%nat, _. split; [done |]. split; [| done].
    unfold scaled. by rewrite !length_fmap.
Qed.

(** The value that the cut compares with: entry k - 1 of the sorted row. *)
Lemma topk_last (k : nat) (l : list R) :
  (0 < k)%nat → l ≠ [] →
  ∃ kth, last (topk (k `min` length l) l) = Some kth ∧
         sort_desc l !! ((k `min` length l) - 1)%nat = Some kth.
Proof.
  intros Hk Hne.
  pose proof (Permutation_length (sort_desc_perm l)) as Hlen.
  assert (Hl : (0 < length l)%nat) by (destruct l; [done | simpl; lia]).
  destruct (lookup_lt_is_Some_2 (sort_desc l) ((k `min` length l) - 1)) as [kth Hkth];
    [lia |].
  exists kth. split; [| done].
  unfold topk. rewrite last_lookup, length_take.
  rewrite lookup_take_lt by lia.
  replace (Init.Nat.pred ((k `min` length l) `min` length (sort_desc l)))
    with ((k `min` length l) - 1)%nat by lia.
  done.
Qed.

Lemma next_token_probs_cut_Ok temperature (k : Z) (logits : list R) :
  (1 ≤ k)%Z → logits ≠ [] →
  is_ok (next_token_probs temperature (Some k) logits).
Proof.
  intros Hk Hne. unfold next_token_probs.
  destruct (Z.ltb_spec k 0) as [? | _]; [lia |].
  destruct (topk_last (Z.to_nat k) ((λ a, a / temperature) <$> logits))
    as (kth & Hlast & _); [lia | by destruct logits |].
  rewrite Hlast. by eexists.
Qed.

(** X16: for a non-empty row of logits and a temperature other than 0,
    whenever lines 232-240 return they return a probability distribution over
    the vocabulary: one entry per logit, no negative entry, entries that sum
    to 1, and at least one token that can be drawn; this holds with and
    without the top-k cut. *)
Theorem next_token_probs_is_a_distribution
    (temperature : R) (top_k : option Z) (logits probs : list R) :
  temperature ≠ 0 → logits ≠ [] →
  next_token_probs temperature top_k logits = Ok probs →
  length probs = length logits ∧ Forall (λ p, 0 <= p) probs ∧
  sum probs = 1 ∧ ∃ j, possible_draw probs j.
Proof.
  intros _ Hne Hprobs.
  destruct (next_token_probs_Ok _ _ _ _ Hne Hprobs) as (row & j & a & -> & Hlen & Hj).
  destruct (softmax_distribution row j a Hj) as [Hnn Hsum].
  split; [by rewrite length_softmax |]. split; [done |]. split; [done |].
  exists j. apply softmax_possible_draw. by exists a.
Qed.

(** The logits (1, 3, 2) at temperature 2, cut to the two largest. *)
Lemma next_token_probs_is_a_distribution_witness :
  ∃ probs, next_token_probs 2 (Some 2%Z) [1; 3; 2] = Ok probs ∧
           length probs = 3%nat ∧ sum probs = 1.
Proof.
  destruct (next_token_probs_cut_Ok 2 2 [1; 3; 2]) as [probs Hprobs]; [lia | done |].
  exists probs. split; [exact Hprobs |].
  destruct (next_token_probs_is_a_distribution 2 (Some 2%Z) [1; 3; 2] probs)
    as (Hlen & _ & Hsum & _); [lra | done | exact Hprobs |].
  split; [exact Hlen | exact Hsum].
Defined.

(** *** The top-k cut *)

Lemma insert_desc_descending (x : R) (l : list R) :
  descending l → descending (insert_desc x l).
Proof.
  induction l as [| y l IH]; simpl.
  - intros _. by split; [constructor |].
  - intros [Hall Hd]. destruct (Rle_dec y x) as [Hle | Hnle]; simpl.
    + split; [| done]. constructor; [done |].
      eapply Forall_impl; [exact Hall |]. intros z Hz. simpl in Hz. lra.
    + split; [| by apply IH].
      rewrite insert_desc_perm. constructor; [lra | done].
Qed.

Lemma sort_desc_descending (l : list R) : descending (sort_desc l).
Proof.
  induction l as [| x l IH]; [done |]. simpl. by apply insert_desc_descending.
Qed.

Lemma larger_none (a y : R) (l : list R) :
  Forall (λ z, z <= y) l → ¬ a < y → larger a l = 0%nat.
Proof.
  intros Hall Hay. unfold larger.
  induction Hall as [| z l Hz _ IH]; [done |].
  rewrite filter_cons_False by lra. exact IH.
Qed.

(** In a descending list the entries larger than [a] come first. *)
Lemma descending_lookup_larger (a : R) (s : list R) :
  descending s → ∀ i z, s !! i = Some z → (a < z ↔ (i < larger a s)%nat).
Proof.
  induction s as [| y s IH]; intros Hd i z Hi; [done |].
  destruct Hd as [Hall Hd]. unfold larger. rewrite filter_cons.
  destruct (decide (a < y)) as [Hay | Hay]; simpl.
  - destruct i as [| i]; simpl in Hi.
    + injection Hi as <-. split; [lia | done].
    + rewrite (IH Hd i z Hi). unfold larger. lia.
  - pose proof (larger_none a y s Hall Hay) as Hnone. unfold larger in Hnone.
    rewrite Hnone. split; [| lia]. intros Haz. exfalso.
    destruct i as [| i]; simpl in Hi.
    + injection Hi as <-. done.
    + rewrite Forall_forall in Hall.
      assert (z <= y) by (apply Hall; by eapply list_elem_of_lookup_2). lra.
Qed.

Lemma larger_perm (a : R) (l l' : list R) : l ≡ₚ l' → larger a l = larger a l'.
Proof. intros Hperm. unfold larger. by rewrite Hperm. Qed.

Lemma larger_scaled (t x : R) (l : list R) :
  0 < t → larger (x / t) ((λ a, a / t) <$> l) = larger x l.
Proof.
  intros Ht. unfold larger.
  assert (Hscale : ∀ y, x / t < y / t ↔ x < y).
  { intros y. unfold Rdiv. pose proof (Rinv_0_lt_compat _ Ht) as Hinv. split.
    - intros H. by apply (Rmult_lt_reg_r (/ t)).
    - intros H. by apply Rmult_lt_compat_r. }
  induction l as [| y l IH]; [done |].
  rewrite fmap_cons, !filter_cons.
  destruct (decide (x / t < y / t)) as [H1 | H1];
    destruct (decide (x < y)) as [H2 | H2]; simpl; rewrite ?IH; try done.
  - by apply Hscale in H1.
  - by apply Hscale in H2.
Qed.

(** X17: with top_k = k >= 1 and a temperature > 0, the tokens that can be
    drawn are exactly those with fewer than k strictly larger logits in the
    row: the k largest, and with them every token tied with the k-th
    largest. *)
Theorem top_k_support (temperature : R) (k : Z) (logits : list R) :
  0 < temperature → (1 ≤ k)%Z → logits ≠ [] →
  ∃ probs, next_token_probs temperature (Some k) logits = Ok probs ∧
    ∀ j, possible_draw probs j ↔
         ∃ x, logits !! j = Some x ∧ (larger x logits < Z.to_nat k)%nat.
Proof.
  intros Ht Hk Hne. unfold next_token_probs.
  set (scaled := (λ a, a / temperature) <$> logits).
  destruct (Z.ltb_spec k 0) as [? | _]; [lia |].
  destruct (topk_last (Z.to_nat k) scaled) as (kth & Hlast & Hkth); [lia | |].
  { unfold scaled. by destruct logits. }
  rewrite Hlast, !bind_of_Ok. eexists. split; [reflexivity |].
  intros j. rewrite softmax_possible_draw, list_lookup_fmap.
  unfold scaled at 1. rewrite list_lookup_fmap.
  destruct (logits !! j) as [x |] eqn:Hj; simpl.
  2:{ split; [by intros (a & Ha) | by intros (x & Hx & _)]. }
  assert (Hcount : larger (x / temperature) (sort_desc scaled) = larger x logits).
  { rewrite (larger_perm _ _ _ (sort_desc_perm scaled)). by apply larger_scaled. }
  assert (Hlt : (larger x logits < length logits)%nat).
  { unfold larger. apply (length_filter_lt _ _ x); [| lra].
    by eapply list_elem_of_lookup_2. }
  pose proof (descending_lookup_larger (x / temperature) (sort_desc scaled)
                (sort_desc_descending scaled) _ _ Hkth) as Hcut.
  rewrite Hcount in Hcut.
  assert (Hls : length scaled = length logits) by (unfold scaled; by rewrite length_fmap).
  rewrite Hls in Hcut.
  destruct (Rlt_dec (x / temperature) kth) as [Hcutoff | Hkeep].
  - split; [by intros (a & Ha) |]. intros (x' & [= <-] & Hfew).
    apply Hcut in Hcutoff. lia.
  - split; [| by eexists]. intros _. exists x. split; [done |].
    destruct (decide (larger x logits < Z.to_nat k)%nat) as [? | Hmany]; [done |].
    exfalso. apply Hkeep, Hcut. lia.
Qed.

(** The logits (1, 3, 3, 2) cut to the top two: the two tokens tied at 3
    can be drawn, the others cannot. *)
Lemma top_k_support_witness :
  ∃ probs, next_token_probs 1 (Some 2%Z) [1; 3; 3; 2] = Ok probs ∧
           possible_draw probs 1 ∧ possible_draw probs 2 ∧
           ¬ possible_draw probs 3.
Proof.
  destruct (top_k_support 1 2 [1; 3; 3; 2]) as (probs & Hprobs & Hsupp);
    [lra | lia | done |].
  assert (Hlarger : ∀ x, larger x [1; 3; 3; 2]
            = length (filter (λ y, x < y) [1; 3; 3; 2])) by done.
  exists probs. split; [exact Hprobs |]. split; [| split].
  - apply Hsupp. exists 3. split; [done |]. rewrite Hlarger.
    rewrite !filter_cons, filter_nil.
    repeat (destruct (decide _) as [? | ?]; try lra). simpl. lia.
  - apply Hsupp. exists 3. split; [done |]. rewrite Hlarger.
    rewrite !filter_cons, filter_nil.
    repeat (destruct (decide _) as [? | ?]; try lra). simpl. lia.
  - intros (x & [= <-] & Hfew)%Hsupp. rewrite Hlarger in Hfew.
    rewrite !filter_cons, filter_nil in Hfew.
    repeat (destruct (decide _) as [? | ?]; try lra). simpl in Hfew. lia.
Defined.

Lemma descending_last (s : list R) (z : R) :
  descending s → last s = Some z → ∀ y, y ∈ s → z <= y.
Proof.
  induction s as [| x s IH]; [done |]. intros [Hall Hd] Hlast y Hy.
  destruct s as [| x' s].
  - injection Hlast as <-. apply list_elem_of_singleton in Hy as ->. lra.
  - change (last (x :: x' :: s)) with (last (x' :: s)) in Hlast.
    apply elem_of_cons in Hy as [-> | Hy]; [| by apply IH].
    rewrite Forall_forall in Hall. apply Hall. by apply last_elem_of.
Qed.

(** X18: the corner cases of top_k. A negative top_k is a RuntimeError of
    [torch.topk]; top_k = 0 selects nothing, and reading the last selected
    value is an IndexError, as it is for an empty row of logits; a top_k of
    at least the row's length cuts nothing, so that the distribution is the
    one computed without top_k. *)
Theorem top_k_corner_cases (temperature : R) (k : Z) (logits : list R) :
  ((k < 0)%Z → next_token_probs temperature (Some k) logits = Err RuntimeError) ∧
  next_token_probs temperature (Some 0%Z) logits = Err IndexError ∧
  ((0 ≤ k)%Z → next_token_probs temperature (Some k) [] = Err IndexError) ∧
  (logits ≠ [] → (Z.of_nat (length logits) ≤ k)%Z →
   next_token_probs temperature (Some k) logits
   = next_token_probs temperature None logits).
Proof.
  split; [| split; [| split]].
  - intros Hk. unfold next_token_probs.
    by destruct (Z.ltb_spec k 0) as [_ | ?]; [| lia].
  - done.
  - intros Hk. unfold next_token_probs.
    destruct (Z.ltb_spec k 0) as [? | _]; [lia |]. simpl.
    by rewrite Nat.min_0_r.
  - intros Hne Hk. unfold next_token_probs.
    set (scaled := (λ a, a / temperature) <$> logits).
    destruct (Z.ltb_spec k 0) as [? | _]; [lia |].
    assert (Hls : length scaled = length logits)
      by (unfold scaled; by rewrite length_fmap).
    assert (Hl : (0 < length logits)%nat) by (destruct logits; [done | simpl; lia]).
    destruct (topk_last (Z.to_nat k) scaled) as (kth & Hlast & Hkth); [lia | |].
    { unfold scaled. by destruct logits. }
    rewrite Hlast, !bind_of_Ok. do 2 f_equal.
    apply list_fmap_ext. intros i a Ha.
    destruct (Rlt_dec a kth) as [Hlt | _]; [| done]. exfalso.
    assert (Hmin : kth <= a).
    { apply (descending_last (sort_desc scaled)).
      - apply sort_desc_descending.
      - rewrite last_lookup. rewrite <- Hkth. f_equal.
        pose proof (Permutation_length (sort_desc_perm scaled)). lia.
      - rewrite sort_desc_perm. by eapply list_elem_of_lookup_2. }
    lra.
Qed.

(** *** What the loop appends *)

Lemma linear3_widths (L : Linear) (x y : list (list (list R))) :
  Linear_wf L → linear3 L x = Ok y →
  Forall (Forall (λ r, length r = out_features L)) y.
Proof.
  intros Hwf Hy%mapM_Ok.
  eapply Forall2_Forall_r; [exact Hy |].
  apply Forall_forall. intros xb _ yb Hyb. simpl in Hyb.
  unfold linear2 in Hyb. destruct (forallb _ xb); [| done].
  injection Hyb as <-. apply Forall_fmap, Forall_forall. intros r _. simpl.
  by apply length_linear_row.
Qed.

Section Appended.

Context (self : Jointformer) (multinomial : Sampler) (temperature : R)
        (top_k : option Z) (eos : option Z) (pad : Z).

(** A property of every token that an iteration appends is a property of
    every token that the loop appends. *)
Lemma sampling_loop_appends (P : Z → Prop) :
  (∀ s idx flags idx' flags' r row t,
     sampling_step self multinomial temperature top_k eos pad s (idx, flags)
       = Ok (idx', flags') →
     length flags = length idx →
     idx !! r = Some row → idx' !! r = Some (row ++ [t]) → P t) →
  ∀ n s idx flags idx' flags',
    sampling_loop self multinomial temperature top_k eos pad n s (idx, flags)
      = Ok (idx', flags') →
    length flags = length idx →
    length idx' = length idx ∧
    ∀ r row, idx !! r = Some row →
      ∃ new, idx' !! r = Some (row ++ new) ∧ length new = n ∧ Forall P new.
Proof.
  intros Hstep. induction n as [| n IH]; intros s idx flags idx' flags' Hloop Hlen.
  - injection Hloop as <- <-. split; [done |].
    intros r row Hrow. exists []. by rewrite app_nil_r.
  - simpl in Hloop. apply bind_Ok in Hloop as ([idx1 flags1] & Hs & Hloop).
    destruct (sampling_step_Ok _ _ _ _ _ _ _ _ _ _ _ Hs Hlen) as (Hl1 & Hlf1 & Hrows1).
    destruct (IH _ _ _ _ _ Hloop) as [Hl' Hrows']; [lia |].
    split; [lia |]. intros r row Hrow.
    destruct (lookup_lt_is_Some_2 flags r) as [f Hf].
    { rewrite Hlen. by eapply lookup_lt_Some. }
    destruct (Hrows1 r row f Hrow Hf) as (t & f1 & Hrow1 & _).
    destruct (Hrows' r _ Hrow1) as (new & Hnew & Hlnew & HP).
    exists (t :: new). rewrite <- app_assoc in Hnew.
    split; [done |]. split; [simpl; lia |].
    constructor; [| done]. by eapply (Hstep s idx flags idx1 flags1 r row t).
Qed.

(** With a sampler that only draws tokens of positive probability, what an
    iteration appends is the pad token or an index into the vocabulary. *)
Lemma sampling_step_in_vocabulary s idx flags idx' flags' r row t :
  admissible multinomial → lm_head_constructed self → (0 < vocab_size self)%nat →
  sampling_step self multinomial temperature top_k eos pad s (idx, flags)
    = Ok (idx', flags') →
  length flags = length idx →
  idx !! r = Some row → idx' !! r = Some (row ++ [t]) →
  in_vocabulary (vocab_size self) pad t.
Proof.
  intros Hadm (Hwf & _ & Hout & _) HV Hs Hlen Hrow Hrow'.
  destruct (lookup_lt_is_Some_2 flags r) as [f Hf].
  { rewrite Hlen. by eapply lookup_lt_Some. }
  destruct (sampling_step_Ok _ _ _ _ _ _ _ _ _ _ _ Hs Hlen) as (_ & _ & Hrows).
  destruct (Hrows r row f Hrow Hf) as (t0 & f' & Hrow0 & Hf' & _ & Hpad).
  assert (t0 = t) as ->.
  { rewrite Hrow0 in Hrow'. injection Hrow' as Heq.
    by apply app_inj_tail in Heq as [_ ?]. }
  destruct f'; [left; by apply Hpad | right].
  destruct (sampling_step_token _ _ _ _ _ _ _ _ _ _ _ _ _ Hs Hrow Hf')
    as (outputs & lg & lb & logits & probs & Hfw & Hlg & Hlb & Hlast & Hp & Hnew).
  assert (t = Z.of_nat (multinomial s r probs)) as ->.
  { rewrite Hrow0 in Hnew. injection Hnew as Heq.
    by apply app_inj_tail in Heq as [_ ?]. }
  apply forward_Ok in Hfw as (_ & _ & [(_ & lg' & Hlin & Hlg' & _) | [Hin _]]).
  2:{ rewrite !elem_of_cons in Hin.
      destruct Hin as [? | [? | [? | ?%elem_of_nil]]]; done. }
  assert (lg' = lg) as -> by congruence.
  pose proof (linear3_widths _ _ _ Hwf Hlin) as Hwidths.
  assert (Hwidth : length logits = vocab_size self).
  { rewrite <- Hout. rewrite Forall_lookup in Hwidths.
    specialize (Hwidths _ _ Hlb). rewrite Forall_forall in Hwidths.
    apply Hwidths. by apply last_elem_of. }
  assert (Hne : logits ≠ []) by (intros ->; simpl in Hwidth; lia).
  destruct (next_token_probs_Ok _ _ _ _ Hne Hp) as (rw & j & a & -> & Hlrow & Hj).
  assert (Hdraw : possible_draw (softmax rw) (multinomial s r (softmax rw))).
  { apply Hadm. exists j. apply softmax_possible_draw. by exists a. }
  destruct Hdraw as (p & Hp' & _). apply lookup_lt_Some in Hp'.
  rewrite length_softmax in Hp'. lia.
Qed.

End Appended.

(** What [generate_single_token] returns, row by row. *)
Lemma generate_single_token_rows
    (self : Jointformer) (multinomial : Sampler) (idx0 : list (list Z))
    (max_new_tokens : Z) (temperature : R) (top_k : option Z)
    (eos_token_id : option Z) (pad_token_id : Z) (idx : list (list Z))
    (P : Z → Prop) :
  (∀ s idx flags idx' flags' r row t,
     sampling_step self multinomial temperature top_k eos_token_id pad_token_id
       s (idx, flags) = Ok (idx', flags') →
     length flags = length idx →
     idx !! r = Some row → idx' !! r = Some (row ++ [t]) → P t) →
  generate_single_token self multinomial idx0 max_new_tokens temperature top_k
    eos_token_id pad_token_id = Ok idx →
  length idx = length idx0 ∧
  ∀ r row0, idx0 !! r = Some row0 →
    ∃ new, idx !! r = Some (row0 ++ new) ∧
           length new = Z.to_nat max_new_tokens ∧ Forall P new.
Proof.
  intros Hstep. unfold generate_single_token.
  intros ([idx' flags'] & Hloop & [= <-])%bind_Ok. simpl.
  apply (sampling_loop_appends self multinomial temperature top_k eos_token_id
           pad_token_id P Hstep _ _ _ _ _ _ Hloop).
  apply length_replicate.
Qed.

(** X19: [generate_single_token] never touches what it was given: it
    returns as many sequences as it received, each made of the received
    sequence followed by exactly max_new_tokens new tokens (none when
    max_new_tokens <= 0), whatever the end token. If the sampler only draws
    tokens of positive probability and the vocabulary is not empty, every new
    token is the pad token or an index below vocab_size. *)
Theorem generate_single_token_appends_vocabulary_tokens
    (self : Jointformer) (multinomial : Sampler) (idx0 : list (list Z))
    (max_new_tokens : Z) (temperature : R) (top_k : option Z)
    (eos_token_id : option Z) (pad_token_id : Z) (idx : list (list Z)) :
  generate_single_token self multinomial idx0 max_new_tokens temperature top_k
    eos_token_id pad_token_id = Ok idx →
  length idx = length idx0 ∧
  ((max_new_tokens ≤ 0)%Z → idx = idx0) ∧
  ∀ r row0, idx0 !! r = Some row0 →
    ∃ new, idx !! r = Some (row0 ++ new) ∧
           length new = Z.to_nat max_new_tokens ∧
           (admissible multinomial → lm_head_constructed self →
            (0 < vocab_size self)%nat →
            Forall (in_vocabulary (vocab_size self) pad_token_id) new).
Proof.
  intros Hgen.
  destruct (generate_single_token_rows _ _ _ _ _ _ _ _ _ (λ _, True)
              ltac:(done) Hgen) as [Hlen Hrows].
  split; [done |]. split.
  - intros Hn. unfold generate_single_token in Hgen.
    replace (Z.to_nat max_new_tokens) with 0%nat in Hgen by lia.
    simpl in Hgen. by injection Hgen as <-.
  - intros r row0 Hrow0. destruct (Hrows r row0 Hrow0) as (new & Hnew & Hlnew & _).
    exists new. split; [done |]. split; [done |].
    intros Hadm Hhead HV.
    assert (Hstep : ∀ s idx1 flags idx2 flags2 r' row t,
      sampling_step self multinomial temperature top_k eos_token_id pad_token_id
        s (idx1, flags) = Ok (idx2, flags2) →
      length flags = length idx1 →
      idx1 !! r' = Some row → idx2 !! r' = Some (row ++ [t]) →
      in_vocabulary (vocab_size self) pad_token_id t).
    { intros s idx1 flags idx2 flags2 r' row t Hs Hl Hrow Hrow'.
      by eapply sampling_step_in_vocabulary. }
    destruct (generate_single_token_rows _ _ _ _ _ _ _ _ _ _ Hstep Hgen)
      as [_ Hrows'].
    destruct (Hrows' r row0 Hrow0) as (new' & Hnew' & _ & Hvoc).
    rewrite Hnew in Hnew'. injection Hnew' as Heq.
    apply app_inv_head in Heq. by subst new'.
Qed.

(** Three new tokens for one prompt, with end token 5 and pad token 9. *)
Lemma generate_single_token_appends_vocabulary_tokens_witness :
  ∃ new, [[1; 0; 5; 9]]%Z !! 0%nat = Some ([1]%Z ++ new) ∧ length new = 3%nat.
Proof.
  assert (Hgen : generate_single_token sample_model sample_sampler [[1]]%Z 3 1 None
                   (Some 5%Z) 9%Z = Ok [[1; 0; 5; 9]]%Z) by (vm_compute; reflexivity).
  destruct (generate_single_token_appends_vocabulary_tokens sample_model
              sample_sampler [[1]]%Z 3 1 None (Some 5%Z) 9%Z _ Hgen)
    as (_ & _ & Hrows).
  destruct (Hrows 0%nat [1]%Z) as (new & Hnew & Hlen & _); [reflexivity |].
  exists new. split; [exact Hnew | exact Hlen].
Defined.

(** *** The sequences returned by [generate] *)

(** X20: every sequence returned by [generate] has the length of the
    prefix plus max(0, max_molecule_length - 2): the end-token safeguard
    overwrites the last token and appends nothing. When at least one token is
    sampled, every returned sequence starts with the generation prefix. When
    none is (max_molecule_length <= 2), a prefix without the end token comes
    back with its last token replaced by the end token. *)
Theorem generate_keeps_prefix_and_length
    (self : Jointformer) (multinomial : Sampler) (tokenizer : Tokenizer)
    (batch_size : nat) (temperature : R) (top_k : option Z)
    (prefix : list Z) (idx : list (list Z)) :
  generation_prefix tokenizer = Some prefix →
  generate self multinomial tokenizer batch_size temperature top_k = Ok idx →
  let n := Z.to_nat (max_molecule_length tokenizer - 2) in
  length idx = batch_size ∧
  Forall (λ sequence, length sequence = (length prefix + n)%nat) idx ∧
  ((0 < n)%nat → Forall (λ sequence, take (length prefix) sequence = prefix) idx) ∧
  (n = 0%nat →
   Forall (λ sequence,
             sequence = if bool_decide (sep_token_id tokenizer ∈ prefix)
                        then prefix
                        else <[(length prefix - 1)%nat := sep_token_id tokenizer]>
                               prefix) idx).
Proof.
  intros Hprefix Hgenerate n. unfold generate in Hgenerate.
  rewrite Hprefix, bind_of_Ok in Hgenerate.
  apply bind_Ok in Hgenerate as (idx0 & Hgen & Hfix).
  destruct (generate_single_token_rows _ _ _ _ _ _ _ _ _ (λ _, True)
              ltac:(done) Hgen) as [Hlen0 Hrows].
  rewrite length_replicate in Hlen0.
  pose proof (mapM_Ok_length _ _ _ Hfix) as Hlen. apply mapM_Ok in Hfix.
  assert (Hall : Forall (λ sequence,
            ∃ new, length new = n ∧
                   ((sep_token_id tokenizer ∈ prefix ++ new ∧ sequence = prefix ++ new) ∨
                    ((sep_token_id tokenizer ∉ prefix ++ new) ∧ prefix ++ new ≠ [] ∧
                     sequence = <[(length (prefix ++ new) - 1)%nat
                                    := sep_token_id tokenizer]> (prefix ++ new)))) idx).
  { apply Forall_lookup. intros r sequence Hseq.
    destruct (Forall2_lookup_r _ _ _ _ _ Hfix Hseq) as (sequence0 & Hseq0 & Hend).
    assert (Hrow0 : replicate batch_size prefix !! r = Some prefix).
    { apply lookup_replicate_2. apply lookup_lt_Some in Hseq0. lia. }
    destruct (Hrows r prefix Hrow0) as (new & Hnew & Hlnew & _).
    assert (sequence0 = prefix ++ new) as -> by congruence.
    exists new. split; [done |]. by apply ensure_end_Ok. }
  split; [lia |]. split; [| split].
  - eapply Forall_impl; [exact Hall |].
    intros sequence (new & Hlnew & [[_ ->] | (_ & _ & ->)]);
      rewrite ?length_insert, length_app; lia.
  - intros Hn. eapply Forall_impl; [exact Hall |].
    intros sequence (new & Hlnew & [[_ ->] | (_ & _ & ->)]).
    + by rewrite take_app_length.
    + rewrite length_app.
      rewrite insert_app_r_alt by lia. by rewrite take_app_length.
  - intros Hn. eapply Forall_impl; [exact Hall |].
    intros sequence (new & Hlnew & Hcase).
    assert (new = []) as -> by (destruct new; [done | simpl in Hlnew; lia]).
    rewrite app_nil_r in Hcase.
    destruct Hcase as [[Hin ->] | (Hnin & _ & ->)].
    + by rewrite bool_decide_true.
    + by rewrite bool_decide_false.
Qed.

(** One new token for the prefix (1): two tokens, the prefix first. *)
Lemma generate_keeps_prefix_and_length_witness :
  generate sample_model sample_sampler sample_tokenizer 2 1 None
    = Ok [[1; 2]; [1; 2]]%Z ∧
  Forall (λ sequence : list Z, length sequence = 2%nat) [[1; 2]; [1; 2]]%Z.
Proof.
  assert (Hgen : generate sample_model sample_sampler sample_tokenizer 2 1 None
                 = Ok [[1; 2]; [1; 2]]%Z) by (vm_compute; reflexivity).
  split; [exact Hgen |].
  destruct (generate_keeps_prefix_and_length sample_model sample_sampler
              sample_tokenizer 2 1 None [1]%Z _ eq_refl Hgen) as (_ & Hlen & _).
  exact Hlen.
Defined.

End SamplingFacts.

(** ** The attention weights, row by row *)

Module AttentionRowFacts.

Import Tensor Attention Heads.
Import ResultFacts TensorFacts AttentionFacts GenerationFacts LossFacts VariantFacts
       SamplingFacts.
Local Open Scope R_scope.

(** *** The heads of one batch element, in closed form *)

Lemma heads_of_closed self (qkv : list (list R)) :
  heads_of self qkv =
  (λ h, (h, (q_of self qkv h, (k_of self qkv h, v_of self qkv h))))
    <$> seq 0 (num_heads self).
Proof.
  unfold heads_of, split_heads, q_of, k_of, v_of.
  generalize (seq 0 (num_heads self)). intros l.
  induction l as [| h l IH]; [done |].
  rewrite !fmap_cons. cbn [zip_with]. f_equal. exact IH.
Qed.

Section Element.

Context (self : HybridSelfAttention) (rng : Draws).

Lemma attend_explicit_closed task scale mask b (qkv : list (list R)) :
  attend_explicit self rng task scale mask b qkv =
  mapM (λ h, explicit_attention self task scale (attn_keep rng b h)
               (mask_at (mask_at mask b) h)
               (q_of self qkv h) (k_of self qkv h) (v_of self qkv h))
       (seq 0 (num_heads self)).
Proof. unfold attend_explicit. by rewrite heads_of_closed, mapM_fmap. Qed.

Lemma attend_explicit_head task scale mask b (qkv : list (list R)) ya h r :
  attend_explicit self rng task scale mask b qkv = Ok ya → ya !! h = Some r →
  (h < num_heads self)%nat ∧
  explicit_attention self task scale (attn_keep rng b h)
    (mask_at (mask_at mask b) h)
    (q_of self qkv h) (k_of self qkv h) (v_of self qkv h) = Ok r.
Proof.
  rewrite attend_explicit_closed. intros Hya%mapM_Ok Hr.
  destruct (Forall2_lookup_r _ _ _ _ _ Hya Hr) as (h' & Hh' & Hatt).
  apply lookup_seq in Hh' as [-> Hlt]. by split.
Qed.

Lemma length_attend_explicit task scale mask b (qkv : list (list R)) ya :
  attend_explicit self rng task scale mask b qkv = Ok ya →
  length ya = num_heads self.
Proof.
  rewrite attend_explicit_closed. intros Hya%mapM_Ok_length.
  by rewrite length_seq in Hya.
Qed.

Lemma length_q_of (qkv : list (list R)) h : length (q_of self qkv h) = length qkv.
Proof. unfold q_of. by rewrite !length_fmap. Qed.

Lemma length_k_of (qkv : list (list R)) h : length (k_of self qkv h) = length qkv.
Proof. unfold k_of. by rewrite !length_fmap. Qed.

Lemma length_v_of (qkv : list (list R)) h : length (v_of self qkv h) = length qkv.
Proof. unfold v_of. by rewrite !length_fmap. Qed.

Lemma v_of_width (qkv : list (list R)) h :
  (embed_dim self `mod` num_heads self = 0)%nat →
  Forall (λ r, length r = (3 * embed_dim self)%nat) qkv →
  (h < num_heads self)%nat →
  Forall (λ r, length r = head_size self) (v_of self qkv h).
Proof.
  intros Hmod Hqkv Hh. unfold v_of.
  apply Forall_fmap, Forall_fmap. eapply Forall_impl; [exact Hqkv |].
  intros r Hr. simpl. rewrite length_take, length_drop, length_take, length_drop, Hr.
  assert (HE : embed_dim self = (num_heads self * head_size self)%nat).
  { unfold head_size. by apply Nat.Div0.div_exact. }
  nia.
Qed.

(** The per-head outputs of a returning element have shape (nh, T, hs). *)
Lemma attend_explicit_shape task scale mask b (qkv : list (list R)) ya :
  (embed_dim self `mod` num_heads self = 0)%nat →
  Forall (λ r, length r = (3 * embed_dim self)%nat) qkv →
  attend_explicit self rng task scale mask b qkv = Ok ya →
  head_outputs_shape self (length qkv) (fst <$> ya).
Proof.
  intros Hmod Hqkv Hya. split.
  - rewrite length_fmap. by eapply length_attend_explicit.
  - apply Forall_fmap, Forall_lookup. intros h [yh ah] Hr. simpl.
    destruct (attend_explicit_head _ _ _ _ _ _ _ _ Hya Hr) as [Hh Hatt].
    apply explicit_attention_inv in Hatt as [-> Hla].
    destruct (matmul_shape (head_size self)
                (dropout (dropout_p self) (training self) (attn_keep rng b h) ah)
                (v_of self qkv h)) as [Hm1 Hm2]; [by apply v_of_width |].
    split; [| done]. rewrite Hm1, length_dropout, Hla. apply length_q_of.
Qed.

End Element.

(** *** The explicit path, taken apart *)

Section Inversion.

Context (self : HybridSelfAttention) (rng : Draws).

Lemma forward_explicit_inv (x : list (list (list R))) task mask y oatt :
  flash self = false → forward self rng x task mask = Ok (y, oatt) →
  ∃ scale ya,
    attention_scale self = Ok scale ∧
    oatt = Some (fmap (M:=list) (fmap (M:=list) snd) ya) ∧
    length ya = length x ∧ length y = length x ∧
    ∀ b xb, x !! b = Some xb →
      Forall (λ row, length row = in_features (qkv_proj self)) xb ∧
      ∃ yab yb, ya !! b = Some yab ∧ y !! b = Some yb ∧
        attend_explicit self rng task scale mask b
          (linear_row (qkv_proj self) <$> xb) = Ok yab ∧
        project_out self rng b (length xb) (fst <$> yab) = Ok yb.
Proof.
  intros Hflash. unfold forward.
  intros (qkv & Hqkv & ([ys oa] & Hatt & (y' & Hy & [= <- <-])%bind_Ok)%bind_Ok)%bind_Ok.
  unfold attend in Hatt. rewrite Hflash in Hatt.
  apply bind_Ok in Hatt as (scale & Hscale & (ya & Hya & [= <- <-])%bind_Ok).
  simpl in Hy. exists scale, ya.
  unfold linear3 in Hqkv. pose proof (mapM_Ok_length _ _ _ Hqkv) as Hlq.
  apply mapM_Ok in Hqkv.
  apply imapM_Ok in Hya as [Hlya Hya]. apply imapM_Ok in Hy as [Hly Hy].
  rewrite length_zip, length_fmap in Hly.
  split; [done |]. split; [done |]. split; [lia |]. split; [lia |].
  intros b xb Hxb.
  destruct (Forall2_lookup_l _ _ _ _ _ Hqkv Hxb) as (qb & Hqb & Hlin).
  unfold linear2 in Hlin.
  destruct (forallb _ xb) eqn:Hwidth; [| done]. injection Hlin as <-.
  split.
  { apply Forall_forall. intros row Hrow%list_elem_of_In.
    rewrite forallb_forall in Hwidth. by apply Nat.eqb_eq, Hwidth. }
  destruct (Hya _ _ Hqb) as (yab & Hyab & Hattb).
  assert (Hz : zip x (fmap (M:=list) (fmap (M:=list) fst) ya) !! b
               = Some (xb, fst <$> yab)).
  { by rewrite lookup_zip_with, Hxb, list_lookup_fmap, Hyab. }
  destruct (Hy _ _ Hz) as (yb & Hyb & Hout). by exists yab, yb.
Qed.

(** The explicit path returns whenever the attention of every head of
    every batch element does. *)
Lemma forward_explicit_returns (x : list (list (list R))) task mask :
  constructed self → flash self = false → (0 < head_size self)%nat →
  Forall (Forall (λ row, length row = embed_dim self)) x →
  (∀ scale b h xb (q k v : list (list R)),
     x !! b = Some xb → (h < num_heads self)%nat →
     length q = length xb → length k = length xb →
     is_ok (explicit_attention self task scale (attn_keep rng b h)
              (mask_at (mask_at mask b) h) q k v)) →
  ∃ y att, forward self rng x task mask = Ok (y, Some att).
Proof.
  intros Hc Hflash Hhs Hx Hheads.
  pose proof Hc as (Hnh & Hmod & Hqi & Hqo & Hoi & Hoo & Hqwf & Howf).
  unfold forward.
  rewrite linear3_ok by (by rewrite Hqi). rewrite bind_of_Ok.
  unfold attend. rewrite Hflash, attention_scale_ok by done. rewrite bind_of_Ok.
  set (scale := 1.0 / sqrt (INR (head_size self))).
  set (qkv := fmap (M:=list) (linear_row (qkv_proj self)) <$> x).
  assert (Hqb : ∀ b qb, qkv !! b = Some qb →
            ∃ xb, x !! b = Some xb ∧ qb = linear_row (qkv_proj self) <$> xb).
  { intros b qb. unfold qkv. rewrite list_lookup_fmap.
    destruct (x !! b) as [xb |]; [| done]. intros [= <-]. by exists xb. }
  assert (Hwide : ∀ xb : list (list R),
            Forall (λ r, length r = (3 * embed_dim self)%nat)
                   (linear_row (qkv_proj self) <$> xb)).
  { intros xb. apply Forall_fmap, Forall_forall. intros r _. simpl.
    by rewrite length_linear_row, Hqo. }
  destruct (imapM_total (attend_explicit self rng task scale mask) qkv) as [ya Hya].
  { intros b qb Hq. destruct (Hqb b qb Hq) as (xb & Hxb & ->).
    rewrite attend_explicit_closed. apply mapM_total, Forall_forall.
    intros h Hh%elem_of_seq.
    apply (Hheads scale b h xb); [done | lia | |].
    - by rewrite length_q_of, length_fmap.
    - by rewrite length_k_of, length_fmap. }
  rewrite Hya, bind_of_Ok. apply imapM_Ok in Hya as [Hlya Hya]. simpl.
  destruct (imapM_total
              (λ b (p : list (list R) * list (list (list R))),
                 project_out self rng b (length p.1) p.2)
              (zip x (fmap (M:=list) (fmap (M:=list) fst) ya))) as [y Hy].
  { intros b [xb yb]. rewrite lookup_zip_with, list_lookup_fmap.
    destruct (x !! b) as [xb' |] eqn:Hxb; [| done].
    destruct (ya !! b) as [yab |] eqn:Hyab; [| done].
    simpl. intros [= <- <-].
    assert (Hq : qkv !! b = Some (linear_row (qkv_proj self) <$> xb')).
    { unfold qkv. by rewrite list_lookup_fmap, Hxb. }
    destruct (Hya _ _ Hq) as (r & Hr & Hatt).
    assert (r = yab) as -> by congruence.
    pose proof (attend_explicit_shape self rng _ _ _ _ _ _ Hmod (Hwide xb') Hatt)
      as Hshape.
    rewrite length_fmap in Hshape.
    destruct (project_out_total self rng b (length xb') (fst <$> yab) Hc Hshape)
      as (o & Ho & _).
    by exists o. }
  rewrite Hy, bind_of_Ok. by eexists _, _.
Qed.

End Inversion.

(** *** Which keys get weight *)

(** The softmax of a row of scores in which the mask [mrow] keeps some
    keys and hides the others. *)
Lemma masked_softmax_entries (srow : list R) (mrow : list bool) (j : nat)
    (w : R) (keep : bool) :
  softmax (zip_with fill (Fin <$> srow) (negb <$> mrow)) !! j = Some w →
  mrow !! j = Some keep →
  if keep then 0 < w else w = 0.
Proof.
  intros Hw Hkeep.
  assert (Hs : ∃ s, srow !! j = Some s).
  { apply lookup_lt_Some in Hw.
    rewrite length_softmax, length_zip_with, !length_fmap in Hw.
    apply lookup_lt_is_Some_2. lia. }
  destruct Hs as [s Hs].
  assert (Hentry : zip_with fill (Fin <$> srow) (negb <$> mrow) !! j
                   = Some (if keep then Fin s else NegInf)).
  { rewrite lookup_zip_with, !list_lookup_fmap, Hs, Hkeep. by destruct keep. }
  destruct keep.
  - assert (Hdraw : Generation.possible_draw
                      (softmax (zip_with fill (Fin <$> srow) (negb <$> mrow))) j).
    { apply softmax_possible_draw. by exists s. }
    destruct Hdraw as (p & Hp & Hpos). congruence.
  - rewrite (softmax_masked _ _ Hentry) in Hw. by injection Hw as <-.
Qed.

Lemma masked_softmax_sum (srow : list R) (mrow : list bool) (j : nat) :
  (j < length srow)%nat → mrow !! j = Some true →
  sum (softmax (zip_with fill (Fin <$> srow) (negb <$> mrow))) = 1.
Proof.
  intros Hj Hkeep. destruct (lookup_lt_is_Some_2 srow j Hj) as [s Hs].
  apply (softmax_distribution _ j s).
  by rewrite lookup_zip_with, !list_lookup_fmap, Hs, Hkeep.
Qed.

Lemma scores_row scale (q k : list (list R)) (i : nat) (ti : list xreal) :
  scores scale q k !! i = Some ti →
  ∃ qi, q !! i = Some qi ∧
        ti = Fin <$> ((λ kj : list R, dot qi kj * scale) <$> k).
Proof.
  unfold scores. rewrite list_lookup_fmap.
  destruct (q !! i) as [qi |]; [| done]. simpl. intros [= <-].
  exists qi. split; [done |]. by rewrite <- list_fmap_compose.
Qed.

Section Weights.

Context (self : HybridSelfAttention) (rng : Draws).

(** One head under task 'mlm' with a mask of the shape of its scores. *)
Lemma explicit_attention_mlm_masked scale keep (mh : list (list bool))
    (q k v : list (list R)) :
  length mh = length q → Forall (λ r, length r = length q) mh →
  explicit_attention self "mlm" scale keep (Some mh) q k v =
  let att := softmax <$> zip_with (zip_with fill) (scores scale q k)
                           ((λ row : list bool, negb <$> row) <$> mh) in
  Ok (matmul (head_size self)
        (dropout (dropout_p self) (training self) keep att) v, att).
Proof.
  intros Hlen Hrows. unfold explicit_attention.
  change (String.eqb "mlm" "lm") with false.
  change (String.eqb "mlm" "mlm") with true. cbv iota.
  rewrite masked_fill_exact; [done | |].
  - rewrite length_fmap, Hlen. by destruct (scores_shape scale q k) as [-> _].
  - apply Forall_fmap. eapply Forall_impl; [exact Hrows |].
    intros r Hr. simpl. by rewrite length_fmap.
Qed.

Lemma mask_at_lookup {A} (mask : list (list (list (list A)))) b h mb mh :
  mask !! b = Some mb → mb !! h = Some mh →
  mask_at (mask_at (Some mask) b) h = Some mh.
Proof. intros Hb Hh. unfold mask_at. simpl. rewrite Hb. simpl. by rewrite Hh. Qed.

End Weights.

(** X21: on the explicit path with task 'mlm' and a boolean mask of shape
    (B, nh, T, T), a key that the mask hides from a query gets a weight of
    exactly zero, and a key that it keeps a positive weight; the weights of a
    query that is left at least one key sum to 1. For a constructed layer
    with a positive head size and inputs of width embed_dim the call
    returns. *)
Theorem mlm_mask_gives_hidden_keys_no_weight
    (self : HybridSelfAttention) (rng : Draws) (x : list (list (list R)))
    (T : nat) (mask : list (list (list (list bool)))) :
  flash self = false → Forall (λ xb, length xb = T) x →
  has_shape4 (length x) (num_heads self) T mask →
  (∀ y oatt, forward self rng x "mlm" (Some mask) = Ok (y, oatt) →
     ∃ att, oatt = Some att ∧ length att = length x ∧
       ∀ (b : nat) ab (h : nat) ah (i : nat) (row : list R) mb mh
         (mrow : list bool),
         att !! b = Some ab → ab !! h = Some ah → ah !! i = Some row →
         mask !! b = Some mb → mb !! h = Some mh → mh !! i = Some mrow →
         (∃ j : nat, mrow !! j = Some true) →
         length row = T ∧ sum row = 1 ∧
         ∀ (j : nat) (w : R) (keep : bool),
           row !! j = Some w → mrow !! j = Some keep →
           if keep then 0 < w else w = 0) ∧
  (constructed self → (0 < head_size self)%nat →
   Forall (Forall (λ row, length row = embed_dim self)) x →
   ∃ y att, forward self rng x "mlm" (Some mask) = Ok (y, Some att)).
Proof.
  intros Hflash Hx [HmB Hmask]. split.
  - intros y oatt Hf.
    destruct (forward_explicit_inv self rng x _ _ _ _ Hflash Hf)
      as (scale & ya & _ & -> & Hlya & _ & Hel).
    eexists. split; [reflexivity |]. split; [by rewrite length_fmap |].
    intros b ab h ah i row mb mh mrow Hab Hah Hrow Hmb Hmh Hmrow (j0 & Hj0).
    rewrite list_lookup_fmap in Hab.
    destruct (ya !! b) as [yab |] eqn:Hyab; [| done]. injection Hab as <-.
    rewrite list_lookup_fmap in Hah.
    destruct (yab !! h) as [[yh ah'] |] eqn:Hr; [| done]. injection Hah as <-.
    destruct (lookup_lt_is_Some_2 x b) as [xb Hxb].
    { rewrite <- Hlya. by eapply lookup_lt_Some. }
    destruct (Hel b xb Hxb) as (_ & yab' & yb & Hyab' & _ & Hatt & _).
    assert (yab' = yab) as -> by congruence.
    destruct (attend_explicit_head self rng _ _ _ _ _ _ _ _ Hatt Hr) as [Hh Hhead].
    rewrite (mask_at_lookup mask b h mb mh Hmb Hmh) in Hhead.
    rewrite Forall_lookup in Hx. pose proof (Hx _ _ Hxb) as HT.
    rewrite Forall_lookup in Hmask. destruct (Hmask _ _ Hmb) as [_ Hheads].
    rewrite Forall_lookup in Hheads. destruct (Hheads _ _ Hmh) as [HlT Hrows].
    rewrite explicit_attention_mlm_masked in Hhead.
    2:{ by rewrite length_q_of, length_fmap, HT. }
    2:{ by rewrite length_q_of, length_fmap, HT. }
    injection Hhead as _ <-.
    apply masked_rows_lookup in Hrow as (ti & mi & Hti & Hmi & ->).
    apply scores_row in Hti as (qi & _ & ->).
    rewrite list_lookup_fmap, Hmrow in Hmi. injection Hmi as <-.
    rewrite Forall_lookup in Hrows. pose proof (Hrows _ _ Hmrow) as HlmT.
    assert (Hlk : length ((λ kj : list R, dot qi kj * scale) <$>
                            k_of self (linear_row (qkv_proj self) <$> xb) h) = T).
    { by rewrite length_fmap, length_k_of, length_fmap. }
    split; [| split].
    + rewrite length_softmax, length_zip_with, !length_fmap.
      rewrite length_fmap in Hlk. lia.
    + apply (masked_softmax_sum _ _ j0); [| done].
      rewrite Hlk. apply lookup_lt_Some in Hj0. lia.
    + intros j w keep Hw Hkeep. by eapply masked_softmax_entries.
  - intros Hc Hhs Hwidth.
    apply forward_explicit_returns; try done.
    intros scale b h xb q k v Hxb Hh Hq Hk.
    destruct (lookup_lt_is_Some_2 mask b) as [mb Hmb].
    { rewrite HmB. by eapply lookup_lt_Some. }
    rewrite Forall_lookup in Hmask. destruct (Hmask _ _ Hmb) as [HlH Hheads].
    destruct (lookup_lt_is_Some_2 mb h) as [mh Hmh]; [lia |].
    rewrite Forall_lookup in Hheads. destruct (Hheads _ _ Hmh) as [HlT Hrows].
    rewrite (mask_at_lookup mask b h mb mh Hmb Hmh).
    rewrite Forall_lookup in Hx. pose proof (Hx _ _ Hxb) as HT.
    rewrite explicit_attention_mlm_masked; [by eexists | lia |].
    by rewrite Hq, HT.
Qed.

(** The sample layer on the sample batch, with the second position hidden
    from the first: the first position puts all its weight on itself. *)
Lemma mlm_mask_gives_hidden_keys_no_weight_witness :
  ∃ y att, forward sample_attention sample_draws sample_input "mlm"
             (Some sample_mask4) = Ok (y, Some att) ∧
    ∀ ab ah row w, att !! 0%nat = Some ab → ab !! 0%nat = Some ah →
                   ah !! 0%nat = Some row → row !! 1%nat = Some w → w = 0.
Proof.
  assert (Hflash : flash sample_attention = false) by reflexivity.
  assert (Hx : Forall (λ xb : list (list R), length xb = 2%nat) sample_input)
    by (repeat constructor).
  assert (Hm : has_shape4 (length sample_input) (num_heads sample_attention) 2
                 sample_mask4).
  { split; [done |]. repeat constructor. }
  destruct (mlm_mask_gives_hidden_keys_no_weight sample_attention sample_draws
              sample_input 2 sample_mask4 Hflash Hx Hm) as [Hzero Hret].
  destruct Hret as (y & att & Hf).
  { exact sample_attention_constructed. }
  { vm_compute. lia. }
  { exact sample_input_widths. }
  exists y, att. split; [exact Hf |].
  destruct (Hzero y (Some att) Hf) as (att' & Heq & _ & Hw).
  injection Heq as <-.
  intros ab ah row w Hab Hah Hrow Hrw.
  destruct (Hw 0%nat ab 0%nat ah 0%nat row [[[true; false]; [true; true]]]
              [[true; false]; [true; true]] [true; false] Hab Hah Hrow)
    as (_ & _ & Hentries); [done | done | done | by exists 0%nat |].
  by apply (Hentries 1%nat w false).
Defined.

(** X22: on the explicit path with task 'lm' and sequences of length
    T <= block_size, the weights of every query are a probability
    distribution over the positions up to its own: they sum to 1, and the
    weight of key j for query i is positive exactly when j <= i. *)
Theorem causal_weights_are_a_distribution_over_the_past
    (self : HybridSelfAttention) (rng : Draws) (x : list (list (list R)))
    (T : nat) (mask : option (list (list (list (list bool)))))
    (y : list (list (list R))) (att : list (list (list (list R)))) :
  flash self = false → (T ≤ block_size self)%nat →
  Forall (λ xb, length xb = T) x →
  forward self rng x "lm" mask = Ok (y, Some att) →
  ∀ b ab h ah i row,
    att !! b = Some ab → ab !! h = Some ah → ah !! i = Some row →
    sum row = 1 ∧ ∀ j w, row !! j = Some w → (0 < w ↔ (j ≤ i)%nat).
Proof.
  intros Hflash HT Hx Hf b ab h ah i row Hab Hah Hrow.
  destruct (forward_explicit_inv self rng x _ _ _ _ Hflash Hf)
    as (scale & ya & _ & [= ->] & Hlya & _ & Hel).
  rewrite list_lookup_fmap in Hab.
  destruct (ya !! b) as [yab |] eqn:Hyab; [| done]. injection Hab as <-.
  rewrite list_lookup_fmap in Hah.
  destruct (yab !! h) as [[yh ah'] |] eqn:Hr; [| done]. injection Hah as <-.
  destruct (lookup_lt_is_Some_2 x b) as [xb Hxb].
  { rewrite <- Hlya. by eapply lookup_lt_Some. }
  destruct (Hel b xb Hxb) as (_ & yab' & yb & Hyab' & _ & Hatt & _).
  assert (yab' = yab) as -> by congruence.
  destruct (attend_explicit_head self rng _ _ _ _ _ _ _ _ Hatt Hr) as [Hh Hhead].
  rewrite Forall_lookup in Hx. pose proof (Hx _ _ Hxb) as HlT.
  assert (Hlq : length (q_of self (linear_row (qkv_proj self) <$> xb) h) = T)
    by (by rewrite length_q_of, length_fmap).
  rewrite explicit_attention_lm in Hhead by lia.
  injection Hhead as _ <-. rewrite Hlq in Hrow.
  apply masked_rows_lookup in Hrow as (ti & mi & Hti & Hmi & ->).
  assert (Hi : (i < T)%nat).
  { apply lookup_lt_Some in Hmi.
    by destruct (causal_pattern_shape T) as [<- _]. }
  apply scores_row in Hti as (qi & _ & ->).
  set (srow := (λ kj : list R, dot qi kj * scale) <$>
                 k_of self (linear_row (qkv_proj self) <$> xb) h).
  assert (Hls : length srow = T).
  { unfold srow. by rewrite length_fmap, length_k_of, length_fmap. }
  assert (mi = negb <$> ((λ j, j <=? i)%nat <$> seq 0 T)) as ->.
  { unfold causal_pattern in Hmi.
    rewrite list_lookup_fmap, lookup_seq_lt in Hmi by done.
    injection Hmi as <-. by rewrite <- list_fmap_compose. }
  split.
  - apply (masked_softmax_sum _ _ i); [lia |].
    rewrite list_lookup_fmap, lookup_seq_lt by done. simpl.
    f_equal. apply Nat.leb_le. lia.
  - intros j w Hw.
    assert (Hj : (j < T)%nat).
    { apply lookup_lt_Some in Hw.
      rewrite length_softmax, length_zip_with, !length_fmap, length_seq in Hw. lia. }
    pose proof (masked_softmax_entries srow _ j w (j <=? i)%nat Hw) as Hcase.
    rewrite list_lookup_fmap, lookup_seq_lt in Hcase by done.
    specialize (Hcase eq_refl).
    destruct (Nat.leb_spec j i) as [Hle | Hgt].
    + split; [done | by intros _].
    + split; [intros Hpos; lra | lia].
Qed.

(** The sample layer on the sample batch: the second position spreads its
    weight over both positions. *)
Lemma causal_weights_are_a_distribution_over_the_past_witness :
  ∃ y att, forward sample_attention sample_draws sample_input "lm" None
             = Ok (y, Some att) ∧
    ∀ ab ah row, att !! 0%nat = Some ab → ab !! 0%nat = Some ah →
                 ah !! 1%nat = Some row → sum row = 1.
Proof.
  assert (Hflash : flash sample_attention = false) by reflexivity.
  assert (HT : (2 ≤ block_size sample_attention)%nat) by (simpl; lia).
  assert (Hx : Forall (λ xb : list (list R), length xb = 2%nat) sample_input)
    by (repeat constructor).
  destruct (forward_lm_explicit_total sample_attention sample_draws sample_input 2
              None sample_attention_constructed Hflash) as (y & att & Hf & _).
  { vm_compute. lia. }
  { exact sample_input_widths. }
  { exact HT. }
  { exact Hx. }
  exists y, att. split; [exact Hf |].
  intros ab ah row Hab Hah Hrow.
  by destruct (causal_weights_are_a_distribution_over_the_past sample_attention
                 sample_draws sample_input 2 None y att Hflash HT Hx Hf
                 0%nat ab 0%nat ah 1%nat row Hab Hah Hrow) as [Hsum _].
Defined.

(** *** Sequences longer than the causal buffer *)

Lemma expand_mismatch {A} (n : nat) (l : list A) :
  length l ≠ n → length l ≠ 1%nat → expand n l = Err RuntimeError.
Proof.
  intros Hn H1. unfold expand.
  destruct (Nat.eqb_spec (length l) n) as [? | _]; [done |].
  by destruct l as [| a [| b l]].
Qed.

Lemma length_causal_fill self (T : nat) :
  length (causal_fill self T) = (T `min` block_size self)%nat.
Proof.
  unfold causal_fill, eq_zero, tril_ones.
  by rewrite !length_fmap, length_take, length_fmap, length_seq.
Qed.

Lemma explicit_attention_lm_overflow self scale keep mask (q k v : list (list R)) :
  (block_size self < length q)%nat → block_size self ≠ 1%nat →
  explicit_attention self "lm" scale keep mask q k v = Err RuntimeError.
Proof.
  intros Hlong Hone. unfold explicit_attention.
  change (String.eqb "lm" "lm") with true. cbv iota.
  unfold masked_fill. rewrite expand_mismatch; [done | |].
  - rewrite length_causal_fill. destruct (scores_shape scale q k) as [-> _]. lia.
  - rewrite length_causal_fill. lia.
Qed.

(** With a buffer for a single position nothing is masked, whatever the
    length of the sequence. *)
Lemma explicit_attention_lm_single self scale keep mask (q k v : list (list R)) :
  block_size self = 1%nat → length k = length q →
  explicit_attention self "lm" scale keep mask q k v =
  explicit_attention self "mlm" scale keep None q k v.
Proof.
  intros Hone Hk. unfold explicit_attention.
  change (String.eqb "lm" "lm") with true.
  change (String.eqb "mlm" "lm") with false.
  change (String.eqb "mlm" "mlm") with true. cbv iota.
  destruct (scores_shape scale q k) as [Hs1 Hs2].
  set (T := length q) in *.
  assert (Hfill : masked_fill T (scores scale q k) (causal_fill self T)
                  = Ok (scores scale q k)); [| by rewrite Hfill].
  destruct T as [| T'].
  { destruct (scores scale q k); [done | simpl in Hs1; lia]. }
  assert (Hcf : causal_fill self (S T') = [[false]]).
  { unfold causal_fill, tril_ones. rewrite Hone. simpl.
    unfold eq_zero. simpl. rewrite !take_nil. simpl.
    destruct (Req_dec_T 1 0) as [? | _]; [lra | done]. }
  rewrite Hcf. unfold masked_fill.
  assert (Hrows : ∃ m : list (list bool),
            expand (length (scores scale q k)) [[false]] = Ok m ∧
            m = replicate (S T') [false]).
  { unfold expand. rewrite Hs1. simpl.
    destruct T' as [| T'']; simpl; by eexists. }
  destruct Hrows as (m & -> & ->). rewrite bind_of_Ok.
  rewrite (mapM_Ok_fmap _ (λ _, replicate (S T') false)).
  2:{ intros r [-> _]%elem_of_replicate. unfold expand. simpl.
      destruct T' as [| T'']; simpl; done. }
  rewrite bind_of_Ok. f_equal.
  rewrite fmap_replicate.
  apply list_eq. intros i. rewrite lookup_zip_with.
  destruct (scores scale q k !! i) as [ti |] eqn:Hti; [| done].
  cbn [mbind option_bind].
  rewrite lookup_replicate_2 by (apply lookup_lt_Some in Hti; lia).
  cbn [mbind option_bind].
  f_equal. rewrite zip_with_replicate_r.
  - apply list_eq. intros j. rewrite list_lookup_fmap.
    by destruct (ti !! j).
  - rewrite Forall_lookup in Hs2. rewrite (Hs2 _ _ Hti). lia.
Qed.

(** X23: on the explicit path with task 'lm', a batch of sequences that are
    all longer than block_size makes the call fail with a RuntimeError (the
    causal buffer cannot be broadcast to the scores), unless block_size is 1:
    then the buffer is broadcast to any length and hides nothing, so that the
    task 'lm' attends as 'mlm' does without a mask. *)
Theorem lm_beyond_block_size
    (self : HybridSelfAttention) (rng : Draws) (x : list (list (list R)))
    (mask : option (list (list (list (list bool))))) :
  flash self = false →
  (constructed self → (0 < head_size self)%nat →
   Forall (Forall (λ row, length row = embed_dim self)) x →
   x ≠ [] → Forall (λ xb, (block_size self < length xb)%nat) x →
   block_size self ≠ 1%nat →
   forward self rng x "lm" mask = Err RuntimeError) ∧
  (block_size self = 1%nat →
   forward self rng x "lm" mask = forward self rng x "mlm" None).
Proof.
  intros Hflash. split.
  - intros Hc Hhs Hwidth Hne Hlong Hone.
    pose proof Hc as (Hnh & Hmod & Hqi & Hqo & Hoi & Hoo & Hqwf & Howf).
    unfold forward.
    rewrite linear3_ok by (by rewrite Hqi). rewrite bind_of_Ok.
    unfold attend. rewrite Hflash, attention_scale_ok by done. rewrite bind_of_Ok.
    unfold imapM. rewrite (mapM_Err _ _ RuntimeError); [done | |].
    + apply Forall_forall. intros [b qb] Hin%elem_of_zip_seq. right.
      rewrite attend_explicit_closed. apply mapM_Err.
      * apply Forall_forall. intros h _. right.
        apply explicit_attention_lm_overflow; [| done].
        rewrite length_q_of.
        rewrite list_lookup_fmap in Hin.
        destruct (x !! b) as [xb |] eqn:Hxb; [| done]. injection Hin as <-.
        rewrite length_fmap. rewrite Forall_lookup in Hlong. by eapply Hlong.
      * destruct (num_heads self) as [| n]; [lia |].
        apply Exists_cons_hd.
        apply explicit_attention_lm_overflow; [| done].
        rewrite length_q_of.
        rewrite list_lookup_fmap in Hin.
        destruct (x !! b) as [xb |] eqn:Hxb; [| done]. injection Hin as <-.
        rewrite length_fmap. rewrite Forall_lookup in Hlong. by eapply Hlong.
    + destruct x as [| xb x']; [done |]. apply Exists_cons_hd.
      rewrite attend_explicit_closed. apply mapM_Err.
      * apply Forall_forall. intros h _. right.
        apply explicit_attention_lm_overflow; [| done].
        rewrite length_q_of, length_fmap. by apply Forall_cons in Hlong as [? _].
      * destruct (num_heads self) as [| n]; [lia |].
        apply Exists_cons_hd.
        apply explicit_attention_lm_overflow; [| done].
        rewrite length_q_of, length_fmap. by apply Forall_cons in Hlong as [? _].
  - intros Hone. unfold forward.
    destruct (linear3 (qkv_proj self) x) as [qkv | e]; [| done].
    rewrite !bind_of_Ok.
    assert (Hatt : attend self rng "lm" mask qkv = attend self rng "mlm" None qkv).
    { unfold attend. rewrite Hflash.
      change (String.eqb "lm" "lm") with true.
      destruct (attention_scale self) as [scale | e]; [| done].
      rewrite !bind_of_Ok.
      rewrite (imapM_ext (attend_explicit self rng "lm" scale mask)
                 (attend_explicit self rng "mlm" scale None)); [done |].
      intros b qb _. rewrite !attend_explicit_closed. apply mapM_ext_in.
      intros h _. simpl.
      change (mask_at (mask_at None b) h) with (@None (list (list bool))).
      apply explicit_attention_lm_single; [done |].
      by rewrite length_k_of, length_q_of. }
    by rewrite Hatt.
Qed.

(** The sample layer with a buffer for one position, on the sample batch
    of two positions. *)
Lemma lm_beyond_block_size_witness :
  forward sample_attention_short sample_draws sample_input "lm" None
  = forward sample_attention_short sample_draws sample_input "mlm" None.
Proof.
  by apply (lm_beyond_block_size sample_attention_short sample_draws sample_input
              None).
Defined.

End AttentionRowFacts.

(** ** No position sees a later one *)

Module CausalityFacts.

Import Tensor Attention Heads.
Import ResultFacts TensorFacts AttentionFacts AttentionRowFacts.
Local Open Scope R_scope.

(** *** One row of a head under task 'lm' *)

Lemma causal_fill_row (s : list R) (i : nat) :
  (i < length s)%nat →
  zip_with fill (Fin <$> s) (negb <$> ((λ j, j <=? i)%nat <$> seq 0 (length s)))
  = (Fin <$> take (S i) s) ++ replicate (length s - S i) NegInf.
Proof.
  intros Hi. apply list_eq. intros j.
  rewrite lookup_zip_with, !list_lookup_fmap.
  destruct (decide (j < length s)%nat) as [Hj | Hj].
  - destruct (lookup_lt_is_Some_2 s j Hj) as [a Ha].
    rewrite Ha, lookup_seq_lt by done. simpl.
    destruct (Nat.leb_spec j i) as [Hle | Hgt]; simpl.
    + rewrite lookup_app_l by (rewrite length_fmap, length_take; lia).
      by rewrite list_lookup_fmap, lookup_take_lt, Ha by lia.
    + rewrite lookup_app_r by (rewrite length_fmap, length_take; lia).
      rewrite length_fmap, length_take.
      symmetry. apply lookup_replicate_2. lia.
  - rewrite (lookup_ge_None_2 s j) by lia. simpl.
    symmetry. apply lookup_ge_None_2.
    rewrite length_app, length_fmap, length_take, length_replicate. lia.
Qed.

Lemma sum_app_zeros (l : list R) (m : nat) : sum (l ++ replicate m 0) = sum l.
Proof.
  unfold sum. rewrite foldr_app.
  replace (foldr Rplus 0 (replicate m 0)) with 0; [done |].
  induction m as [| m IH]; simpl; [done |]. rewrite <- IH. lra.
Qed.

Lemma softmax_app_masked (row : list xreal) (m : nat) :
  softmax (row ++ replicate m NegInf) = softmax row ++ replicate m 0.
Proof.
  unfold softmax. rewrite !fmap_app, !fmap_replicate. simpl.
  rewrite sum_app_zeros. by rewrite Rdiv_0_l.
Qed.

Lemma dropout_row_app_zeros p tr keep (i : nat) (row : list R) (m : nat) :
  dropout_row p tr keep i (row ++ replicate m 0)
  = dropout_row p tr keep i row ++ replicate m 0.
Proof.
  unfold dropout_row. destruct tr; [| done].
  rewrite imap_app. f_equal. apply list_eq. intros j.
  rewrite list_lookup_imap.
  destruct (decide (j < m)%nat) as [Hj | Hj].
  - rewrite !lookup_replicate_2 by done. simpl.
    destruct (keep i (length row + j)%nat); [| done]. by rewrite Rdiv_0_l.
  - by rewrite !(proj1 (lookup_replicate_None _ _ _)) by lia.
Qed.

Lemma length_dropout_row p tr keep (i : nat) (row : list R) :
  length (dropout_row p tr keep i row) = length row.
Proof. unfold dropout_row. destruct tr; [by rewrite length_imap | done]. Qed.

Lemma weighted_zeros (k m : nat) (v : list (list R)) :
  Forall (λ r, length r = k) v →
  foldr (zip_with Rplus) (replicate k 0)
    (zip_with (λ w (vj : list R), Rmult w <$> vj) (replicate m 0) v)
  = replicate k 0.
Proof.
  intros Hv. revert m. induction Hv as [| vj v Hvj _ IH]; intros m.
  - by destruct m.
  - destruct m as [| m]; [done |]. simpl. rewrite IH.
    apply list_eq. intros j. rewrite lookup_zip_with, list_lookup_fmap.
    destruct (decide (j < k)%nat) as [Hj | Hj].
    + destruct (lookup_lt_is_Some_2 vj j) as [a Ha]; [lia |].
      rewrite Ha, lookup_replicate_2 by done. simpl. f_equal. lra.
    + rewrite (lookup_ge_None_2 vj j) by lia. simpl.
      symmetry. apply lookup_replicate_None. lia.
Qed.

Lemma weighted_sum_app_zeros (k : nat) (r : list R) (v1 v2 : list (list R)) (m : nat) :
  length r = length v1 → Forall (λ row, length row = k) v2 →
  weighted_sum k (r ++ replicate m 0) (v1 ++ v2) = weighted_sum k r v1.
Proof.
  intros Hlen Hv2. unfold weighted_sum.
  rewrite zip_with_app by done. rewrite foldr_app.
  by rewrite weighted_zeros.
Qed.

Lemma dropout_lookup p tr keep (t : list (list R)) (i : nat) :
  dropout p tr keep t !! i = dropout_row p tr keep i <$> t !! i.
Proof.
  unfold dropout, dropout_row. destruct tr.
  - by rewrite list_lookup_imap.
  - by destruct (t !! i).
Qed.

Lemma matmul_lookup (k : nat) (a v : list (list R)) (i : nat) :
  matmul k a v !! i = (λ ai, weighted_sum k ai v) <$> a !! i.
Proof. unfold matmul. by rewrite list_lookup_fmap. Qed.

(** Row [i] of the output of a head under task 'lm' is computed from the
    query at [i] and the keys and values up to [i]. *)
Lemma explicit_attention_lm_row self scale keep mask (q k v y att : list (list R))
    (i : nat) (qi : list R) :
  explicit_attention self "lm" scale keep mask q k v = Ok (y, att) →
  length k = length q → length v = length q →
  (length q ≤ block_size self)%nat →
  Forall (λ r, length r = head_size self) v →
  q !! i = Some qi →
  y !! i = Some (causal_row self scale keep i qi (take (S i) k) (take (S i) v)).
Proof.
  intros Hatt Hk Hv HT Hwidth Hqi.
  rewrite explicit_attention_lm in Hatt by done. injection Hatt as <- _.
  assert (Hi : (i < length q)%nat) by (by eapply lookup_lt_Some).
  rewrite matmul_lookup, dropout_lookup, list_lookup_fmap, lookup_zip_with.
  unfold scores. rewrite list_lookup_fmap, Hqi.
  unfold causal_pattern. rewrite list_lookup_fmap, lookup_seq_lt by done.
  cbn [fmap option_fmap option_map mbind option_bind]. f_equal.
  set (s := (λ kj : list R, dot qi kj * scale) <$> k).
  assert (Hls : length s = length q) by (unfold s; by rewrite length_fmap).
  replace ((λ kj : list R, Fin (dot qi kj * scale)) <$> k) with (Fin <$> s)
    by (unfold s; by rewrite <- list_fmap_compose).
  replace ((λ j : nat, negb (j <=? i)%nat) <$> seq 0 (length q))
    with (negb <$> ((λ j, j <=? i)%nat <$> seq 0 (length s)))
    by (rewrite Hls; by rewrite <- list_fmap_compose).
  rewrite causal_fill_row by lia.
  rewrite softmax_app_masked, dropout_row_app_zeros.
  rewrite <- (take_drop (S i) v) at 1.
  rewrite weighted_sum_app_zeros.
  - unfold causal_row. do 3 f_equal.
    unfold s. by rewrite <- fmap_take, <- list_fmap_compose.
  - rewrite length_dropout_row, length_softmax, length_fmap, !length_take. lia.
  - by apply Forall_drop.
Qed.

Lemma take_le_agree {A} (l l' : list A) (m n : nat) :
  (m ≤ n)%nat → take n l = take n l' → take m l = take m l'.
Proof.
  intros Hmn Heq.
  rewrite <- (Nat.min_l m n) by done.
  by rewrite <- !take_take, Heq.
Qed.

Lemma lookup_agree {A} (l l' : list A) (i n : nat) :
  (i < n)%nat → take n l = take n l' → l !! i = l' !! i.
Proof.
  intros Hi Heq. by rewrite <- (lookup_take_lt l n i), <- (lookup_take_lt l' n i), Heq.
Qed.

(** Two heads whose queries, keys and values agree on the first [n]
    positions give outputs that agree there. *)
Lemma explicit_attention_lm_agree self scale keep mask mask'
    (q k v q' k' v' y att y' att' : list (list R)) (n : nat) :
  explicit_attention self "lm" scale keep mask q k v = Ok (y, att) →
  explicit_attention self "lm" scale keep mask' q' k' v' = Ok (y', att') →
  length k = length q → length v = length q → (length q ≤ block_size self)%nat →
  length k' = length q' → length v' = length q' →
  (length q' ≤ block_size self)%nat →
  Forall (λ r, length r = head_size self) v →
  Forall (λ r, length r = head_size self) v' →
  take n q = take n q' → take n k = take n k' → take n v = take n v' →
  take n y = take n y'.
Proof.
  intros Hatt Hatt' Hk Hv HT Hk' Hv' HT' Hw Hw' Hq Hkk Hvv.
  assert (Hly : length y = length q).
  { apply explicit_attention_inv in Hatt as [-> Hla].
    unfold matmul. by rewrite length_fmap, length_dropout. }
  assert (Hly' : length y' = length q').
  { apply explicit_attention_inv in Hatt' as [-> Hla].
    unfold matmul. by rewrite length_fmap, length_dropout. }
  apply list_eq. intros i. rewrite !lookup_take.
  destruct (decide (i < n)%nat) as [Hi | _]; [| done].
  pose proof (lookup_agree q q' i n Hi Hq) as Hqi.
  destruct (q !! i) as [qi |] eqn:Hqi0.
  - rewrite (explicit_attention_lm_row _ _ _ _ _ _ _ _ _ i qi Hatt) by done.
    rewrite (explicit_attention_lm_row _ _ _ _ _ _ _ _ _ i qi Hatt') by done.
    f_equal. f_equal; by apply (take_le_agree _ _ (S i) n); [lia |].
  - rewrite (lookup_ge_None_2 y i) by (apply lookup_ge_None_1 in Hqi0; lia).
    symmetry in Hqi. apply lookup_ge_None_1 in Hqi.
    by rewrite (lookup_ge_None_2 y' i) by lia.
Qed.

(** *** One batch element *)

Section Element.

Context (self : HybridSelfAttention) (rng : Draws).

Lemma q_of_take (qkv : list (list R)) h n :
  take n (q_of self qkv h) = q_of self (take n qkv) h.
Proof. unfold q_of. by rewrite !fmap_take. Qed.

Lemma k_of_take (qkv : list (list R)) h n :
  take n (k_of self qkv h) = k_of self (take n qkv) h.
Proof. unfold k_of. by rewrite !fmap_take. Qed.

Lemma v_of_take (qkv : list (list R)) h n :
  take n (v_of self qkv h) = v_of self (take n qkv) h.
Proof. unfold v_of. by rewrite !fmap_take. Qed.

Lemma attend_explicit_lm_agree scale mask mask' b (qkv qkv' : list (list R))
    ya ya' (n : nat) :
  (embed_dim self `mod` num_heads self = 0)%nat →
  Forall (λ r, length r = (3 * embed_dim self)%nat) qkv →
  Forall (λ r, length r = (3 * embed_dim self)%nat) qkv' →
  (length qkv ≤ block_size self)%nat → (length qkv' ≤ block_size self)%nat →
  take n qkv = take n qkv' →
  attend_explicit self rng "lm" scale mask b qkv = Ok ya →
  attend_explicit self rng "lm" scale mask' b qkv' = Ok ya' →
  Forall2 (λ r r' : list (list R) * list (list R), take n r.1 = take n r'.1) ya ya'.
Proof.
  intros Hmod Hw Hw' HT HT' Hagree Hya Hya'.
  apply Forall2_same_length_lookup_2.
  { rewrite (length_attend_explicit self rng _ _ _ _ _ _ Hya).
    by rewrite (length_attend_explicit self rng _ _ _ _ _ _ Hya'). }
  intros h [yh ah] [yh' ah'] Hr Hr'. simpl.
  destruct (attend_explicit_head self rng _ _ _ _ _ _ _ _ Hya Hr) as [Hh Hhead].
  destruct (attend_explicit_head self rng _ _ _ _ _ _ _ _ Hya' Hr') as [_ Hhead'].
  eapply (explicit_attention_lm_agree self scale (attn_keep rng b h));
    [exact Hhead | exact Hhead' | ..].
  - by rewrite length_k_of, length_q_of.
  - by rewrite length_v_of, length_q_of.
  - by rewrite length_q_of.
  - by rewrite length_k_of, length_q_of.
  - by rewrite length_v_of, length_q_of.
  - by rewrite length_q_of.
  - by apply v_of_width.
  - by apply v_of_width.
  - by rewrite !q_of_take, Hagree.
  - by rewrite !k_of_take, Hagree.
  - by rewrite !v_of_take, Hagree.
Qed.

Lemma take_dropout p tr keep (t : list (list R)) (n : nat) :
  take n (dropout p tr keep t) = dropout p tr keep (take n t).
Proof.
  apply list_eq. intros i. rewrite lookup_take, !dropout_lookup, lookup_take.
  by destruct (decide (i < n)%nat).
Qed.

Lemma fmap_agree {A B} (f : A → B) (R' : A → A → Prop) (l l' : list A) :
  Forall2 R' l l' → (∀ a a', R' a a' → f a = f a') → f <$> l = f <$> l'.
Proof.
  intros HF Hf. induction HF as [| a a' l l' Ha _ IH]; [done |].
  rewrite !fmap_cons. by rewrite (Hf _ _ Ha), IH.
Qed.

Lemma merge_heads_agree (T T' n : nat) (ys ys' : list (list (list R))) :
  (n `min` T = n `min` T')%nat →
  Forall2 (λ yh yh' : list (list R), take n yh = take n yh') ys ys' →
  take n (merge_heads T ys) = take n (merge_heads T' ys').
Proof.
  intros Hmin Hys. unfold merge_heads.
  rewrite <- !fmap_take, !take_seq, Hmin.
  apply list_fmap_ext. intros i t [-> Ht]%lookup_seq. f_equal.
  apply (fmap_agree _ _ _ _ Hys). intros yh yh' Hagree.
  by rewrite (lookup_agree yh yh' (0 + i) n) by (done || lia).
Qed.

Lemma project_out_agree b (T T' n : nat) (ys ys' : list (list (list R))) out out' :
  (n `min` T = n `min` T')%nat →
  Forall2 (λ yh yh' : list (list R), take n yh = take n yh') ys ys' →
  project_out self rng b T ys = Ok out →
  project_out self rng b T' ys' = Ok out' →
  take n out = take n out'.
Proof.
  intros Hmin Hys. unfold project_out.
  intros (o & Ho & [= <-])%bind_Ok (o' & Ho' & [= <-])%bind_Ok.
  unfold linear2 in Ho, Ho'.
  destruct (forallb _ (merge_heads T ys)); [| done].
  destruct (forallb _ (merge_heads T' ys')); [| done].
  injection Ho as <-. injection Ho' as <-.
  rewrite !take_dropout, <- !fmap_take.
  by rewrite (merge_heads_agree T T' n ys ys').
Qed.

End Element.

(** X24: on the explicit path with task 'lm', the output at a position
    does not depend on the input at later positions. If two batches agree on
    the first n positions of every sequence (and all sequences fit the causal
    buffer), the outputs of the layer agree on the first n positions of every
    sequence, for the same dropout draws at those positions; in particular,
    appending tokens to a sequence leaves the outputs at the earlier
    positions unchanged. *)
Theorem lm_output_ignores_later_positions
    (self : HybridSelfAttention) (rng : Draws) (x x' : list (list (list R)))
    (n : nat) (mask mask' : option (list (list (list (list bool)))))
    (y y' : list (list (list R)))
    (oatt oatt' : option (list (list (list (list R))))) :
  constructed self → flash self = false →
  Forall2 (λ xb xb' : list (list R), take n xb = take n xb') x x' →
  Forall (λ xb, (length xb ≤ block_size self)%nat) x →
  Forall (λ xb, (length xb ≤ block_size self)%nat) x' →
  forward self rng x "lm" mask = Ok (y, oatt) →
  forward self rng x' "lm" mask' = Ok (y', oatt') →
  Forall2 (λ yb yb' : list (list R), take n yb = take n yb') y y'.
Proof.
  intros Hc Hflash Hagree Hfit Hfit' Hf Hf'.
  pose proof Hc as (Hnh & Hmod & Hqi & Hqo & Hoi & Hoo & Hqwf & Howf).
  destruct (forward_explicit_inv self rng x _ _ _ _ Hflash Hf)
    as (scale & ya & Hscale & _ & Hlya & Hly & Hel).
  destruct (forward_explicit_inv self rng x' _ _ _ _ Hflash Hf')
    as (scale' & ya' & Hscale' & _ & Hlya' & Hly' & Hel').
  assert (scale' = scale) as -> by congruence.
  pose proof (Forall2_length _ _ _ Hagree) as Hlx.
  assert (Hwide : ∀ xb : list (list R),
            Forall (λ r, length r = (3 * embed_dim self)%nat)
                   (linear_row (qkv_proj self) <$> xb)).
  { intros xb. apply Forall_fmap, Forall_forall. intros r _. simpl.
    by rewrite length_linear_row, Hqo. }
  apply Forall2_same_length_lookup_2; [lia |].
  intros b yb yb' Hyb Hyb'.
  destruct (lookup_lt_is_Some_2 x b) as [xb Hxb].
  { rewrite <- Hly. by eapply lookup_lt_Some. }
  destruct (Forall2_lookup_l _ _ _ _ _ Hagree Hxb) as (xb' & Hxb' & Hab).
  destruct (Hel b xb Hxb) as (_ & yab & yb0 & Hyab & Hyb0 & Hatt & Hout).
  destruct (Hel' b xb' Hxb') as (_ & yab' & yb0' & Hyab' & Hyb0' & Hatt' & Hout').
  assert (yb0 = yb) as -> by congruence.
  assert (yb0' = yb') as -> by congruence.
  rewrite Forall_lookup in Hfit. pose proof (Hfit _ _ Hxb) as HT.
  rewrite Forall_lookup in Hfit'. pose proof (Hfit' _ _ Hxb') as HT'.
  assert (Hheads : Forall2 (λ r r' : list (list R) * list (list R),
                              take n r.1 = take n r'.1) yab yab').
  { eapply (attend_explicit_lm_agree self rng scale mask mask' b);
      [exact Hmod | apply Hwide | apply Hwide | | | | exact Hatt | exact Hatt'].
    - by rewrite length_fmap.
    - by rewrite length_fmap.
    - by rewrite <- !fmap_take, Hab. }
  eapply (project_out_agree self rng b (length xb) (length xb') n);
    [| | exact Hout | exact Hout'].
  - apply (f_equal length) in Hab. by rewrite !length_take in Hab.
  - apply Forall2_fmap. eapply Forall2_impl; [exact Hheads |]. done.
Qed.

(** The sample batch of two positions and the same batch with a third
    position appended: the outputs at the first two positions are the same. *)
Lemma lm_output_ignores_later_positions_witness :
  ∃ y y' att att',
    forward sample_attention sample_draws sample_input "lm" None
      = Ok (y, Some att) ∧
    forward sample_attention sample_draws sample_longer_input "lm" None
      = Ok (y', Some att') ∧
    Forall2 (λ yb yb' : list (list R), take 2 yb = take 2 yb') y y'.
Proof.
  assert (Hflash : flash sample_attention = false) by reflexivity.
  destruct (forward_lm_explicit_total sample_attention sample_draws sample_input 2
              None sample_attention_constructed Hflash) as (y & att & Hf & _).
  { vm_compute. lia. }
  { exact sample_input_widths. }
  { simpl. lia. }
  { repeat constructor. }
  destruct (forward_lm_explicit_total sample_attention sample_draws
              sample_longer_input 3 None sample_attention_constructed Hflash)
    as (y' & att' & Hf' & _).
  { vm_compute. lia. }
  { repeat constructor. }
  { simpl. lia. }
  { repeat constructor. }
  exists y, y', att, att'. split; [exact Hf | split; [exact Hf' |]].
  apply (lm_output_ignores_later_positions sample_attention sample_draws
           sample_input sample_longer_input 2 None None y y' (Some att) (Some att')
           sample_attention_constructed Hflash).
  - repeat constructor.
  - repeat constructor; simpl; lia.
  - repeat constructor; simpl; lia.
  - exact Hf.
  - exact Hf'.
Defined.

End CausalityFacts.

(** ** What the [tie_weights] flag decides *)

Module TyingSharingFacts.

Import Tying ResultFacts TyingFacts.
Local Open Scope R_scope.



End TyingSharingFacts.

